(** * nsyte: the [upload] command and its relay fan-out

    A shallow embedding of [src/commands/upload.ts]: the relay publication
    routine [publishToRelays] with its WebSocket handlers, and the control
    flow of [uploadCommand] (configuration, signer selection, scan, remote
    fetch, HEAD probe, comparison, upload, purge, extra records).

    JavaScript values are modelled as the code uses them: optional strings
    with their truthiness, parsed JSON frames as a tree, exceptions as an
    explicit [Throw] result, [Deno.exit] as an [Exit] result that no
    [catch] intercepts.  Everything the command obtains from the runtime or
    from modules outside this file (clock, sockets, HTTP, signer, prompts,
    file system) is a field of the record [env]. *)

From Stdlib Require Import ZArith List String Ascii Bool Lia DecimalString.
Import ListNotations.
Local Open Scope string_scope.
Local Open Scope list_scope.
Set Warnings "-register-all".

(* ================================================================== *)
(** ** JavaScript strings and values *)

Module JS.

(** [s.includes(sub)] *)
Fixpoint includes (s sub : string) : bool :=
  String.prefix sub s ||
  match s with
  | EmptyString => false
  | String _ t => includes t sub
  end.

(** [s.endsWith(suf)] *)
Fixpoint endsWith (s suf : string) : bool :=
  String.eqb s suf ||
  match s with
  | EmptyString => false
  | String _ t => endsWith t suf
  end.

(** Truthiness of a string: the empty string is falsy. *)
Definition truthy_string (s : string) : bool := negb (String.eqb s "").

(** Truthiness of [string | undefined]. *)
Definition truthy (o : option string) : bool :=
  match o with
  | Some s => truthy_string s
  | None => false
  end.

(** [a || b] on optional strings. *)
Definition or_else (a b : option string) : option string :=
  if truthy a then a else b.

(** [`${n}`] for an integer below [10^21] in absolute value, which
    covers every value derived from [Date.now()] and every counter. *)
Definition string_of_Z (n : Z) : string :=
  NilZero.string_of_int (Z.to_int n).

(** [s.split(",")] *)
Fixpoint split_acc (sep : ascii) (s cur : string) : list string :=
  match s with
  | EmptyString => [cur]
  | String c t =>
      if Ascii.eqb c sep then cur :: split_acc sep t ""
      else split_acc sep t (cur ++ String c "")
  end.

Definition split (sep : ascii) (s : string) : list string :=
  split_acc sep s "".

(** A value produced by [JSON.parse].  A number is kept as the text that
    [String(n)] gives for it ([42], [0.5], [1e+21]): the handlers below
    look at a number only for its truthiness and its rendering inside a
    template literal, and a parsed number is falsy exactly when that text
    is [0] (zero and negative zero; [JSON.parse] yields no [NaN]). *)
Inductive json : Type :=
| JNull
| JBool (b : bool)
| JNum (text : string)
| JStr (s : string)
| JArr (items : list json)
| JObj (fields : list (string * json)).

(** [Array.isArray(v) && v.length >= n] *)
Definition array_of_length_ge (n : nat) (v : json) : bool :=
  match v with
  | JArr items => Nat.leb n (List.length items)
  | _ => false
  end.

(** [v[i]] on an array; [None] stands for [undefined]. *)
Definition index (v : json) (i : nat) : option json :=
  match v with
  | JArr items => nth_error items i
  | _ => None
  end.

(** [x === "s"] *)
Definition is_string (s : string) (x : option json) : bool :=
  match x with
  | Some (JStr t) => String.eqb t s
  | _ => false
  end.

(** [x === b] for a boolean literal [b] *)
Definition is_bool (b : bool) (x : option json) : bool :=
  match x with
  | Some (JBool c) => Bool.eqb c b
  | _ => false
  end.

(** Truthiness of a parsed value or [undefined]. *)
Definition truthy_json (x : option json) : bool :=
  match x with
  | None | Some JNull => false
  | Some (JBool b) => b
  | Some (JNum text) => negb (String.eqb text "0")
  | Some (JStr s) => truthy_string s
  | Some (JArr _) | Some (JObj _) => true
  end.

(** [x || dflt] *)
Definition or_default (x : option json) (dflt : json) : json :=
  match x with
  | Some v => if truthy_json x then v else dflt
  | None => dflt
  end.

(** String conversion, as a template literal performs it.  Inside an
    array, [null] renders as the empty string and the elements are joined
    with commas. *)
Fixpoint toString (v : json) : string :=
  match v with
  | JNull => "null"
  | JBool true => "true"
  | JBool false => "false"
  | JNum text => text
  | JStr s => s
  | JArr items =>
      (fix join (l : list json) : string :=
         match l with
         | [] => ""
         | x :: rest =>
             ((match x with JNull => "" | _ => toString x end)
                ++ (match rest with
                    | [] => ""
                    | _ :: _ => "," ++ join rest
                    end))%string
         end) items
  | JObj _ => "[object Object]"
  end.

(** [v.includes(sub)]: substring test on a string, membership test on an
    array, [None] (a [TypeError]) on anything else. *)
Definition includes_value (v : json) (sub : string) : option bool :=
  match v with
  | JStr s => Some (includes s sub)
  | JArr items => Some (existsb (fun x => is_string sub (Some x)) items)
  | _ => None
  end.

End JS.

Import JS.

(* ================================================================== *)
(** ** Records of the protocol *)

Record NostrEventTemplate : Type := mkTemplate {
  t_kind : Z;
  t_created_at : Z;
  t_content : string;
  t_tags : list (list string)
}.

Record NostrEvent : Type := mkEvent {
  ev_id : string;
  ev_pubkey : string;
  ev_created_at : Z;
  ev_kind : Z;
  ev_tags : list (list string);
  ev_content : string;
  ev_sig : string
}.

(* ================================================================== *)
(** ** The message collector *)

Module Collector.

Inductive category : Type :=
| relay_rejection
| connection_error
| file_error
| file_success
| event_success.

Record entry : Type := mkEntry {
  e_category : category;
  e_target : string;
  e_content : json
}.

(** Modelled from the spec: the class [MessageCollector] of
    [lib/message-collector.ts], which is not among the sources.  The spec
    describes a single sink with tagged entries (category, relay or file
    key, message) kept as an append-only log. *)
Definition t : Type := list entry.

(** Modelled from the spec: [addRelayRejection(relay, message)] appends an
    entry of category relay-rejection under the relay's address. *)
Definition addRelayRejection (relay : string) (message : json) (c : t) : t :=
  c ++ [mkEntry relay_rejection relay message].

(** Modelled from the spec: [addConnectionError(relay, message)] appends an
    entry of category connection-error under the relay's address. *)
Definition addConnectionError (relay : string) (message : string) (c : t) : t :=
  c ++ [mkEntry connection_error relay (JStr message)].

(** Modelled from the spec: [addFileError(path, message)] appends an entry
    of category error under the file's path. *)
Definition addFileError (path : string) (message : string) (c : t) : t :=
  c ++ [mkEntry file_error path (JStr message)].

(** Modelled from the spec: [addFileSuccess(path, sha256)] appends an
    entry of category file-success under the file's path. *)
Definition addFileSuccess (path : string) (sha256 : string) (c : t) : t :=
  c ++ [mkEntry file_success path (JStr sha256)].

(** Modelled from the spec: [addEventSuccess(path, eventId)] appends an
    entry of category event-success under the file's path. *)
Definition addEventSuccess (path : string) (eventId : string) (c : t) : t :=
  c ++ [mkEntry event_success path (JStr eventId)].

(** The entries filed under one key. *)
Definition for_target (key : string) (c : t) : list entry :=
  filter (fun e => String.eqb (e_target e) key) c.

End Collector.

(* ================================================================== *)
(** ** Observable actions *)

Inductive action : Type :=
| AConsoleLog (text : string)
| AConsoleError (text : string)
| ACopyFallback (folder fallback : string)
| ALoadFileData (path : string)
| AFetch (method url : string) (authorization : option string)
| AProcessUploads (paths : list string) (servers relays : list string)
| ASignEvent (template : NostrEventTemplate)
| APublish (event : NostrEvent) (relays : list string)
| AWsConnect (relay : string)
| AWsSend (relay : string) (event : NostrEvent)
| AWsClose (relay : string)
| ADeleteProgress (ok : bool) (completed total failed : nat).

(* ================================================================== *)
(** ** One relay connection of [publishToRelays] *)

Module Relay.

Inductive ready_state : Type := CONNECTING | OPEN | CLOSING | CLOSED.

(** What the runtime delivers to a socket.  [EvMessage] carries the
    result of [JSON.parse(msg.data)], [None] when it throws. *)
Inductive socket_event : Type :=
| EvOpen
| EvMessage (parsed : option json)
| EvTimeout
| EvError (e : string)
| EvClose.

(** A socket together with the promise [connectPromise] built around it.
    [s_timers] counts the pending [setTimeout] callbacks, [s_resolved]
    is the value the promise settled with. *)
Record sock : Type := mkSock {
  s_relay : string;
  s_ready : ready_state;
  s_timers : nat;
  s_resolved : option bool
}.

Definition new_socket (relay : string) : sock :=
  mkSock relay CONNECTING 0 None.

(** [resolve(b)]: only the first call settles the promise. *)
Definition resolve (b : bool) (s : sock) : sock :=
  mkSock (s_relay s) (s_ready s) (s_timers s)
         (match s_resolved s with None => Some b | r => r end).

(** [socket.close()] *)
Definition close (s : sock) : sock :=
  mkSock (s_relay s)
         (match s_ready s with CONNECTING | OPEN => CLOSING | r => r end)
         (s_timers s) (s_resolved s).

Definition set_ready (r : ready_state) (s : sock) : sock :=
  mkSock (s_relay s) r (s_timers s) (s_resolved s).

Definition set_timers (n : nat) (s : sock) : sock :=
  mkSock (s_relay s) (s_ready s) n (s_resolved s).

(** [Array.isArray(data) && data.length >= n && data[0] === "OK" &&
    data[2] === flag] *)
Definition is_ok_frame (n : nat) (flag : bool) (data : json) : bool :=
  array_of_length_ge n data
  && is_string "OK" (index data 0)
  && is_bool flag (index data 2).

(** [errorMessage.includes("rate-limit") ||
    errorMessage.includes("noting too much")]; [None] when the call
    throws. *)
Definition rate_limited (errorMessage : json) : option bool :=
  match includes_value errorMessage "rate-limit" with
  | None => None
  | Some true => Some true
  | Some false => includes_value errorMessage "noting too much"
  end.

Definition collect (f : Collector.t -> Collector.t)
           (mc : option Collector.t) : option Collector.t :=
  option_map f mc.

(** The body of [socket.onmessage], inside its [try]/[catch]. *)
Definition onmessage (mc : option Collector.t) (s : sock)
           (parsed : option json)
  : sock * option Collector.t * list action :=
  match parsed with
  | None => (s, mc, [])
  | Some data =>
      if is_ok_frame 3 true data then
        (close (resolve true s), mc, [AWsClose (s_relay s)])
      else if is_ok_frame 4 false data then
        let errorMessage :=
          or_default (index data 3) (JStr "Unknown relay error") in
        match rate_limited errorMessage with
        | None => (s, mc, [])
        | Some true =>
            (close (resolve false s),
             collect (Collector.addRelayRejection (s_relay s)
                        (JStr ("Rate limited: " ++ toString errorMessage))) mc,
             [AWsClose (s_relay s)])
        | Some false =>
            (close (resolve false s),
             collect (Collector.addRelayRejection (s_relay s) errorMessage) mc,
             [AWsClose (s_relay s)])
        end
      else (s, mc, [])
  end.

(** The handlers of one socket.  The runtime fires [open] once, on a
    connecting socket, dispatches a message only to a socket whose ready
    state is [OPEN], and has set the ready state to [CLOSED] when it fires
    [error] or [close]; [onmessage] and the five-second timer exist only
    once [onopen] has run, and the timer is never cleared, so that its
    callback runs even after the promise is settled. *)
Definition on_event (event : NostrEvent) (mc : option Collector.t)
           (s : sock) (e : socket_event)
  : sock * option Collector.t * list action :=
  match e with
  | EvOpen =>
      match s_ready s with
      | CONNECTING =>
          (set_timers (S (s_timers s)) (set_ready OPEN s), mc,
           [AWsSend (s_relay s) event])
      | _ => (s, mc, [])
      end
  | EvMessage parsed =>
      match s_ready s with
      | OPEN => onmessage mc s parsed
      | _ => (s, mc, [])
      end
  | EvTimeout =>
      match s_timers s with
      | O => (s, mc, [])
      | S n =>
          (close (resolve false (set_timers n s)),
           collect (Collector.addConnectionError (s_relay s)
                      "Timeout waiting for response") mc,
           [AWsClose (s_relay s)])
      end
  | EvError e =>
      (resolve false (set_ready CLOSED s),
       collect (Collector.addConnectionError (s_relay s)
                  ("WebSocket error: " ++ e)) mc,
       [])
  | EvClose =>
      (resolve false (set_ready CLOSED s), mc, [])
  end.

End Relay.

Import Relay.

(* ================================================================== *)
(** ** [publishToRelays] *)

(** The sockets of one call (an entry is [None] when [new WebSocket] threw
    and the relay's async function ended in its [catch]), the collector the caller
    passed, if any, and the actions performed so far. *)
Record pstate : Type := mkP {
  p_socks : list (option sock);
  p_coll : option Collector.t;
  p_trace : list action
}.

(** [relays.map(async (relay) => ...)] up to the first [await]: every
    socket is constructed, in list order, before any event is handled. *)
Fixpoint connect_all (ctor : string -> option string) (relays : list string)
         (mc : option Collector.t) : list (option sock) * option Collector.t :=
  match relays with
  | [] => ([], mc)
  | relay :: rest =>
      match ctor relay with
      | None =>
          let '(socks, mc') := connect_all ctor rest mc in
          (Some (new_socket relay) :: socks, mc')
      | Some e =>
          let '(socks, mc') :=
            connect_all ctor rest
              (collect (Collector.addConnectionError relay
                          ("Connection failed: " ++ e)) mc) in
          (None :: socks, mc')
      end
  end.

Fixpoint replace_nth {A : Type} (i : nat) (x : A) (l : list A) : list A :=
  match l, i with
  | [], _ => []
  | _ :: t, O => x :: t
  | h :: t, S j => h :: replace_nth j x t
  end.

(** The runtime hands event [e] to the socket of the [i]-th relay. *)
Definition deliver (event : NostrEvent) (i : nat) (e : socket_event)
           (ps : pstate) : pstate :=
  match nth_error (p_socks ps) i with
  | Some (Some s) =>
      let '(s', mc', acts) := on_event event (p_coll ps) s e in
      mkP (replace_nth i (Some s') (p_socks ps)) mc' (p_trace ps ++ acts)
  | _ => ps
  end.

Definition settled (o : option sock) : bool :=
  match o with
  | None => true
  | Some s => match s_resolved s with Some _ => true | None => false end
  end.

Definition accepted (o : option sock) : bool :=
  match o with
  | Some s => match s_resolved s with Some true => true | _ => false end
  | None => false
  end.

Definition all_settled (socks : list (option sock)) : bool :=
  forallb settled socks.

(** [await Promise.all(...)]: events are handled one after the other until
    every relay's async function has finished. *)
Fixpoint run_schedule (event : NostrEvent)
         (schedule : list (nat * socket_event)) (ps : pstate) : pstate :=
  match schedule with
  | [] => ps
  | (i, e) :: rest =>
      if all_settled (p_socks ps) then ps
      else run_schedule event rest (deliver event i e ps)
  end.

Definition successCount (socks : list (option sock)) : nat :=
  List.length (filter accepted socks).

Definition publish_state (ctor : string -> option string)
           (schedule : list (nat * socket_event))
           (event : NostrEvent) (relays : list string)
           (mc : option Collector.t) : pstate :=
  let '(socks, mc') := connect_all ctor relays mc in
  run_schedule event schedule (mkP socks mc' (map AWsConnect relays)).

(** [publishToRelays(event, relays, messageCollector?)].  [ctor relay] is
    [Some e] when [new WebSocket(relay)] throws [e]; [schedule] lists the
    socket events in the order the runtime delivers them, each with the
    position of its relay in [relays].  The result is [None] when the
    schedule ends while some promise is still pending.  Log output and the
    map [relayErrors], which only feeds the log, are left out; nothing in
    the body can reach the outer [catch], whose [return false] therefore
    has no counterpart here. *)
Definition publishToRelays (ctor : string -> option string)
           (schedule : list (nat * socket_event))
           (event : NostrEvent) (relays : list string)
           (mc : option Collector.t)
  : option bool * option Collector.t * list action :=
  let ps := publish_state ctor schedule event relays mc in
  (if all_settled (p_socks ps)
   then Some (Nat.ltb 0 (successCount (p_socks ps)))
   else None,
   p_coll ps, p_trace ps).

(* ================================================================== *)
(** ** Data of the [upload] command *)

Record FileEntry : Type := mkFile {
  f_path : string;
  f_sha256 : option string;
  f_size : Z;
  f_contentType : option string;
  f_event : option NostrEvent;
  f_data : option string
}.

Record Profile : Type := mkProfile {
  pr_name : option string;
  pr_about : option string;
  pr_picture : option string;
  pr_website : option string;
  pr_nip05 : option string;
  pr_lud16 : option string;
  pr_banner : option string
}.

Record ProjectData : Type := mkProject {
  pd_relays : list string;
  pd_servers : list string;
  pd_publishRelayList : bool;
  pd_publishServerList : bool;
  pd_bunkerPubkey : option string;
  pd_fallback : option string;
  pd_profile : option Profile
}.

Record ProjectContext : Type := mkContext {
  projectData : option ProjectData;
  privateKey : option string
}.

Record UploadCommandOptions : Type := mkOptions {
  force : bool;
  verbose : bool;
  purge : bool;
  servers : option string;
  relays : option string;
  privatekey : option string;
  bunker : option string;
  nbunksec : option string;
  concurrency : Z;
  fallback : option string;
  publishServerList : bool;
  publishRelayList : bool;
  publishProfile : bool;
  nonInteractive : bool
}.

(** The three implementations of the [Signer] interface the command can
    end up with. *)
Inductive Signer : Type :=
| PrivateKeySigner (key : string)
| NbunkSigner (nbunk : string)
| BunkerClient (url : string).

Record UploadResult : Type := mkResult {
  r_file : FileEntry;
  r_success : bool;
  r_eventPublished : bool;
  r_eventId : option string;
  r_error : option string
}.

Record Response : Type := mkResponse {
  ok : bool;
  status : Z
}.

(** A call that returns or throws. *)
Inductive result (A : Type) : Type :=
| Ok (a : A)
| Err (message : string).
Arguments Ok {A} a.
Arguments Err {A} message.

(** The runtime and the modules imported by [upload.ts].  Calls whose
    answer may change from one call to the next take the number of
    external calls made so far as their first argument.
    [String_match source text] is [text.match(/source/)] of the runtime's
    regular-expression engine: [None] for [null], otherwise the match
    followed by its capture groups. *)
Record env : Type := mkEnv {
  isInteractive : bool;
  readProjectFile : option ProjectData;
  setupProject : result ProjectContext;
  newPrivateKeySigner : string -> result string;
  importFromNbunk : string -> result string;
  createNip46ClientFromUrl : string -> result string;
  getNbunk : string -> option string;
  Input_prompt : result string;
  Confirm_prompt : result bool;
  copy : string -> string -> result unit;
  getLocalFiles : string -> result (list FileEntry * list string);
  listRemoteFiles : list string -> string -> result (list FileEntry);
  loadFileData : string -> FileEntry -> result FileEntry;
  processUploads :
    list FileEntry -> string -> list string -> Signer -> list string -> Z ->
    result (list UploadResult);
  fetch : nat -> string -> string -> option string -> result Response;
  response_text : nat -> result string;
  signEvent : nat -> Signer -> NostrEventTemplate -> result NostrEvent;
  Date_now : nat -> Z;
  newWebSocket : string -> option string;
  socket_schedule : nat -> list (nat * socket_event);
  btoa : string -> option string;
  JSON_stringify : NostrEvent -> string;
  JSON_stringify_profile : Profile -> string;
  String_match : string -> string -> option (list string)
}.

(** The three lists [compareFiles] returns. *)
Record Diff : Type := mkDiff {
  toTransfer : list FileEntry;
  existing : list FileEntry;
  toDelete : list FileEntry
}.

Definition same_hash (a b : option string) : bool :=
  match a, b with
  | Some x, Some y => String.eqb x y
  | _, _ => false
  end.

Definition same_file (l r : FileEntry) : bool :=
  String.eqb (f_path l) (f_path r) && same_hash (f_sha256 l) (f_sha256 r).

Definition same_path (r l : FileEntry) : bool :=
  String.eqb (f_path r) (f_path l).

(** Modelled from the spec: [compareFiles] of [lib/files.ts], which is not
    among the sources.  A local file is unchanged iff a remote entry has
    its path and its hash, is to be uploaded otherwise, and a remote entry
    is to be deleted iff no local file has its path. *)
Definition compareFiles (localFiles remoteFiles : list FileEntry) : Diff :=
  mkDiff
    (filter (fun l => negb (existsb (same_file l) remoteFiles)) localFiles)
    (filter (fun l => existsb (same_file l) remoteFiles) localFiles)
    (filter (fun r => negb (existsb (same_path r) localFiles)) remoteFiles).

(* ================================================================== *)
(** ** The monad of the command *)

Record state : Type := mkState {
  st_tick : nat;
  st_trace : list action;
  st_collector : Collector.t
}.

Definition initial_state : state := mkState 0 [] [].

(** How a computation ends: with a value, with [Deno.exit(code)], with an
    exception, or never (a promise that stays pending). *)
Inductive res (A : Type) : Type :=
| Val (a : A)
| Exit (code : Z)
| Throw (message : string)
| Hang.
Arguments Val {A} a.
Arguments Exit {A} code.
Arguments Throw {A} message.
Arguments Hang {A}.

Definition M (A : Type) : Type := state -> res A * state.

Definition ret {A : Type} (a : A) : M A := fun st => (Val a, st).

Definition bind {A B : Type} (m : M A) (k : A -> M B) : M B :=
  fun st =>
    match m st with
    | (Val a, st') => k a st'
    | (Exit c, st') => (Exit c, st')
    | (Throw e, st') => (Throw e, st')
    | (Hang, st') => (Hang, st')
    end.

Declare Scope cmd_scope.
Delimit Scope cmd_scope with cmd.
Notation "x <- c1 ;; c2" := (bind c1 (fun x => c2))
  (at level 61, c1 at next level, right associativity) : cmd_scope.
Notation "' pat <- c1 ;; c2" := (bind c1 (fun x => let 'pat := x in c2))
  (at level 61, pat pattern, c1 at next level, right associativity) : cmd_scope.
Notation "c1 ;; c2" := (bind c1 (fun _ => c2))
  (at level 61, right associativity) : cmd_scope.
Local Open Scope cmd_scope.

(** [Deno.exit(code)] *)
Definition exit {A : Type} (code : Z) : M A := fun st => (Exit code, st).

Definition throw {A : Type} (message : string) : M A :=
  fun st => (Throw message, st).

(** [try { m } catch (error) { handler(error) }] *)
Definition try_catch {A : Type} (m : M A) (handler : string -> M A) : M A :=
  fun st =>
    match m st with
    | (Throw e, st') => handler e st'
    | r => r
    end.

Definition lift {A : Type} (r : result A) : M A :=
  match r with
  | Ok a => ret a
  | Err e => throw e
  end.

Definition emit (a : action) : M unit :=
  fun st => (Val tt, mkState (st_tick st) (st_trace st ++ [a]) (st_collector st)).

Definition tick : M nat :=
  fun st => (Val (st_tick st),
             mkState (S (st_tick st)) (st_trace st) (st_collector st)).

Definition collecting (f : Collector.t -> Collector.t) : M unit :=
  fun st => (Val tt, mkState (st_tick st) (st_trace st) (f (st_collector st))).

(** [o ? yes(o) : no] on an optional string. *)
Definition with_truthy {A : Type} (o : option string)
           (yes : string -> M A) (no : M A) : M A :=
  match o with
  | Some s => if truthy_string s then yes s else no
  | None => no
  end.

(** The exit status of the process: [Deno.exit]'s argument, or 0 when the
    command returns and the program ends by itself. *)
Definition exit_code {A : Type} (r : res A) : option Z :=
  match r with
  | Val _ => Some 0%Z
  | Exit c => Some c
  | Throw _ => Some 1%Z
  | Hang => None
  end.

(* ================================================================== *)
(** ** [uploadCommand] *)

Section Command.

Variable E : env.

Definition now : M Z :=
  t <- tick ;; ret (Date_now E t).

(** [Math.floor(Date.now() / 1000)] *)
Definition seconds (ms : Z) : Z := (ms / 1000)%Z.

(** [await signer.signEvent(template)] *)
Definition sign (signer : Signer) (template : NostrEventTemplate) : M NostrEvent :=
  t <- tick ;;
  emit (ASignEvent template) ;;
  lift (signEvent E t signer template).

(** [await publishToRelays(event, relays, messageCollector)] as the command
    calls it, with the collector of the run.  The state that follows is
    the state at the moment the call returns: its trace holds what the
    call did up to then and its collector what the call had filed by
    then.  What the handlers of the call do later, when the runtime
    delivers further events to its sockets, is [deliver_all]; the command
    does not wait for it, and from its first call of [publishToRelays]
    on (line 796) it only passes the collector on and never reads it. *)
Definition publish (event : NostrEvent) (relays : list string) : M bool :=
  fun st =>
    let '(r, mc, acts) :=
      publishToRelays (newWebSocket E) (socket_schedule E (st_tick st))
                      event relays (Some (st_collector st)) in
    (match r with Some b => Val b | None => Hang end,
     mkState (S (st_tick st))
             (st_trace st ++ APublish event relays :: acts)
             (match mc with Some c => c | None => st_collector st end)).

(** [server.endsWith("/") ? server : `${server}/`] *)
Definition serverUrl (server : string) : string :=
  if endsWith server "/" then server else (server ++ "/")%string.

Definition default_project : ProjectData :=
  mkProject [] [] false false None None None.

Definition getProjectContext (options : UploadCommandOptions) : M ProjectContext :=
  if nonInteractive options then
    ret (mkContext
           (Some (match readProjectFile E with
                  | Some pd => pd
                  | None => default_project
                  end))
           None)
  else lift (setupProject E).

Definition requireProjectData (ctx : ProjectContext) : M ProjectData :=
  match projectData ctx with
  | Some pd => ret pd
  | None =>
      emit (AConsoleError
              "No project configuration found. Please run the interactive setup first.") ;;
      exit 1
  end.

Definition usePrivateKey (key : string) : M (Signer * string) :=
  pk <- lift (newPrivateKeySigner E key) ;;
  ret (PrivateKeySigner key, pk).

Definition useNbunk (nbunk : string) : M (Signer * string) :=
  pk <- lift (importFromNbunk E nbunk) ;;
  ret (NbunkSigner nbunk, pk).

Definition useBunkerUrl (url : string) : M (Signer * string) :=
  pk <- lift (createNip46ClientFromUrl E url) ;;
  ret (BunkerClient url, pk).

Definition promptForBunker : M (Signer * string) :=
  bunkerUrl <- lift (Input_prompt E) ;;
  useBunkerUrl bunkerUrl.

(** The chain of [if]/[else if] that picks the signer. *)
Definition selectSigner (options : UploadCommandOptions)
           (ctx : ProjectContext) (pd : ProjectData) : M (Signer * string) :=
  with_truthy (privatekey options) usePrivateKey
  (with_truthy (nbunksec options)
     (fun n =>
        try_catch (useNbunk n)
          (fun errorMessage =>
             emit (AConsoleError ("Failed to use nbunksec: " ++ errorMessage)) ;;
             exit 1))
  (with_truthy (bunker options) useBunkerUrl
  (with_truthy (privateKey ctx) usePrivateKey
  (with_truthy (pd_bunkerPubkey pd)
     (fun bunkerPubkey =>
        with_truthy (getNbunk E bunkerPubkey)
          (fun nbunkString =>
             try_catch (useNbunk nbunkString) (fun _ => promptForBunker))
          promptForBunker)
     (emit (AConsoleError
              "No private key or bunker pubkey available. Please provide a private key or configure a bunker.") ;;
      exit 1))))).

Definition copyFallback (fileOrFolder : string)
           (options : UploadCommandOptions) (pd : ProjectData) : M unit :=
  with_truthy (or_else (fallback options) (pd_fallback pd))
    (fun fallbackFor404 =>
       emit (ACopyFallback fileOrFolder fallbackFor404) ;;
       lift (copy E fileOrFolder fallbackFor404))
    (ret tt).

Definition scanLocalFiles (fileOrFolder : string) : M (list FileEntry) :=
  '(localFiles, ignoredFilePaths) <- lift (getLocalFiles E fileOrFolder) ;;
  match localFiles, ignoredFilePaths with
  | [], _ :: _ =>
      emit (AConsoleLog
              "All local files were ignored by .nsite-ignore. Nothing to upload.") ;;
      exit 0
  | [], [] =>
      emit (AConsoleError "No files found in local source folder") ;;
      exit 1
  | _ :: _, _ => ret localFiles
  end.

(** What the command has established when it starts comparing. *)
Record prepared : Type := mkPrepared {
  p_project : ProjectData;
  p_signer : Signer;
  p_publisherPubkey : string;
  p_relays : list string;
  p_servers : list string;
  p_localFiles : list FileEntry;
  p_remoteFiles : list FileEntry
}.

(** Lines 92-355: configuration, signer, relay and server lists, fallback
    copy, local scan, remote fetch. *)
Definition prepare (fileOrFolder : string) (options : UploadCommandOptions)
  : M prepared :=
  ctx <- getProjectContext options ;;
  pd <- requireProjectData ctx ;;
  '(signer, publisherPubkey) <- selectSigner options ctx pd ;;
  let relays :=
    match relays options with
    | Some r => if truthy_string r then split "," r else pd_relays pd
    | None => pd_relays pd
    end in
  let servers :=
    match servers options with
    | Some s => if truthy_string s then split "," s else pd_servers pd
    | None => pd_servers pd
    end in
  copyFallback fileOrFolder options pd ;;
  localFiles <- scanLocalFiles fileOrFolder ;;
  remoteFiles <- lift (listRemoteFiles E relays publisherPubkey) ;;
  ret (mkPrepared pd signer publisherPubkey relays servers localFiles remoteFiles).

Definition ambiguity_message : string :=
  "Files may already exist on servers. Use --force to override.".

(** The [for (const server of servers)] loop of the HEAD probe; returns
    [alreadyExists] and the message set inside the loop. *)
Fixpoint probeServers (sha : string) (servers : list string)
  : M (bool * string) :=
  match servers with
  | [] => ret (false, "")
  | server :: rest =>
      t <- tick ;;
      emit (AFetch "HEAD" (serverUrl server ++ sha) None) ;;
      match fetch E t "HEAD" (serverUrl server ++ sha) None with
      | Ok response =>
          if ok response then
            (if isInteractive E then ret tt
             else
               emit (AConsoleLog
                       ("Files may already exist on " ++ server
                          ++ " but relay data couldn't be retrieved.")) ;;
               emit (AConsoleLog "To force re-upload, use --force flag.")) ;;
            ret (true, if isInteractive E then ambiguity_message else "")
          else probeServers sha rest
      | Err _ => probeServers sha rest
      end
  end.

(** Lines 357-392: computes [fileComparisonMessage]. *)
Definition headProbe (options : UploadCommandOptions) (servers : list string)
           (localFiles remoteFiles : list FileEntry) : M string :=
  match remoteFiles, localFiles with
  | [], checkFilePath :: _ =>
      with_truthy (f_sha256 checkFilePath)
        (fun sha =>
           '(alreadyExists, message) <- probeServers sha servers ;;
           if alreadyExists && negb (force options)
           then ret ambiguity_message
           else ret message)
        (ret "")
  | _, _ => ret ""
  end.

Definition nothing_to_do (d : Diff) : M (list FileEntry) :=
  match existing d with
  | [] => ret tt
  | _ :: _ =>
      emit (AConsoleLog
              (if isInteractive E
               then "files already up-to-date. Nothing to do."
               else "files are already online and up-to-date. No need to re-publish."))
  end ;;
  emit (AConsoleLog
          (if isInteractive E
           then "Upload process completed. No changes needed."
           else "Nothing to do. Exiting.")) ;;
  exit 0.

(** Lines 414-477: decides whether the run goes on; returns the final
    [toTransfer]. *)
Definition decide (options : UploadCommandOptions) (remoteFiles : list FileEntry)
           (d : Diff) (fileComparisonMessage : string) : M (list FileEntry) :=
  if (match toTransfer d with [] => true | _ => false end
      && (negb (purge options)
          || match toDelete d with [] => true | _ => false end))
     || (match remoteFiles with [] => true | _ => false end
         && truthy_string fileComparisonMessage
         && negb (force options))
  then
    emit (AConsoleLog
            (if isInteractive E
             then "No changes detected. Use --force to upload all files anyway."
             else "No files to upload or delete. Use --force to upload all files.")) ;;
    if negb (nonInteractive options) then
      forceUpload <- lift (Confirm_prompt E) ;;
      if forceUpload
      then emit (AConsoleLog "Forcing upload of all files...") ;;
           ret (toTransfer d ++ existing d)
      else nothing_to_do d
    else if force options then
      emit (AConsoleLog "Forcing upload of all files...") ;;
      ret (toTransfer d ++ existing d)
    else nothing_to_do d
  else ret (toTransfer d).

(** Lines 394-477: prints the comparison, then decides. *)
Definition checkChanges (options : UploadCommandOptions) (remoteFiles : list FileEntry)
           (d : Diff) (fileComparisonMessage : string) : M (list FileEntry) :=
  (if truthy_string fileComparisonMessage
   then emit (AConsoleLog fileComparisonMessage) else ret tt) ;;
  decide options remoteFiles d fileComparisonMessage.

(** The loop that loads the data of each file to transfer. *)
Fixpoint loadFiles (fileOrFolder : string) (files : list FileEntry)
  : M (list FileEntry) :=
  match files with
  | [] => ret []
  | file :: rest =>
      emit (ALoadFileData (f_path file)) ;;
      match loadFileData E fileOrFolder file with
      | Ok fileWithData =>
          loaded <- loadFiles fileOrFolder rest ;;
          ret (fileWithData :: loaded)
      | Err errorMessage =>
          emit (AConsoleError ("Failed to load file " ++ f_path file ++ ": "
                                 ++ errorMessage)) ;;
          collecting (Collector.addFileError (f_path file) errorMessage) ;;
          loadFiles fileOrFolder rest
      end
  end.

Definition count_success (results : list UploadResult) : nat :=
  List.length (filter r_success results).

(** [result.error || "Unknown error"] *)
Definition errorOf (result : UploadResult) : string :=
  match r_error result with
  | Some e => if truthy_string e then e else "Unknown error"
  | None => "Unknown error"
  end.

(** [errorMessage.split('\n')[0]] *)
Definition firstLine (text : string) : string :=
  hd "" (split (ascii_of_nat 10) text).

(** Lines 690-714: the text under which a failed result is grouped and
    filed. *)
Definition groupedError (result : UploadResult) : string :=
  let e0 := errorOf result in
  let e1 :=
    if includes e0 "<!DOCTYPE html>" then
      match String_match E "<pre>([^<]+)<\/pre>" e0 with
      | Some (_ :: group :: _) =>
          if truthy_string group then group
          else if includes (firstLine e0) "<!DOCTYPE html>"
               then "Server returned HTML error page"
               else firstLine e0
      | _ =>
          if includes (firstLine e0) "<!DOCTYPE html>"
          then "Server returned HTML error page"
          else firstLine e0
      end
    else e0 in
  let e2 :=
    if includes e1 "https://" then
      match String_match E "https:\/\/[^\/:\s]+" e1 with
      | Some (server :: _) => ("Failed to upload to " ++ server)%string
      | Some [] => "Failed to upload to undefined"
      | None => e1
      end
    else e1 in
  if includes e2 "Failed to upload to any server"
  then "Failed to upload to any server"
  else e2.

(** Lines 539-549, the interactive summary: what one result adds to the
    collector. *)
Definition recordSuccess (c : Collector.t) (result : UploadResult)
  : Collector.t :=
  if r_success result then
    let c1 :=
      match f_sha256 (r_file result) with
      | Some sha =>
          if truthy_string sha
          then Collector.addFileSuccess (f_path (r_file result)) sha c
          else c
      | None => c
      end in
    match r_eventId result with
    | Some eventId =>
        if truthy_string eventId
        then Collector.addEventSuccess (f_path (r_file result)) eventId c1
        else c1
    | None => c1
    end
  else c.

(** Lines 685-721, the non-interactive summary: every failed result is
    filed under its path with its grouped error. *)
Definition recordFailure (c : Collector.t) (result : UploadResult)
  : Collector.t :=
  if r_success result then c
  else Collector.addFileError (f_path (r_file result)) (groupedError result) c.

(** What the summary of lines 517-758 does to the collector. *)
Definition recordResults (results : list UploadResult) (c : Collector.t)
  : Collector.t :=
  if isInteractive E then fold_left recordSuccess results c
  else if Nat.ltb (count_success results) (List.length results)
       then fold_left recordFailure results c
       else c.

(** Lines 494-759: what follows the loading loop.  Of the summary after
    [processUploads] the console output is rendered as one line; what it
    files in the collector is [recordResults]. *)
Definition uploadLoaded (fileOrFolder : string) (options : UploadCommandOptions)
           (p : prepared) (filesToUpload : list FileEntry) : M unit :=
  match filesToUpload with
  | [] =>
      emit (AConsoleError "No files could be loaded for upload.") ;;
      exit 1
  | _ :: _ =>
      emit (AProcessUploads (map f_path filesToUpload)
                            (p_servers p) (p_relays p)) ;;
      results <- lift (processUploads E filesToUpload fileOrFolder
                         (p_servers p) (p_signer p) (p_relays p)
                         (concurrency options)) ;;
      emit (AConsoleLog
              ("Uploaded "
                 ++ string_of_Z (Z.of_nat (count_success results)) ++ "/"
                 ++ string_of_Z (Z.of_nat (List.length results))
                 ++ " files")) ;;
      collecting (recordResults results)
  end.

(** Lines 479-759. *)
Definition uploadFiles (fileOrFolder : string) (options : UploadCommandOptions)
           (p : prepared) (toTransfer : list FileEntry) : M unit :=
  match toTransfer with
  | [] => ret tt
  | _ :: _ =>
      filesToUpload <- loadFiles fileOrFolder toTransfer ;;
      uploadLoaded fileOrFolder options p filesToUpload
  end.

(** The template of the kind-5 record of the purge loop; [ms1] and [ms2]
    are the two readings of [Date.now()] in the object literal. *)
Definition deletionEventTemplate (ms1 ms2 : Z) (path eventId : string)
  : NostrEventTemplate :=
  mkTemplate 5 (seconds ms1)
    ("nsyte: delete file event: " ++ path)
    [ ["e"; eventId];
      ["expiration"; string_of_Z (seconds ms2 + 60 * 2)] ].

(** The template of the authorization record of a DELETE request. *)
Definition deleteAuthTemplate (ms1 ms2 : Z) (sha path : string)
  : NostrEventTemplate :=
  mkTemplate 24242 (seconds ms1)
    ("nsyte: delete file: " ++ sha ++ " | " ++ path)
    [ ["t"; "delete"];
      ["x"; sha];
      ["expiration"; string_of_Z (seconds ms2 + 60 * 2)] ].

(** The body of [for (const server of servers)] in the purge loop, with
    its [try]/[catch]. *)
Definition deleteFromServer (signer : Signer) (sha path server : string)
  : M unit :=
  try_catch
    (ms1 <- now ;;
     ms2 <- now ;;
     deleteAuth <- sign signer (deleteAuthTemplate ms1 ms2 sha path) ;;
     match btoa E (JSON_stringify E deleteAuth) with
     | None => throw "InvalidCharacterError"
     | Some encoded =>
         t <- tick ;;
         emit (AFetch "DELETE" (serverUrl server ++ sha)
                      (Some ("Nostr " ++ encoded)%string)) ;;
         response <- lift (fetch E t "DELETE" (serverUrl server ++ sha)
                             (Some ("Nostr " ++ encoded)%string)) ;;
         if ok response then ret tt
         else (t' <- tick ;; _ <- lift (response_text E t') ;; ret tt)
     end)
    (fun _ => ret tt).

Fixpoint deleteFromServers (signer : Signer) (sha path : string)
         (servers : list string) : M unit :=
  match servers with
  | [] => ret tt
  | server :: rest =>
      deleteFromServer signer sha path server ;;
      deleteFromServers signer sha path rest
  end.

(** One iteration of [for (const file of toDelete)]; the pair counts
    [completed] and [failed]. *)
Definition purgeFile (signer : Signer) (relays servers : list string)
           (file : FileEntry) (counts : nat * nat) : M (nat * nat) :=
  try_catch
    (match f_event file with
     | None => ret (fst counts, S (snd counts))
     | Some event =>
         with_truthy (f_sha256 file)
           (fun sha =>
              ms1 <- now ;;
              ms2 <- now ;;
              deletionEvent <-
                sign signer
                  (deletionEventTemplate ms1 ms2 (f_path file) (ev_id event)) ;;
              _ <- publish deletionEvent relays ;;
              deleteFromServers signer sha (f_path file) servers ;;
              ret (S (fst counts), snd counts))
           (ret (fst counts, S (snd counts)))
     end)
    (fun _ => ret (fst counts, S (snd counts))).

Fixpoint purgeLoop (signer : Signer) (relays servers : list string)
         (files : list FileEntry) (counts : nat * nat) : M (nat * nat) :=
  match files with
  | [] => ret counts
  | file :: rest =>
      counts' <- purgeFile signer relays servers file counts ;;
      purgeLoop signer relays servers rest counts'
  end.

(** Lines 761-851. *)
Definition purgeFiles (options : UploadCommandOptions) (p : prepared)
           (toDelete : list FileEntry) : M unit :=
  match toDelete with
  | [] => ret tt
  | _ :: _ =>
      if purge options then
        emit (AConsoleLog "Deleting files from relays and servers...") ;;
        counts <- purgeLoop (p_signer p) (p_relays p) (p_servers p)
                            toDelete (0, 0) ;;
        emit (ADeleteProgress (Nat.eqb (snd counts) 0) (fst counts)
                              (List.length toDelete) (snd counts))
      else ret tt
  end.

(** Sign a template and hand the record to the relays, inside the
    [try]/[catch] each extra record has. *)
Definition publishExtra (p : prepared) (label : string)
           (template : Z -> NostrEventTemplate) : M unit :=
  try_catch
    (ms <- now ;;
     event <- sign (p_signer p) (template (seconds ms)) ;;
     published <- publish event (p_relays p) ;;
     emit (AConsoleLog
             (if published then (label ++ " published")%string
              else (label ++ " signed but may not have been published to all relays")%string)))
    (fun errorMessage =>
       emit (AConsoleError ("Failed to publish " ++ label ++ ": " ++ errorMessage))).

(** Lines 853-955. *)
Definition publishExtras (options : UploadCommandOptions) (p : prepared)
  : M unit :=
  if publishRelayList options || publishServerList options
     || publishProfile options
  then
    emit (AConsoleLog "Publishing additional nostr events...") ;;
    (if publishRelayList options then
       publishExtra p "relay list"
         (fun created =>
            mkTemplate 10002 created ""
              (map (fun url => ["r"; url]) (p_relays p) ++ [["client"; "nsyte"]]))
     else ret tt) ;;
    (if publishServerList options then
       publishExtra p "server list"
         (fun created =>
            mkTemplate 10063 created ""
              (map (fun url => ["server"; url]) (p_servers p)
                 ++ [["client"; "nsyte"]]))
     else ret tt) ;;
    (if publishProfile options then
       match pd_profile (p_project p) with
       | Some profile =>
           publishExtra p "profile"
             (fun created =>
                mkTemplate 0 created (JSON_stringify_profile E profile)
                  [["client"; "nsyte"]])
       | None => ret tt
       end
     else ret tt)
  else ret tt.

(** Everything after the remote fetch, for a given final [toTransfer]. *)
Definition carry_out (fileOrFolder : string) (options : UploadCommandOptions)
           (p : prepared) (toTransfer toDelete : list FileEntry) : M unit :=
  uploadFiles fileOrFolder options p toTransfer ;;
  purgeFiles options p toDelete ;;
  publishExtras options p ;;
  emit (AConsoleLog "The website is now available on any nsite gateway").

Definition reconcile (fileOrFolder : string) (options : UploadCommandOptions)
           (p : prepared) : M unit :=
  fileComparisonMessage <-
    headProbe options (p_servers p) (p_localFiles p) (p_remoteFiles p) ;;
  let d := compareFiles (p_localFiles p) (p_remoteFiles p) in
  toTransfer <- checkChanges options (p_remoteFiles p) d fileComparisonMessage ;;
  carry_out fileOrFolder options p toTransfer (toDelete d).

(** The outermost [catch]: it reports the error and exits with status 1. *)
Definition report_failure (errorMessage : string) : M unit :=
  emit (AConsoleError ("Failed to upload: " ++ errorMessage)) ;;
  exit 1.

(** [uploadCommand(fileOrFolder, options)] *)
Definition uploadCommand (fileOrFolder : string)
           (options : UploadCommandOptions) : M unit :=
  try_catch
    (p <- prepare fileOrFolder options ;;
     reconcile fileOrFolder options p)
    report_failure.

End Command.

(* ================================================================== *)
(** ** Notions used to state the properties *)




Definition is_connect (a : action) : bool :=
  match a with
  | AWsConnect _ => true
  | _ => false
  end.

Definition is_socket_action (a : action) : bool :=
  match a with
  | AWsConnect _ | AWsSend _ _ | AWsClose _ => true
  | _ => false
  end.

(** The address of the [i]-th relay, when a socket exists for it. *)
Definition relay_at (i : nat) (ps : pstate) : option string :=
  match nth_error (p_socks ps) i with
  | Some (Some s) => Some (s_relay s)
  | _ => None
  end.

(** The entry of [p_socks] that [connect_all] creates for a relay. *)
Definition socket_for (ctor : string -> option string) (relay : string)
  : option sock :=
  match ctor relay with
  | None => Some (new_socket relay)
  | Some _ => None
  end.

Definition count {A : Type} (f : A -> bool) (l : list A) : nat :=
  List.length (filter f l).

(** Sample data for the examples. *)
Definition sample_event : NostrEvent :=
  mkEvent "aa11" "pk" 1700000000 5 [["e"; "0001"]] "" "sig".

Definition sample_relay : string := "wss://relay.example".

Definition ok_frame (eventId : string) (flag : bool) (message : string) : json :=
  JArr [JStr "OK"; JStr eventId; JBool flag; JStr message].

Definition no_ctor_error : string -> option string := fun _ => None.

(** The actions of one pass through the body of the server loop of the
    purge, entered when [t] external calls have been made: the clock is
    read twice, the authorization record is signed, and the DELETE request
    follows when signing and encoding succeeded. *)
Inductive delete_segment (E : env) (signer : Signer) (sha path server : string)
  : list action -> Prop :=
| DS_unsent (t : nat) :
    delete_segment E signer sha path server
      [ASignEvent (deleteAuthTemplate (Date_now E t) (Date_now E (S t)) sha path)]
| DS_sent (t : nat) (deleteAuth : NostrEvent) (encoded : string) :
    signEvent E (S (S t)) signer
      (deleteAuthTemplate (Date_now E t) (Date_now E (S t)) sha path)
    = Ok deleteAuth ->
    btoa E (JSON_stringify E deleteAuth) = Some encoded ->
    delete_segment E signer sha path server
      [ASignEvent (deleteAuthTemplate (Date_now E t) (Date_now E (S t)) sha path);
       AFetch "DELETE" (serverUrl server ++ sha) (Some ("Nostr " ++ encoded)%string)].

(** The actions of one iteration of the purge loop. *)
Inductive purge_segment (E : env) (signer : Signer)
          (relays servers : list string) (file : FileEntry)
  : list action -> Prop :=
| PS_skipped :
    purge_segment E signer relays servers file []
| PS_unsigned (event : NostrEvent) (t : nat) :
    f_event file = Some event ->
    purge_segment E signer relays servers file
      [ASignEvent (deletionEventTemplate (Date_now E t) (Date_now E (S t))
                     (f_path file) (ev_id event))]
| PS_published (event : NostrEvent) (sha : string) (t : nat)
               (deletionEvent : NostrEvent)
               (ws : list action) (segments : list (list action)) :
    f_event file = Some event ->
    f_sha256 file = Some sha ->
    signEvent E (S (S t)) signer
      (deletionEventTemplate (Date_now E t) (Date_now E (S t))
         (f_path file) (ev_id event))
    = Ok deletionEvent ->
    Forall (fun a => is_socket_action a = true) ws ->
    Forall (fun seg => exists server,
                In server servers
                /\ delete_segment E signer sha (f_path file) server seg)
           segments ->
    purge_segment E signer relays servers file
      (ASignEvent (deletionEventTemplate (Date_now E t) (Date_now E (S t))
                     (f_path file) (ev_id event))
         :: APublish deletionEvent relays :: ws ++ List.concat segments).

Definition is_publish (a : action) : bool :=
  match a with
  | APublish _ _ => true
  | _ => false
  end.

(** Positions in a trace. *)
Fixpoint position (f : action -> bool) (tr : list action) : option nat :=
  match tr with
  | [] => None
  | a :: rest =>
      if f a then Some 0 else option_map S (position f rest)
  end.

Definition is_delete_request (sha : string) (a : action) : bool :=
  match a with
  | AFetch m url _ => String.eqb m "DELETE" && endsWith url sha
  | _ => false
  end.

Definition publishes_deletion_of (eventId : string) (a : action) : bool :=
  match a with
  | APublish event _ =>
      Z.eqb (ev_kind event) 5
      && existsb (fun tag => match tag with
                             | [k; v] => String.eqb k "e" && String.eqb v eventId
                             | _ => false
                             end) (ev_tags event)
  | _ => false
  end.

Definition is_transfer (a : action) : bool :=
  match a with
  | AProcessUploads _ _ _ | ASignEvent _ | APublish _ _
  | AWsConnect _ | AWsSend _ _ | AWsClose _ | ADeleteProgress _ _ _ _ => true
  | AFetch m _ _ => negb (String.eqb m "HEAD")
  | _ => false
  end.

(** A runtime for the examples: one relay that accepts what it is sent,
    one server, a signer that fills in the template. *)
Definition sample_project : ProjectData :=
  mkProject [sample_relay] ["https://blossom.example"] false false None None None.

Definition sample_sign (t : nat) (_ : Signer) (template : NostrEventTemplate)
  : result NostrEvent :=
  Ok (mkEvent ("id" ++ string_of_Z (Z.of_nat t)) "pk"
              (t_created_at template) (t_kind template) (t_tags template)
              (t_content template) "sig").

Definition local_file (path sha : string) : FileEntry :=
  mkFile path (Some sha) 10 (Some "text/html") None None.

Definition remote_file (path sha eventId : string) : FileEntry :=
  mkFile path (Some sha) 10 None
         (Some (mkEvent eventId "pk" 1690000000 34128
                        [["d"; path]; ["x"; sha]] "" "sig"))
         None.

Definition sample_env (interactive confirm head_ok upload_ok : bool)
           (localFiles remoteFiles : list FileEntry) : env :=
  mkEnv interactive
        (Some sample_project)
        (Ok (mkContext (Some sample_project) None))
        (fun _ => Ok "pk")
        (fun _ => Err "bunker unreachable")
        (fun _ => Err "bunker unreachable")
        (fun _ => None)
        (Err "no terminal")
        (Ok confirm)
        (fun _ _ => Ok tt)
        (fun _ => Ok (localFiles, []))
        (fun _ _ => Ok remoteFiles)
        (fun _ file => Ok file)
        (fun files _ _ _ _ _ =>
           Ok (map (fun file =>
                      mkResult file upload_ok upload_ok None
                               (if upload_ok then None
                                else Some "Failed to upload to any server"))
                   files))
        (fun _ method _ _ =>
           Ok (mkResponse (if String.eqb method "HEAD" then head_ok else true) 200))
        (fun _ => Ok "")
        sample_sign
        (fun t => 1700000000000 + Z.of_nat t)%Z
        (fun _ => None)
        (fun _ => [(0, EvOpen);
                   (0, EvMessage (Some (ok_frame "any" true "")));
                   (0, EvClose)])
        (fun text => Some text)
        ev_id
        (fun _ => "{}")
        (fun _ _ => None).

Definition sample_options (force_flag purge_flag non_interactive : bool)
  : UploadCommandOptions :=
  mkOptions force_flag false purge_flag None None (Some "nsec1") None None 4
            None false false false non_interactive.

(** [st'] is [st] after actions none of which transfers, signs, publishes
    or deletes anything. *)
Definition extends_quietly (st st' : state) : Prop :=
  exists added,
    st_trace st' = st_trace st ++ added
    /\ Forall (fun a => is_transfer a = false) added.

Definition quiet {A : Type} (m : M A) : Prop :=
  forall st, extends_quietly st (snd (m st)).

(** The statuses [Deno.exit] is called with. *)
Definition exits_0_or_1 {A : Type} (m : M A) : Prop :=
  forall st, match fst (m st) with
             | Exit c => c = 0%Z \/ c = 1%Z
             | _ => True
             end.

(** A computation that neither throws nor exits. *)
Definition completes {A : Type} (m : M A) : Prop :=
  forall st, match fst (m st) with
             | Val _ | Hang => True
             | Exit _ | Throw _ => False
             end.

(** Runs used in the examples: the site has one page; the relays either
    know it already or return nothing. *)
Definition index_page : FileEntry := local_file "/index.html" "c0ffee".

Definition index_announced : FileEntry :=
  remote_file "/index.html" "c0ffee" "e1".

Definition sample_prepared (remoteFiles : list FileEntry) : prepared :=
  mkPrepared sample_project (PrivateKeySigner "nsec1") "pk"
             [sample_relay] ["https://blossom.example"]
             [index_page] remoteFiles.

(** On a socket that is still connecting or open the promise is pending. *)
Definition pending_while_open (s : sock) : Prop :=
  match s_ready s with
  | CONNECTING | OPEN => s_resolved s = None
  | CLOSING | CLOSED => True
  end.

(** The reason recorded for a rejection whose fourth element is [msg]. *)
Definition recorded_reason (msg : string) : string :=
  if String.eqb msg "" then "Unknown relay error"
  else if includes msg "rate-limit" || includes msg "noting too much"
       then "Rate limited: " ++ msg
       else msg.

(* ================================================================== *)
(** ** The per-server statistics of the upload summary *)

(** The counters kept per server. *)
Record ServerStats : Type := mkStats {
  success : nat;
  total : nat
}.

(** A [Map<string, V>]: keys in insertion order, each key once. *)
Fixpoint map_get {V : Type} (key : string) (m : list (string * V)) : option V :=
  match m with
  | [] => None
  | (k, v) :: rest => if String.eqb k key then Some v else map_get key rest
  end.

(** [m.set(key, value)]: replaces the value of a key that is present,
    appends the key otherwise. *)
Fixpoint map_set {V : Type} (key : string) (value : V) (m : list (string * V))
  : list (string * V) :=
  match m with
  | [] => [(key, value)]
  | (k, v) :: rest =>
      if String.eqb k key then (k, value) :: rest
      else (k, v) :: map_set key value rest
  end.

Section ServerResults.

(** [result.serverResults] as [Object.entries] lists it: the servers the
    upload of the file was attempted on, each with its [success] flag.  The
    field belongs to the results of [processUploads]. *)
Variable serverResults : UploadResult -> list (string * bool).

(** [for (const server of servers) serverResults.set(server, {success: 0,
    total: 0})], lines 605-607 and 656-658. *)
Definition initServerStats (servers : list string)
  : list (string * ServerStats) :=
  fold_left (fun m server => map_set server (mkStats 0 0) m) servers [].

(** The body of the loop over [Object.entries(result.serverResults)]. *)
Definition tallyEntry (m : list (string * ServerStats))
           (entry : string * bool) : list (string * ServerStats) :=
  match map_get (fst entry) m with
  | Some stats =>
      map_set (fst entry)
              (mkStats (if snd entry then S (success stats) else success stats)
                       (S (total stats)))
              m
  | None => m
  end.

(** The body of [for (const result of results)]. *)
Definition tallyResult (m : list (string * ServerStats)) (result : UploadResult)
  : list (string * ServerStats) :=
  if r_success result then fold_left tallyEntry (serverResults result) m
  else m.

(** Lines 603-621 and 654-672: the statistics printed per server. *)
Definition serverStats (servers : list string) (results : list UploadResult)
  : list (string * ServerStats) :=
  fold_left tallyResult results (initServerStats servers).

(** How often a successful result lists [server], and how often with a
    success. *)
Definition attempts_on (server : string) (result : UploadResult) : nat :=
  if r_success result
  then List.length (filter (fun entry => String.eqb (fst entry) server)
                           (serverResults result))
  else 0.

Definition successes_on (server : string) (result : UploadResult) : nat :=
  if r_success result
  then List.length (filter (fun entry => String.eqb (fst entry) server
                                         && snd entry)
                           (serverResults result))
  else 0.

End ServerResults.

Definition sum_over {A : Type} (f : A -> nat) (l : list A) : nat :=
  fold_right (fun x n => f x + n) 0 l.

(** The actions that hand a template to the signer or a record to
    [publishToRelays]. *)
Definition is_record_action (a : action) : bool :=
  match a with
  | ASignEvent _ | APublish _ _ => true
  | _ => false
  end.

(** A template without its time stamp. *)
Definition template_shape (t : NostrEventTemplate)
  : Z * string * list (list string) :=
  (t_kind t, t_content t, t_tags t).

(** The additional records the options ask for: kind, content and tags. *)
Definition requested_extras (E : env) (options : UploadCommandOptions)
           (p : prepared) : list (Z * string * list (list string)) :=
  (if publishRelayList options
   then [(10002%Z, "",
          map (fun url => ["r"; url]) (p_relays p) ++ [["client"; "nsyte"]])]
   else [])
  ++ (if publishServerList options
      then [(10063%Z, "",
             map (fun url => ["server"; url]) (p_servers p)
               ++ [["client"; "nsyte"]])]
      else [])
  ++ (if publishProfile options
      then match pd_profile (p_project p) with
           | Some profile =>
               [(0%Z, JSON_stringify_profile E profile, [["client"; "nsyte"]])]
           | None => []
           end
      else []).

(** What signing and publishing one additional record leaves in the
    trace: the template handed to the signer, stamped with the clock
    reading taken just before, and, when the signer returned a record,
    that record handed to [publishToRelays] for [relays]. *)
Inductive extra_segment (E : env) (signer : Signer) (relays : list string)
          (shape : Z * string * list (list string)) : list action -> Prop :=
| ES_unsigned (t : nat) (template : NostrEventTemplate) (err : string) :
    template_shape template = shape ->
    t_created_at template = (Date_now E t / 1000)%Z ->
    signEvent E (S t) signer template = Err err ->
    extra_segment E signer relays shape [ASignEvent template]
| ES_published (t : nat) (template : NostrEventTemplate) (record : NostrEvent) :
    template_shape template = shape ->
    t_created_at template = (Date_now E t / 1000)%Z ->
    signEvent E (S t) signer template = Ok record ->
    extra_segment E signer relays shape
      [ASignEvent template; APublish record relays].

(** [m] signs and publishes records of the given shapes in this order, as
    far as it gets. *)
Definition signs_in_order (E : env) (signer : Signer) (relays : list string)
           (shapes : list (Z * string * list (list string)))
           (m : M unit) : Prop :=
  forall st, exists added segments,
    st_trace (snd (m st)) = st_trace st ++ added
    /\ filter is_record_action added = List.concat segments
    /\ (fst (m st) = Val tt
        /\ Forall2 (extra_segment E signer relays) shapes segments
        \/ fst (m st) = Hang
           /\ exists k,
                Forall2 (extra_segment E signer relays) (firstn k shapes)
                        segments).

(** A list without its repetitions: of equal addresses the first one is
    kept. *)
Fixpoint first_occurrences (l : list string) : list string :=
  match l with
  | [] => []
  | x :: rest =>
      x :: filter (fun y => negb (String.eqb y x)) (first_occurrences rest)
  end.

(** What one entry of [serverResults] adds to the counters of [server]. *)
Definition bump (server : string) (entry : string * bool) (stats : ServerStats)
  : ServerStats :=
  mkStats (success stats
           + if String.eqb (fst entry) server && snd entry then 1 else 0)
          (total stats + if String.eqb (fst entry) server then 1 else 0).

(* ================================================================== *)
(** ** Further notions *)

(** Two states of a call that differ at most in the collector. *)
Definition same_sockets (ps ps' : pstate) : Prop :=
  p_socks ps = p_socks ps' /\ p_trace ps = p_trace ps'.

(** An action of [publishToRelays] that concerns one of [relays] and, when
    it sends, sends [event]. *)
Definition addressed_to (relays : list string) (event : NostrEvent)
           (a : action) : Prop :=
  match a with
  | AWsConnect relay | AWsClose relay => In relay relays
  | AWsSend relay sent => In relay relays /\ sent = event
  | _ => False
  end.

Definition timeout_entry (relay : string) : Collector.entry :=
  Collector.mkEntry Collector.connection_error relay
                    (JStr "Timeout waiting for response").

Definition is_request (a : action) : bool :=
  match a with
  | AFetch _ _ _ => true
  | _ => false
  end.

Definition is_processUploads (a : action) : bool :=
  match a with
  | AProcessUploads _ _ _ => true
  | _ => false
  end.

(** What the command does on the network by itself: signing, relay
    traffic and requests other than HEAD. *)
Definition is_own_traffic (a : action) : bool :=
  match a with
  | ASignEvent _ | APublish _ _
  | AWsConnect _ | AWsSend _ _ | AWsClose _ => true
  | AFetch m _ _ => negb (String.eqb m "HEAD")
  | _ => false
  end.

Definition is_delete (a : action) : bool :=
  match a with
  | AFetch m _ _ => String.eqb m "DELETE"
  | _ => false
  end.

(** [m] only appends actions that satisfy [P]. *)
Definition only {A : Type} (P : action -> bool) (m : M A) : Prop :=
  forall st, exists added,
    st_trace (snd (m st)) = st_trace st ++ added
    /\ Forall (fun a => P a = true) added.

(** [m] may throw but never calls [Deno.exit]. *)
Definition never_exits {A : Type} (m : M A) : Prop :=
  forall st, match fst (m st) with
             | Exit _ => False
             | _ => True
             end.

(** Whether a HEAD request got an answer with a 2xx status. *)
Definition answers_2xx (r : result Response) : bool :=
  match r with
  | Ok response => ok response
  | Err _ => false
  end.

(** The HEAD request of the probe for one server. *)
Definition head_request (sha server : string) : action :=
  AFetch "HEAD" (serverUrl server ++ sha) None.

(** What loading one file contributes: the loaded file, or the error
    recorded under its path. *)
Definition loaded_of (E : env) (fileOrFolder : string) (file : FileEntry)
  : list FileEntry :=
  match loadFileData E fileOrFolder file with
  | Ok fileWithData => [fileWithData]
  | Err _ => []
  end.

Definition load_error_of (E : env) (fileOrFolder : string) (file : FileEntry)
  : list Collector.entry :=
  match loadFileData E fileOrFolder file with
  | Ok _ => []
  | Err errorMessage =>
      [Collector.mkEntry Collector.file_error (f_path file) (JStr errorMessage)]
  end.

Definition load_actions_of (E : env) (fileOrFolder : string) (file : FileEntry)
  : list action :=
  ALoadFileData (f_path file)
    :: match loadFileData E fileOrFolder file with
       | Ok _ => []
       | Err errorMessage =>
           [AConsoleError ("Failed to load file " ++ f_path file ++ ": "
                             ++ errorMessage)]
       end.

(** A runtime with another clock. *)
Definition with_clock (clock : nat -> Z) (E : env) : env :=
  mkEnv (isInteractive E) (readProjectFile E) (setupProject E)
        (newPrivateKeySigner E) (importFromNbunk E)
        (createNip46ClientFromUrl E) (getNbunk E) (Input_prompt E)
        (Confirm_prompt E) (copy E) (getLocalFiles E) (listRemoteFiles E)
        (loadFileData E) (processUploads E) (fetch E) (response_text E)
        (signEvent E) clock (newWebSocket E) (socket_schedule E) (btoa E)
        (JSON_stringify E) (JSON_stringify_profile E) (String_match E).

(** A runtime in which the project file is missing. *)
Definition without_project_file (E : env) : env :=
  mkEnv (isInteractive E) None (setupProject E)
        (newPrivateKeySigner E) (importFromNbunk E)
        (createNip46ClientFromUrl E) (getNbunk E) (Input_prompt E)
        (Confirm_prompt E) (copy E) (getLocalFiles E) (listRemoteFiles E)
        (loadFileData E) (processUploads E) (fetch E) (response_text E)
        (signEvent E) (Date_now E) (newWebSocket E) (socket_schedule E) (btoa E)
        (JSON_stringify E) (JSON_stringify_profile E) (String_match E).

(** A runtime in which no file can be read and no server is reachable. *)
Definition unreadable_env : env :=
  mkEnv false None (Err "no terminal") (fun _ => Ok "pk")
        (fun _ => Err "bunker unreachable") (fun _ => Err "bunker unreachable")
        (fun _ => None) (Err "no terminal") (Ok false) (fun _ _ => Ok tt)
        (fun _ => Ok ([index_page], []))
        (fun _ _ => Ok []) (fun _ _ => Err "EACCES")
        (fun _ _ _ _ _ _ => Ok [])
        (fun _ _ _ _ => Err "offline") (fun _ => Ok "")
        sample_sign (fun _ => 0%Z) (fun _ => None)
        (fun _ => []) (fun text => Some text) ev_id (fun _ => "{}")
        (fun _ _ => None).

(* ================================================================== *)
(** ** The outcome of a relay, read off the events delivered to it *)

(** The events of a schedule addressed to the socket at position [i]. *)
Definition events_of (i : nat) (schedule : list (nat * socket_event))
  : list socket_event :=
  map snd (filter (fun p => Nat.eqb (fst p) i) schedule).

(** The ways the publication to one relay can end: the relay accepts, the
    relay rejects with a reason, the five-second timer fires, the socket
    reports an error, the socket closes. *)
Inductive RelayOutcome : Type :=
| Accepted
| Rejected (reason : json)
| TimedOut
| TransportError (detail : string)
| Closed.

(** What a frame decides, read off its shape alone; the second element,
    the identifier, plays no part.  An array [["OK", _, true, ...]]
    accepts.  An array [["OK", _, false, reason, ...]] rejects, with
    [reason] or, when [reason] is falsy, with [Unknown relay error],
    provided this is a string or an array.  Any other frame decides
    nothing. *)
Definition frame_outcome (parsed : option json) : option RelayOutcome :=
  match parsed with
  | Some (JArr (JStr verb :: _ :: JBool true :: _)) =>
      if String.eqb verb "OK" then Some Accepted else None
  | Some (JArr (JStr verb :: _ :: JBool false :: reason :: _)) =>
      if String.eqb verb "OK" then
        match (if truthy_json (Some reason) then reason
               else JStr "Unknown relay error") with
        | JStr text => Some (Rejected (JStr text))
        | JArr items => Some (Rejected (JArr items))
        | _ => None
        end
      else None
  | _ => None
  end.

(** What an event decides for a relay whose outcome is open: frames and
    the timer count only once the socket has opened. *)
Definition event_outcome (opened : bool) (e : socket_event)
  : option RelayOutcome :=
  match e with
  | EvOpen => None
  | EvMessage parsed => if opened then frame_outcome parsed else None
  | EvTimeout => if opened then Some TimedOut else None
  | EvError detail => Some (TransportError detail)
  | EvClose => Some Closed
  end.

Definition opens (e : socket_event) : bool :=
  match e with
  | EvOpen => true
  | _ => false
  end.

(** The first event that decides. *)
Fixpoint first_outcome (opened : bool) (events : list socket_event)
  : option RelayOutcome :=
  match events with
  | [] => None
  | e :: rest =>
      match event_outcome opened e with
      | Some o => Some o
      | None => first_outcome (opened || opens e) rest
      end
  end.

(** The outcome of the relay at position [i] under a schedule. *)
Definition relay_outcome (schedule : list (nat * socket_event)) (i : nat)
  : option RelayOutcome :=
  first_outcome false (events_of i schedule).

Definition accepted_outcome (o : RelayOutcome) : bool :=
  match o with
  | Accepted => true
  | _ => false
  end.

(** The text filed for a rejection. *)
Definition rejection_text (reason : json) : json :=
  match rate_limited reason with
  | Some true => JStr ("Rate limited: " ++ toString reason)
  | _ => reason
  end.

(** What an outcome leaves in the collector at the moment it is decided. *)
Definition outcome_entries (relay : string) (o : RelayOutcome)
  : list Collector.entry :=
  match o with
  | Accepted | Closed => []
  | Rejected reason =>
      [Collector.mkEntry Collector.relay_rejection relay (rejection_text reason)]
  | TimedOut => [timeout_entry relay]
  | TransportError detail =>
      [Collector.mkEntry Collector.connection_error relay
                         (JStr ("WebSocket error: " ++ detail))]
  end.

(** Events that file nothing: the socket opens or closes, or a frame
    arrives that does not reject. *)
Definition records_nothing (e : socket_event) : bool :=
  match e with
  | EvOpen | EvClose => true
  | EvMessage parsed =>
      match frame_outcome parsed with
      | Some (Rejected _) => false
      | _ => true
      end
  | EvTimeout | EvError _ => false
  end.

(** A socket whose promise is pending: connecting with no timer, or open
    with its timer armed. *)
Definition in_phase (opened : bool) (s : sock) : Prop :=
  s_resolved s = None
  /\ s_ready s = (if opened then OPEN else CONNECTING)
  /\ (if opened then s_timers s <> 0 else s_timers s = 0).

(** A socket whose promise is settled: it is closing or closed. *)
Definition is_done (s : sock) : Prop :=
  s_resolved s <> None /\ (s_ready s = CLOSING \/ s_ready s = CLOSED).

(** A property of every socket of a call. *)
Definition all_sockets (P : sock -> Prop) (ps : pstate) : Prop :=
  forall i s, nth_error (p_socks ps) i = Some (Some s) -> P s.

Definition is_send_to (relay : string) (a : action) : bool :=
  match a with
  | AWsSend r _ => String.eqb r relay
  | _ => false
  end.

Definition is_connecting_to (relay : string) (o : option sock) : bool :=
  match o with
  | Some s =>
      match s_ready s with
      | CONNECTING => String.eqb (s_relay s) relay
      | _ => false
      end
  | None => false
  end.

(** What the handlers of a call do with the events the runtime delivers
    after the call has returned: nothing stops them, the sockets and the
    collector of the call are still theirs. *)
Definition deliver_all (event : NostrEvent)
           (schedule : list (nat * socket_event)) (ps : pstate) : pstate :=
  fold_left (fun ps' p => deliver event (fst p) (snd p) ps') schedule ps.

(* ================================================================== *)
(** * Properties *)

(** ** Handlers of one socket *)

Section Handlers.

Variable event : NostrEvent.

Ltac handler_cases :=
  unfold on_event, onmessage;
  repeat match goal with
         | |- context [match ?e with EvOpen => _ | _ => _ end] => destruct e
         | |- context [match s_ready ?s with CONNECTING => _ | _ => _ end] =>
             destruct (s_ready s) eqn:?
         | |- context [match s_timers ?s with O => _ | S _ => _ end] =>
             destruct (s_timers s) eqn:?
         | |- context [match ?p with Some _ => _ | None => _ end] =>
             destruct p eqn:?
         | |- context [if ?b then _ else _] => destruct b eqn:?
         end.

Lemma on_event_relay mc s e :
  s_relay (fst (fst (on_event event mc s e))) = s_relay s.
Proof. handler_cases; reflexivity. Qed.

Lemma on_event_monotone mc s e b :
  s_resolved s = Some b ->
  s_resolved (fst (fst (on_event event mc s e))) = Some b.
Proof.
  intros H. handler_cases; simpl; rewrite ?H; auto.
Qed.

Lemma on_event_collects mc s e :
  exists extra,
    snd (fst (on_event event mc s e))
    = option_map (fun c => c ++ extra) mc
    /\ Forall (fun en => Collector.e_target en = s_relay s) extra
    /\ (List.length extra <= 1)%nat.
Proof.
  assert (Hnil : mc = option_map (fun c : Collector.t => c ++ []) mc).
  { destruct mc; simpl; [rewrite app_nil_r|]; reflexivity. }
  handler_cases; simpl;
    try (exists []; split; [exact Hnil | split; [constructor | simpl; lia]]);
    (eexists [_]; split;
     [ destruct mc; reflexivity
     | split; [repeat constructor | simpl; lia] ]).
Qed.




Lemma on_event_actions mc s e :
  Forall (fun a => is_socket_action a = true /\ is_connect a = false)
         (snd (on_event event mc s e)).
Proof. handler_cases; simpl; repeat constructor. Qed.

Lemma new_socket_pending relay : pending_while_open (new_socket relay).
Proof. reflexivity. Qed.

Lemma on_event_pending mc s e :
  pending_while_open s ->
  pending_while_open (fst (fst (on_event event mc s e))).
Proof.
  unfold pending_while_open, on_event, onmessage.
  destruct s as [rl rd tm rs]; simpl.
  destruct e as [|[data|]| | |]; destruct rd; simpl; auto;
    try (destruct tm; simpl; auto);
    destruct (is_ok_frame 3 true data); simpl; auto;
    destruct (is_ok_frame 4 false data); simpl; auto;
    destruct (rate_limited _) as [[|]|]; simpl; auto.
Qed.

End Handlers.

(** ** The sockets of one call *)

Lemma nth_error_replace_nth_same {A : Type} (l : list A) i x y :
  nth_error l i = Some y -> nth_error (replace_nth i x l) i = Some x.
Proof.
  revert i; induction l as [|h t IH]; intros [|i]; simpl; try discriminate; auto.
Qed.

Lemma nth_error_replace_nth_other {A : Type} (l : list A) i j x :
  i <> j -> nth_error (replace_nth i x l) j = nth_error l j.
Proof.
  revert i j; induction l as [|h t IH]; intros [|i] [|j] Hij; simpl; auto;
    try congruence.
Qed.

Lemma nth_nth_error {A : Type} (l : list A) i d :
  nth i l d = match nth_error l i with Some x => x | None => d end.
Proof. revert i; induction l; intros [|i]; simpl; auto. Qed.

Section Run.

Variable event : NostrEvent.

Lemma deliver_other j e ps i :
  j <> i ->
  nth_error (p_socks (deliver event j e ps)) i = nth_error (p_socks ps) i.
Proof.
  intros Hji. unfold deliver.
  destruct (nth_error (p_socks ps) j) as [[s|]|] eqn:Hj; auto.
  destruct (on_event event (p_coll ps) s e) as [[s' mc'] acts]; simpl.
  now apply nth_error_replace_nth_other.
Qed.

Lemma deliver_sock i e ps s :
  nth_error (p_socks ps) i = Some (Some s) ->
  nth_error (p_socks (deliver event i e ps)) i
  = Some (Some (fst (fst (on_event event (p_coll ps) s e)))).
Proof.
  intros Hi. unfold deliver. rewrite Hi.
  destruct (on_event event (p_coll ps) s e) as [[s' mc'] acts]; simpl.
  eapply nth_error_replace_nth_same; eauto.
Qed.

Lemma deliver_no_sock i e ps :
  (forall s, nth_error (p_socks ps) i <> Some (Some s)) ->
  deliver event i e ps = ps.
Proof.
  intros Hi. unfold deliver.
  destruct (nth_error (p_socks ps) i) as [[s|]|]; auto.
  now elim (Hi s).
Qed.

(** What [deliver] does to the socket at a position. *)
Lemma deliver_at j e ps i :
  nth_error (p_socks (deliver event j e ps)) i
  = match nth_error (p_socks ps) i with
    | Some (Some s) =>
        if Nat.eqb j i
        then Some (Some (fst (fst (on_event event (p_coll ps) s e))))
        else Some (Some s)
    | other => other
    end.
Proof.
  destruct (Nat.eqb_spec j i) as [->|Hji].
  - destruct (nth_error (p_socks ps) i) as [[s|]|] eqn:Hi.
    + now apply deliver_sock.
    + rewrite deliver_no_sock; auto. congruence.
    + rewrite deliver_no_sock; auto. congruence.
  - rewrite deliver_other by assumption.
    destruct (nth_error (p_socks ps) i) as [[s|]|]; reflexivity.
Qed.




End Run.

Lemma successCount_positive socks :
  Nat.ltb 0 (successCount socks) = true <->
  exists i, accepted (nth i socks None) = true.
Proof.
  unfold successCount. induction socks as [|o rest IH]; simpl.
  - split; [discriminate | intros [[|i] H]; discriminate].
  - destruct (accepted o) eqn:Ho; simpl.
    + split; [intros _; exists 0; exact Ho | reflexivity].
    + rewrite IH. split.
      * intros [i H]. exists (S i). exact H.
      * intros [[|i] H]; [congruence | eauto].
Qed.


Section Collecting.

Variable event : NostrEvent.

Lemma deliver_relay_at j e ps i :
  relay_at i (deliver event j e ps) = relay_at i ps.
Proof.
  unfold relay_at. rewrite deliver_at.
  destruct (nth_error (p_socks ps) i) as [[s|]|]; auto.
  destruct (Nat.eqb j i); auto. now rewrite on_event_relay.
Qed.

Lemma deliver_coll j e ps s :
  nth_error (p_socks ps) j = Some (Some s) ->
  p_coll (deliver event j e ps) = snd (fst (on_event event (p_coll ps) s e)).
Proof.
  intros H. unfold deliver. rewrite H.
  destruct (on_event event (p_coll ps) s e) as [[s' mc'] acts]. reflexivity.
Qed.

Lemma deliver_trace j e ps :
  exists acts,
    p_trace (deliver event j e ps) = p_trace ps ++ acts
    /\ Forall (fun a => is_socket_action a = true /\ is_connect a = false) acts.
Proof.
  unfold deliver.
  destruct (nth_error (p_socks ps) j) as [[s|]|];
    try (exists []; split; [now rewrite app_nil_r | constructor]).
  pose proof (on_event_actions event (p_coll ps) s e) as Ha.
  destruct (on_event event (p_coll ps) s e) as [[s' mc'] acts]. simpl in *.
  eauto.
Qed.

Lemma deliver_collects j e ps :
  exists extra,
    p_coll (deliver event j e ps) = option_map (fun c => c ++ extra) (p_coll ps)
    /\ Forall (fun en => relay_at j ps = Some (Collector.e_target en)) extra.
Proof.
  destruct (nth_error (p_socks ps) j) as [[s|]|] eqn:Hj.
  - rewrite (deliver_coll _ _ _ _ Hj).
    destruct (on_event_collects event (p_coll ps) s e) as (extra & H1 & H2 & _).
    exists extra. split; auto.
    unfold relay_at. rewrite Hj.
    eapply Forall_impl; [|exact H2]. simpl. intros en ->. reflexivity.
  - rewrite deliver_no_sock by congruence.
    exists []. split; [|constructor].
    destruct (p_coll ps); simpl; [rewrite app_nil_r|]; reflexivity.
  - rewrite deliver_no_sock by congruence.
    exists []. split; [|constructor].
    destruct (p_coll ps); simpl; [rewrite app_nil_r|]; reflexivity.
Qed.

Lemma run_collects schedule ps :
  exists extra,
    p_coll (run_schedule event schedule ps)
    = option_map (fun c => c ++ extra) (p_coll ps)
    /\ Forall (fun en => exists i, relay_at i ps = Some (Collector.e_target en))
              extra.
Proof.
  revert ps. induction schedule as [|[j e] rest IH]; intros ps; simpl.
  - exists []. split; [|constructor].
    destruct (p_coll ps); simpl; [rewrite app_nil_r|]; reflexivity.
  - destruct (all_settled (p_socks ps)).
    + exists []. split; [|constructor].
      destruct (p_coll ps); simpl; [rewrite app_nil_r|]; reflexivity.
    + destruct (IH (deliver event j e ps)) as (x2 & H2 & F2).
      destruct (deliver_collects j e ps) as (x1 & H1 & F1).
      exists (x1 ++ x2). split.
      * rewrite H2, H1. destruct (p_coll ps); simpl; [rewrite app_assoc|]; auto.
      * apply Forall_app. split.
        -- eapply Forall_impl; [|exact F1]. simpl. eauto.
        -- eapply Forall_impl; [|exact F2]. simpl. intros en [i Hi].
           exists i. now rewrite deliver_relay_at in Hi.
Qed.

Lemma run_trace schedule ps :
  exists acts,
    p_trace (run_schedule event schedule ps) = p_trace ps ++ acts
    /\ Forall (fun a => is_socket_action a = true /\ is_connect a = false) acts.
Proof.
  revert ps. induction schedule as [|[j e] rest IH]; intros ps; simpl.
  - exists []. split; [now rewrite app_nil_r | constructor].
  - destruct (all_settled (p_socks ps)).
    + exists []. split; [now rewrite app_nil_r | constructor].
    + destruct (IH (deliver event j e ps)) as (a2 & H2 & F2).
      destruct (deliver_trace j e ps) as (a1 & H1 & F1).
      exists (a1 ++ a2). split.
      * now rewrite H2, H1, app_assoc.
      * apply Forall_app. auto.
Qed.



End Collecting.

(** ** The fan-out *)

Lemma connect_all_socks ctor relays mc :
  fst (connect_all ctor relays mc) = map (socket_for ctor) relays.
Proof.
  revert mc. induction relays as [|relay rest IH]; intros mc; simpl; auto.
  unfold socket_for at 1. destruct (ctor relay) as [e|].
  - specialize (IH (collect (Collector.addConnectionError relay
                               ("Connection failed: " ++ e)) mc)).
    destruct (connect_all ctor rest _) as [socks mc']. simpl in *. now f_equal.
  - specialize (IH mc).
    destruct (connect_all ctor rest mc) as [socks mc']. simpl in *. now f_equal.
Qed.

Lemma connect_all_collects ctor relays mc :
  exists extra,
    snd (connect_all ctor relays mc) = option_map (fun c => c ++ extra) mc
    /\ Forall (fun en => In (Collector.e_target en) relays) extra
    /\ forall relay e,
        In relay relays -> ctor relay = Some e ->
        In (Collector.mkEntry Collector.connection_error relay
              (JStr ("Connection failed: " ++ e))) extra.
Proof.
  revert mc. induction relays as [|relay rest IH]; intros mc; simpl.
  - exists []. repeat split; [|constructor|intros ? ? []].
    destruct mc; simpl; [rewrite app_nil_r|]; reflexivity.
  - destruct (ctor relay) as [e|] eqn:Hc.
    + destruct (IH (collect (Collector.addConnectionError relay
                               ("Connection failed: " ++ e)) mc))
        as (x & H1 & H2 & H3).
      destruct (connect_all ctor rest _) as [socks mc']. simpl in *.
      exists (Collector.mkEntry Collector.connection_error relay
                (JStr ("Connection failed: " ++ e)) :: x).
      split; [|split].
      * rewrite H1. destruct mc; simpl; auto.
        unfold Collector.addConnectionError. now rewrite <- app_assoc.
      * constructor; [now left|].
        eapply Forall_impl; [|exact H2]. simpl. auto.
      * intros r e' [<-|Hin] Hr;
          [left; rewrite Hc in Hr; injection Hr as <-; reflexivity
          | right; eauto].
    + destruct (IH mc) as (x & H1 & H2 & H3).
      destruct (connect_all ctor rest mc) as [socks mc']. simpl in *.
      exists x. split; [|split]; auto.
      * eapply Forall_impl; [|exact H2]. simpl. auto.
      * intros r e' [<-|Hin] Hr; [congruence | eauto].
Qed.

Lemma initial_socket ctor relays mc tr i :
  nth_error (p_socks (mkP (map (socket_for ctor) relays) mc tr)) i
  = option_map (socket_for ctor) (nth_error relays i).
Proof. simpl. apply nth_error_map. Qed.

Lemma initial_relay_at ctor relays mc tr i relay :
  relay_at i (mkP (map (socket_for ctor) relays) mc tr) = Some relay ->
  nth_error relays i = Some relay /\ ctor relay = None.
Proof.
  unfold relay_at. rewrite initial_socket.
  destruct (nth_error relays i) as [r|]; simpl; try discriminate.
  unfold socket_for. destruct (ctor r) eqn:Hr; try discriminate.
  simpl. intros H. inversion H; subst. auto.
Qed.



Lemma count_app {A : Type} (f : A -> bool) l1 l2 :
  count f (l1 ++ l2) = count f l1 + count f l2.
Proof. unfold count. now rewrite filter_app, length_app. Qed.

Lemma count_replace_nth {A : Type} (f : A -> bool) l i x y :
  nth_error l i = Some x ->
  count f (replace_nth i y l) + (if f x then 1 else 0)
  = count f l + (if f y then 1 else 0).
Proof.
  unfold count. revert i. induction l as [|h t IH]; intros [|i]; simpl;
    try discriminate.
  - intros H. inversion H; subst. destruct (f x), (f y); simpl; lia.
  - intros H. specialize (IH _ H). destruct (f h); simpl; lia.
Qed.

(** The actions of a call: the constructors, then what the handlers do. *)
Lemma publishToRelays_trace ctor schedule event relays mc :
  exists rest,
    snd (publishToRelays ctor schedule event relays mc)
    = map AWsConnect relays ++ rest
    /\ Forall (fun a => is_socket_action a = true /\ is_connect a = false) rest.
Proof.
  unfold publishToRelays, publish_state.
  destruct (connect_all ctor relays mc) as [socks mc0]. simpl.
  apply (run_trace event schedule (mkP socks mc0 (map AWsConnect relays))).
Qed.

Ltac split_frame :=
  repeat match goal with
         | |- context [match ?x with _ => _ end] => is_var x; destruct x
         end.

Lemma frame_outcome_cases parsed o :
  frame_outcome parsed = Some o ->
  o = Accepted \/ exists reason, o = Rejected reason.
Proof.
  unfold frame_outcome. split_frame; try discriminate.
  - destruct (String.eqb _ "OK"); [|discriminate].
    intros H. injection H as <-. now left.
  - destruct (String.eqb _ "OK"); [|discriminate].
    destruct (if truthy_json _ then _ else _); try discriminate;
      intros H; injection H as <-; right; eauto.
Qed.

(** The handler of [message] against the outcome of the frame. *)
Lemma onmessage_outcome mc s parsed :
  onmessage mc s parsed
  = match frame_outcome parsed with
    | Some Accepted =>
        (close (resolve true s), mc, [AWsClose (s_relay s)])
    | Some (Rejected reason) =>
        (close (resolve false s),
         collect (Collector.addRelayRejection (s_relay s)
                    (rejection_text reason)) mc,
         [AWsClose (s_relay s)])
    | _ => (s, mc, [])
    end.
Proof.
  destruct parsed as [data|]; [|reflexivity].
  destruct data as [| | | |items|]; try reflexivity.
  destruct items as [|a [|b [|c rest]]];
    try (destruct a; reflexivity); try reflexivity.
  destruct a as [| | |verb| |];
    try (unfold onmessage, is_ok_frame; simpl; rewrite ?andb_false_r;
         reflexivity).
  unfold onmessage, is_ok_frame, frame_outcome. simpl.
  destruct (String.eqb verb "OK") eqn:Hverb; simpl;
    destruct c as [|[|]| | | |]; try reflexivity;
    destruct rest as [|reason more]; try reflexivity.
  unfold or_default, rejection_text, rate_limited, includes_value,
    truthy_json, truthy_string.
  destruct reason as [|[|]|num|text|items|fields]; simpl;
    repeat match goal with
           | |- context [if ?b then _ else _] => destruct b eqn:?; simpl
           end; try reflexivity.
Qed.

Lemma option_map_app_nil (mc : option Collector.t) :
  option_map (fun c : Collector.t => c ++ []) mc = mc.
Proof. destruct mc; simpl; [rewrite app_nil_r|]; reflexivity. Qed.

(** One event against the outcome it decides. *)
Lemma on_event_outcome event mc s opened e :
  in_phase opened s ->
  match event_outcome opened e with
  | Some o =>
      s_resolved (fst (fst (on_event event mc s e)))
      = Some (accepted_outcome o)
      /\ snd (fst (on_event event mc s e))
         = option_map (fun c => c ++ outcome_entries (s_relay s) o) mc
  | None =>
      in_phase (opened || opens e) (fst (fst (on_event event mc s e)))
      /\ snd (fst (on_event event mc s e)) = mc
  end.
Proof.
  destruct s as [rl rd tm rs]. unfold in_phase. simpl.
  intros (Hrs & Hrd & Htm). subst rs rd.
  destruct e as [|parsed| |detail|]; destruct opened; simpl.
  - auto.
  - subst tm. repeat split; auto.
  - rewrite onmessage_outcome.
    destruct (frame_outcome parsed) as [o|] eqn:Ho; [|simpl; auto].
    destruct (frame_outcome_cases _ _ Ho) as [->|[reason ->]]; simpl.
    + split; [reflexivity | now rewrite option_map_app_nil].
    + split; [reflexivity | destruct mc; reflexivity].
  - auto.
  - destruct tm as [|n]; [contradiction|]. simpl.
    split; [reflexivity | destruct mc; reflexivity].
  - subst tm. simpl. auto.
  - split; [reflexivity | destruct mc; reflexivity].
  - split; [reflexivity | destruct mc; reflexivity].
  - split; [reflexivity | now rewrite option_map_app_nil].
  - split; [reflexivity | now rewrite option_map_app_nil].
Qed.

Lemma pending_not_all_settled socks i s :
  nth_error socks i = Some (Some s) -> s_resolved s = None ->
  all_settled socks = false.
Proof.
  unfold all_settled. revert i. induction socks as [|o rest IH]; intros [|i];
    simpl; try discriminate.
  - intros H Hs. injection H as ->. simpl. now rewrite Hs.
  - intros H Hs. rewrite (IH _ H Hs). apply andb_false_r.
Qed.

Lemma events_of_cons i j e schedule :
  events_of i ((j, e) :: schedule)
  = if Nat.eqb j i then e :: events_of i schedule else events_of i schedule.
Proof. unfold events_of. simpl. destruct (Nat.eqb j i); reflexivity. Qed.

Lemma run_resolved_stays event schedule ps i s b :
  nth_error (p_socks ps) i = Some (Some s) ->
  s_resolved s = Some b ->
  exists s',
    nth_error (p_socks (run_schedule event schedule ps)) i = Some (Some s')
    /\ s_resolved s' = Some b /\ s_relay s' = s_relay s.
Proof.
  revert ps s. induction schedule as [|[j e] rest IH]; intros ps s Hi Hb; simpl.
  - eauto.
  - destruct (all_settled (p_socks ps)); [eauto|].
    pose proof (deliver_at event j e ps i) as Hd. rewrite Hi in Hd.
    destruct (Nat.eqb j i).
    + destruct (IH _ _ Hd (on_event_monotone event _ _ _ _ Hb))
        as (s' & H1 & H2 & H3).
      exists s'. repeat split; auto. now rewrite H3, on_event_relay.
    + eapply IH; eauto.
Qed.

(** The run of a call against the outcome of one relay: the promise of
    the relay is settled by the first event that decides, with the entry
    of that outcome filed at that moment, and stays pending when no event
    decides. *)
Lemma run_first_outcome event schedule ps i s opened :
  nth_error (p_socks ps) i = Some (Some s) ->
  in_phase opened s ->
  exists sf,
    nth_error (p_socks (run_schedule event schedule ps)) i = Some (Some sf)
    /\ match first_outcome opened (events_of i schedule) with
       | Some o =>
           s_resolved sf = Some (accepted_outcome o)
           /\ exists pre post,
               p_coll (run_schedule event schedule ps)
               = option_map
                   (fun c => c ++ pre ++ outcome_entries (s_relay s) o ++ post)
                   (p_coll ps)
       | None => s_resolved sf = None
       end.
Proof.
  revert ps s opened.
  induction schedule as [|[j e] rest IH]; intros ps s opened Hi Hph.
  - simpl. exists s. split; [exact Hi | apply Hph].
  - simpl. rewrite (pending_not_all_settled _ _ _ Hi (proj1 Hph)).
    rewrite events_of_cons.
    destruct (Nat.eqb_spec j i) as [->|Hji].
    + pose proof (on_event_outcome event (p_coll ps) s opened e Hph) as Hstep.
      pose proof (deliver_sock event i e ps s Hi) as Hs1.
      pose proof (deliver_coll event i e ps s Hi) as Hc1.
      simpl. destruct (event_outcome opened e) as [o|].
      * destruct Hstep as [Hres Hcoll].
        destruct (run_resolved_stays event rest _ _ _ _ Hs1 Hres)
          as (sf & Hsf & Hrf & _).
        exists sf. split; [exact Hsf|]. split; [exact Hrf|].
        destruct (run_collects event rest (deliver event i e ps))
          as (post & Hpost & _).
        exists [], post. rewrite Hpost, Hc1, Hcoll.
        destruct (p_coll ps); simpl; [rewrite <- app_assoc|]; reflexivity.
      * destruct Hstep as [Hph1 Hcoll].
        destruct (IH _ _ _ Hs1 Hph1) as (sf & Hsf & Hm).
        exists sf. split; [exact Hsf|].
        destruct (first_outcome (opened || opens e) (events_of i rest));
          [|exact Hm].
        destruct Hm as (Hrf & pre & post & Hp). split; [exact Hrf|].
        exists pre, post. rewrite Hp, Hc1, Hcoll, on_event_relay. reflexivity.
    + assert (Hs1 : nth_error (p_socks (deliver event j e ps)) i = Some (Some s))
        by (rewrite deliver_other; auto).
      destruct (IH _ _ _ Hs1 Hph) as (sf & Hsf & Hm).
      exists sf. split; [exact Hsf|].
      destruct (first_outcome opened (events_of i rest)); [|exact Hm].
      destruct Hm as (Hrf & pre & post & Hp). split; [exact Hrf|].
      destruct (deliver_collects event j e ps) as (x & Hx & _).
      exists (x ++ pre), post. rewrite Hp, Hx.
      destruct (p_coll ps); simpl; [rewrite <- !app_assoc|]; reflexivity.
Qed.

Lemma new_socket_in_phase relay : in_phase false (new_socket relay).
Proof. repeat split. Qed.

Lemma accepted_outcome_true o : accepted_outcome o = true -> o = Accepted.
Proof. destruct o; simpl; congruence. Qed.

(** An event that files nothing leaves the collector as it is. *)
Lemma on_event_silent event mc s e :
  records_nothing e = true -> snd (fst (on_event event mc s e)) = mc.
Proof.
  destruct e as [|parsed| |detail|]; simpl; try discriminate.
  - intros _. destruct (s_ready s); reflexivity.
  - intros H. destruct (s_ready s); try reflexivity.
    rewrite onmessage_outcome.
    destruct (frame_outcome parsed) as [[]|]; try reflexivity. discriminate.
  - reflexivity.
Qed.

Lemma for_target_app relay c1 c2 :
  Collector.for_target relay (c1 ++ c2)
  = Collector.for_target relay c1 ++ Collector.for_target relay c2.
Proof. apply filter_app. Qed.

Lemma for_target_other relay target extra :
  Forall (fun en => Collector.e_target en = target) extra ->
  String.eqb target relay = false ->
  Collector.for_target relay extra = [].
Proof.
  intros F Hne. induction F as [|en rest Hen _ IH]; simpl; auto.
  rewrite Hen, Hne. exact IH.
Qed.

(** Under a relay's address nothing is filed as long as the events
    delivered to its sockets file nothing. *)
Lemma run_silent event relay schedule ps :
  (forall j e, In (j, e) schedule -> relay_at j ps = Some relay ->
               records_nothing e = true) ->
  exists extra,
    p_coll (run_schedule event schedule ps)
    = option_map (fun c => c ++ extra) (p_coll ps)
    /\ Collector.for_target relay extra = [].
Proof.
  revert ps. induction schedule as [|[j e] rest IH]; intros ps Hq; simpl.
  - exists []. split; [now rewrite option_map_app_nil | reflexivity].
  - destruct (all_settled (p_socks ps)).
    + exists []. split; [now rewrite option_map_app_nil | reflexivity].
    + assert (H1 : exists x,
                 p_coll (deliver event j e ps)
                 = option_map (fun c => c ++ x) (p_coll ps)
                 /\ Collector.for_target relay x = []).
      { destruct (nth_error (p_socks ps) j) as [[s|]|] eqn:Hj.
        - rewrite (deliver_coll _ _ _ _ _ Hj).
          destruct (String.eqb (s_relay s) relay) eqn:Hr.
          + apply String.eqb_eq in Hr.
            exists []. split; [|reflexivity].
            rewrite option_map_app_nil. apply on_event_silent.
            apply (Hq j e); [now left|].
            unfold relay_at. now rewrite Hj, Hr.
          + destruct (on_event_collects event (p_coll ps) s e)
              as (x & Hx & Fx & _).
            exists x. split; [exact Hx|].
            eapply for_target_other; eauto.
        - rewrite deliver_no_sock by congruence.
          exists []. split; [now rewrite option_map_app_nil | reflexivity].
        - rewrite deliver_no_sock by congruence.
          exists []. split; [now rewrite option_map_app_nil | reflexivity]. }
      destruct H1 as (x1 & Hx1 & F1).
      destruct (IH (deliver event j e ps)) as (x2 & Hx2 & F2).
      { intros k e' Hin Hk. rewrite deliver_relay_at in Hk.
        apply (Hq k e'); [now right | exact Hk]. }
      exists (x1 ++ x2). split.
      * rewrite Hx2, Hx1. destruct (p_coll ps); simpl;
          [rewrite app_assoc|]; reflexivity.
      * now rewrite for_target_app, F1, F2.
Qed.

(** Sends, relay by relay: a socket sends when it opens, and it opens
    once. *)
Lemma on_event_sends_to relay event mc s e :
  count (is_send_to relay) (snd (on_event event mc s e))
  + (if is_connecting_to relay (Some (fst (fst (on_event event mc s e))))
     then 1 else 0)
  <= (if is_connecting_to relay (Some s) then 1 else 0).
Proof.
  unfold on_event, count. rewrite ?onmessage_outcome.
  destruct s as [rl rd tm rs].
  destruct e as [|parsed| |detail|]; destruct rd; simpl;
    try (destruct (String.eqb rl relay); simpl; lia);
    try (destruct tm; simpl; destruct (String.eqb rl relay); simpl; lia);
    rewrite onmessage_outcome;
    destruct (frame_outcome parsed) as [[]|]; simpl; lia.
Qed.

Lemma deliver_sends_to relay event j e ps :
  count (is_send_to relay) (p_trace (deliver event j e ps))
  + count (is_connecting_to relay) (p_socks (deliver event j e ps))
  <= count (is_send_to relay) (p_trace ps)
     + count (is_connecting_to relay) (p_socks ps).
Proof.
  unfold deliver.
  destruct (nth_error (p_socks ps) j) as [[s|]|] eqn:Hj; try lia.
  pose proof (on_event_sends_to relay event (p_coll ps) s e) as H.
  destruct (on_event event (p_coll ps) s e) as [[s' mc'] acts]. simpl in *.
  rewrite count_app.
  pose proof (count_replace_nth (is_connecting_to relay) _ _ _ (Some s') Hj)
    as Hc.
  simpl in Hc. lia.
Qed.

Lemma run_sends_to relay event schedule ps :
  count (is_send_to relay) (p_trace (run_schedule event schedule ps))
  <= count (is_send_to relay) (p_trace ps)
     + count (is_connecting_to relay) (p_socks ps).
Proof.
  revert ps. induction schedule as [|[j e] rest IH]; intros ps; simpl; try lia.
  destruct (all_settled (p_socks ps)); try lia.
  specialize (IH (deliver event j e ps)).
  pose proof (deliver_sends_to relay event j e ps). lia.
Qed.

Lemma initial_connecting_to relay ctor relays :
  count (is_connecting_to relay) (map (socket_for ctor) relays)
  <= count (fun r => String.eqb r relay) relays.
Proof.
  unfold count. induction relays as [|r rest IH]; simpl; [lia|].
  unfold socket_for at 1. destruct (ctor r); simpl.
  - destruct (String.eqb r relay); simpl; lia.
  - destruct (String.eqb r relay); simpl; lia.
Qed.

Lemma connects_send_nothing relay relays :
  count (is_send_to relay) (map AWsConnect relays) = 0.
Proof. unfold count. induction relays; simpl; auto. Qed.

(** The entries of the constructors: one per relay whose constructor
    throws. *)
Lemma connect_all_failed ctor relays mc :
  exists extra,
    snd (connect_all ctor relays mc) = option_map (fun c => c ++ extra) mc
    /\ Forall (fun en => ctor (Collector.e_target en) <> None) extra.
Proof.
  revert mc. induction relays as [|relay rest IH]; intros mc; simpl.
  - exists []. split; [now rewrite option_map_app_nil | constructor].
  - destruct (ctor relay) as [e|] eqn:Hc.
    + destruct (IH (collect (Collector.addConnectionError relay
                               ("Connection failed: " ++ e)) mc))
        as (x & H1 & H2).
      destruct (connect_all ctor rest _) as [socks mc']. simpl in *.
      exists (Collector.mkEntry Collector.connection_error relay
                (JStr ("Connection failed: " ++ e)) :: x).
      split.
      * rewrite H1. destruct mc; simpl; auto.
        unfold Collector.addConnectionError. now rewrite <- app_assoc.
      * constructor; [simpl; congruence | exact H2].
    + destruct (IH mc) as (x & H1 & H2).
      destruct (connect_all ctor rest mc) as [socks mc']. simpl in *.
      exists x. split; auto.
Qed.

(** ** Claims about [publishToRelays] *)

(** C1, as the code has it.  [publishToRelays] constructs one socket per
    entry of the relay list, in list order and before it handles any
    event; it constructs no other socket and sends the record at most once
    on each socket, so that a relay gets it at most as often as it is
    listed.  When the call returns, it returns [true] if and only if, for
    at least one relay whose socket could be constructed, the first event
    that decides (a frame that accepts or rejects, or the timer, once the
    socket has opened; an error; the socket closing) is an OK frame whose
    third element is [true].  With a collector, every entry the call files
    is under the address of a relay of the list: a constructor that throws
    leaves a connection error, and the outcome of a relay leaves its entry
    at the moment it is decided, a rejection for a rejecting frame and a
    connection error for the timer and for an error.  A socket that closes
    files nothing: as long as the sockets of a relay only open, close and
    receive frames that do not reject, the call files nothing under that
    relay's address. *)
Theorem publishToRelays_fan_out ctor schedule event relays c r mc' tr :
  publishToRelays ctor schedule event relays (Some c) = (r, mc', tr) ->
  (exists rest,
      tr = map AWsConnect relays ++ rest
      /\ Forall (fun a => is_socket_action a = true /\ is_connect a = false) rest
      /\ forall relay,
          count (is_send_to relay) rest
          <= count (fun r => String.eqb r relay) relays)
  /\ (forall b, r = Some b ->
        (b = true <->
         exists i relay,
           nth_error relays i = Some relay
           /\ ctor relay = None
           /\ relay_outcome schedule i = Some Accepted))
  /\ (exists added,
        mc' = Some (c ++ added)
        /\ Forall (fun en => In (Collector.e_target en) relays) added
        /\ (forall relay e,
              In relay relays -> ctor relay = Some e ->
              In (Collector.mkEntry Collector.connection_error relay
                    (JStr ("Connection failed: " ++ e))) added)
        /\ (forall i relay o,
              nth_error relays i = Some relay ->
              ctor relay = None ->
              relay_outcome schedule i = Some o ->
              exists pre post,
                added = pre ++ outcome_entries relay o ++ post)
        /\ (forall relay,
              ctor relay = None ->
              (forall j e,
                  In (j, e) schedule -> nth_error relays j = Some relay ->
                  records_nothing e = true) ->
              Collector.for_target relay added = [])).
Proof.
  unfold publishToRelays, publish_state, relay_outcome.
  pose proof (connect_all_socks ctor relays (Some c)) as Hsocks.
  destruct (connect_all_collects ctor relays (Some c)) as (x1 & Hx1 & Fx1 & Cx1).
  destruct (connect_all_failed ctor relays (Some c)) as (x1' & Hx1' & Tx1).
  destruct (connect_all ctor relays (Some c)) as [socks mc0]. simpl in *.
  subst socks mc0.
  injection Hx1' as Hx1'. apply app_inv_head in Hx1'. subst x1'.
  set (ps0 := mkP (map (socket_for ctor) relays) (Some (c ++ x1))
                  (map AWsConnect relays)).
  assert (Hinit : forall i relay,
             nth_error relays i = Some relay -> ctor relay = None ->
             nth_error (p_socks ps0) i = Some (Some (new_socket relay))).
  { intros i relay Hi Hc. unfold ps0. rewrite initial_socket, Hi. simpl.
    unfold socket_for. now rewrite Hc. }
  intros Heq. inversion Heq; subst r mc' tr; clear Heq.
  split; [|split].
  - destruct (run_trace event schedule ps0) as (acts & Ht & Fa).
    exists acts. repeat split; auto.
    intros relay.
    pose proof (run_sends_to relay event schedule ps0) as Hs.
    rewrite Ht, count_app in Hs. simpl in Hs.
    rewrite connects_send_nothing in Hs.
    pose proof (initial_connecting_to relay ctor relays). lia.
  - intros b Hb.
    destruct (all_settled (p_socks (run_schedule event schedule ps0))) eqn:Hall;
      try discriminate.
    inversion Hb; subst b; clear Hb.
    rewrite successCount_positive. split.
    + intros [i Hi]. rewrite nth_nth_error in Hi.
      destruct (nth_error (p_socks (run_schedule event schedule ps0)) i)
        as [[sf|]|] eqn:Hf; try discriminate.
      destruct (nth_error relays i) as [relay|] eqn:Hr.
      * destruct (ctor relay) as [err|] eqn:Hc.
        -- exfalso.
           assert (H0 : nth_error (p_socks ps0) i = Some None).
           { unfold ps0. rewrite initial_socket, Hr. simpl.
             unfold socket_for. now rewrite Hc. }
           assert (Hk : forall sch ps,
                      nth_error (p_socks ps) i = Some None ->
                      nth_error (p_socks (run_schedule event sch ps)) i
                      = Some None).
           { induction sch as [|[j e] rest IH]; intros ps Hp; simpl; auto.
             destruct (all_settled (p_socks ps)); auto.
             apply IH. rewrite deliver_at, Hp. reflexivity. }
           rewrite (Hk _ _ H0) in Hf. discriminate.
        -- exists i, relay. repeat split; auto.
           destruct (run_first_outcome event schedule ps0 i _ false
                       (Hinit i relay Hr Hc) (new_socket_in_phase relay))
             as (sf' & Hsf' & Hm).
           rewrite Hf in Hsf'. injection Hsf' as <-.
           simpl in Hi.
           destruct (first_outcome false (events_of i schedule)) as [o|].
           ++ destruct Hm as [Hres _]. rewrite Hres in Hi.
              f_equal. apply accepted_outcome_true.
              destruct (accepted_outcome o); [reflexivity | discriminate].
           ++ rewrite Hm in Hi. discriminate.
      * exfalso.
        assert (H0 : nth_error (p_socks ps0) i = None).
        { unfold ps0. rewrite initial_socket, Hr. reflexivity. }
        assert (Hk : forall sch ps,
                   nth_error (p_socks ps) i = None ->
                   nth_error (p_socks (run_schedule event sch ps)) i = None).
        { induction sch as [|[j e] rest IH]; intros ps Hp; simpl; auto.
          destruct (all_settled (p_socks ps)); auto.
          apply IH. rewrite deliver_at, Hp. reflexivity. }
        rewrite (Hk _ _ H0) in Hf. discriminate.
    + intros (i & relay & Hr & Hc & Ho). exists i.
      destruct (run_first_outcome event schedule ps0 i _ false
                  (Hinit i relay Hr Hc) (new_socket_in_phase relay))
        as (sf & Hsf & Hm).
      rewrite Ho in Hm. destruct Hm as [Hres _].
      rewrite nth_nth_error, Hsf. simpl. now rewrite Hres.
  - destruct (run_collects event schedule ps0) as (x2 & Hx2 & Fx2).
    exists (x1 ++ x2). split; [|split; [|split; [|split]]].
    + rewrite Hx2. simpl. now rewrite app_assoc.
    + apply Forall_app. split; auto.
      eapply Forall_impl; [|exact Fx2]. simpl. intros en [i Hi].
      apply initial_relay_at in Hi as [Hi _].
      eapply nth_error_In; eauto.
    + intros relay e Hin Hc. apply in_or_app. left. eauto.
    + intros i relay o Hr Hc Ho.
      destruct (run_first_outcome event schedule ps0 i _ false
                  (Hinit i relay Hr Hc) (new_socket_in_phase relay))
        as (sf & Hsf & Hm).
      rewrite Ho in Hm. destruct Hm as (_ & pre & post & Hp).
      rewrite Hx2 in Hp. simpl in Hp. injection Hp as Hp.
      apply app_inv_head in Hp. subst x2.
      exists (x1 ++ pre), post. now rewrite <- app_assoc.
    + intros relay Hc Hq.
      destruct (run_silent event relay schedule ps0) as (x2' & Hx2' & Hs2).
      { intros j e Hin Hj. apply (Hq j e Hin).
        apply initial_relay_at in Hj. tauto. }
      rewrite Hx2 in Hx2'. simpl in Hx2'. injection Hx2' as Hx2'.
      apply app_inv_head in Hx2'. subst x2'.
      rewrite for_target_app, Hs2, app_nil_r.
      clear - Tx1 Hc. induction Tx1 as [|en rest Hen _ IH]; simpl; auto.
      destruct (String.eqb_spec (Collector.e_target en) relay) as [Heq|Hne].
      * rewrite Heq in Hen. contradiction.
      * exact IH.
Qed.

Lemma publishToRelays_fan_out_witness :
  publishToRelays
    (fun r => if String.eqb r "not a url" then Some "SyntaxError" else None)
    [(0, EvOpen); (1, EvOpen);
     (1, EvMessage (Some (ok_frame "aa11" false "rate-limit: slow down")));
     (0, EvMessage (Some (ok_frame "aa11" true "")))]
    sample_event [sample_relay; "wss://busy.example"; "not a url"] (Some [])
  = (Some true,
     Some [Collector.mkEntry Collector.connection_error "not a url"
             (JStr "Connection failed: SyntaxError");
           Collector.mkEntry Collector.relay_rejection "wss://busy.example"
             (JStr "Rate limited: rate-limit: slow down")],
     [AWsConnect sample_relay; AWsConnect "wss://busy.example";
      AWsConnect "not a url";
      AWsSend sample_relay sample_event;
      AWsSend "wss://busy.example" sample_event;
      AWsClose "wss://busy.example"; AWsClose sample_relay])
  /\ exists i relay,
      nth_error [sample_relay; "wss://busy.example"; "not a url"] i = Some relay
      /\ (if String.eqb relay "not a url" then Some "SyntaxError" else None)
         = None
      /\ relay_outcome
           [(0, EvOpen); (1, EvOpen);
            (1, EvMessage (Some (ok_frame "aa11" false "rate-limit: slow down")));
            (0, EvMessage (Some (ok_frame "aa11" true "")))] i
         = Some Accepted.
Proof.
  split; [reflexivity|].
  exact (proj1 (proj1 (proj2 (publishToRelays_fan_out
                                (fun r => if String.eqb r "not a url"
                                          then Some "SyntaxError" else None)
                                [(0, EvOpen); (1, EvOpen);
                                 (1, EvMessage
                                       (Some (ok_frame "aa11" false
                                                       "rate-limit: slow down")));
                                 (0, EvMessage (Some (ok_frame "aa11" true "")))]
                                sample_event
                                [sample_relay; "wss://busy.example"; "not a url"]
                                [] (Some true)
                                (Some [Collector.mkEntry
                                         Collector.connection_error "not a url"
                                         (JStr "Connection failed: SyntaxError");
                                       Collector.mkEntry
                                         Collector.relay_rejection
                                         "wss://busy.example"
                                         (JStr "Rate limited: rate-limit: slow down")])
                                [AWsConnect sample_relay;
                                 AWsConnect "wss://busy.example";
                                 AWsConnect "not a url";
                                 AWsSend sample_relay sample_event;
                                 AWsSend "wss://busy.example" sample_event;
                                 AWsClose "wss://busy.example";
                                 AWsClose sample_relay]
                                eq_refl))
                      true eq_refl) eq_refl).
Defined.

(** C1, counterexamples to the claim as stated.  The relay accepts the
    connection and closes it without answering: [onclose] settles the
    promise with [false], the call returns [false], and when it returns
    nothing has been filed under the relay's address.  And a relay that
    answers with an accepting frame after its timer has fired is not
    counted: the call, still waiting for a second relay, returns [false]
    although the first relay has answered with an OK frame whose third
    element is [true]. *)
Lemma publishToRelays_close_unrecorded :
  (fst (fst (publishToRelays no_ctor_error [(0, EvOpen); (0, EvClose)]
               sample_event [sample_relay] (Some [])))
   = Some false
   /\ relay_outcome [(0, EvOpen); (0, EvClose)] 0 = Some Closed
   /\ option_map (Collector.for_target sample_relay)
        (snd (fst (publishToRelays no_ctor_error [(0, EvOpen); (0, EvClose)]
                     sample_event [sample_relay] (Some []))))
      = Some [])
  /\ (In (0, EvMessage (Some (ok_frame "aa11" true "")))
         [(0, EvOpen); (1, EvOpen); (0, EvTimeout);
          (0, EvMessage (Some (ok_frame "aa11" true ""))); (1, EvClose)]
      /\ publish_state no_ctor_error
           [(0, EvOpen); (1, EvOpen); (0, EvTimeout);
            (0, EvMessage (Some (ok_frame "aa11" true "")))]
           sample_event [sample_relay; "wss://slow.example"] (Some [])
         = mkP [Some (mkSock sample_relay CLOSING 0 (Some false));
                Some (mkSock "wss://slow.example" OPEN 1 None)]
               (Some [timeout_entry sample_relay])
               [AWsConnect sample_relay; AWsConnect "wss://slow.example";
                AWsSend sample_relay sample_event;
                AWsSend "wss://slow.example" sample_event;
                AWsClose sample_relay]
      /\ fst (fst (publishToRelays no_ctor_error
                     [(0, EvOpen); (1, EvOpen); (0, EvTimeout);
                      (0, EvMessage (Some (ok_frame "aa11" true "")));
                      (1, EvClose)]
                     sample_event [sample_relay; "wss://slow.example"]
                     (Some [])))
         = Some false).
Proof.
  split; [repeat split; reflexivity|].
  split; [right; right; right; left; reflexivity|].
  split; reflexivity.
Qed.





(** The text recorded for a rejection whose fourth element is [message]. *)
Lemma rejection_text_cases message :
  rate_limited (or_default (Some (JStr message)) (JStr "Unknown relay error"))
  = Some (includes (if truthy_string message then message
                    else "Unknown relay error") "rate-limit"
          || includes (if truthy_string message then message
                       else "Unknown relay error") "noting too much").
Proof.
  unfold or_default, rate_limited, truthy_json.
  destruct (truthy_string message); unfold includes_value.
  - destruct (includes message "rate-limit"); reflexivity.
  - reflexivity.
Qed.

(** C5, as the code has it.  On an open socket, an answer
    [["OK", id, false, msg]] settles the promise with [false], closes the
    socket and appends one rejection entry under the relay's address.  The
    text of the entry is [Unknown relay error] when [msg] is empty;
    otherwise it is [Rate limited: msg] when [msg] contains [rate-limit] or
    [noting too much], and [msg] itself when it contains neither. *)
Theorem rejection_classified event c s eventId msg :
  s_ready s = OPEN ->
  on_event event (Some c) s
    (EvMessage (Some (JArr [JStr "OK"; eventId; JBool false; JStr msg])))
  = (close (resolve false s),
     Some (c ++ [Collector.mkEntry Collector.relay_rejection (s_relay s)
                   (JStr (recorded_reason msg))]),
     [AWsClose (s_relay s)])
  /\ (msg <> "" ->
      recorded_reason msg
      = if includes msg "rate-limit" || includes msg "noting too much"
        then ("Rate limited: " ++ msg)%string
        else msg).
Proof.
  intros Hopen. split.
  - unfold on_event, onmessage. rewrite Hopen.
    change (is_ok_frame 3 true (JArr [JStr "OK"; eventId; JBool false; JStr msg]))
      with false.
    change (is_ok_frame 4 false (JArr [JStr "OK"; eventId; JBool false; JStr msg]))
      with true.
    cbv iota.
    change (index (JArr [JStr "OK"; eventId; JBool false; JStr msg]) 3)
      with (Some (JStr msg)).
    rewrite rejection_text_cases. unfold recorded_reason, or_default.
    simpl. unfold truthy_string.
    destruct (String.eqb msg ""); simpl; [reflexivity|].
    destruct (includes msg "rate-limit" || includes msg "noting too much");
      reflexivity.
  - intros Hmsg. unfold recorded_reason.
    destruct (String.eqb_spec msg ""); [contradiction | reflexivity].
Qed.

Lemma rejection_classified_witness :
  s_ready (mkSock sample_relay OPEN 1 None) = OPEN
  /\ on_event sample_event (Some []) (mkSock sample_relay OPEN 1 None)
       (EvMessage (Some (ok_frame "aa11" false "rate-limit: slow down")))
     = (mkSock sample_relay CLOSING 1 (Some false),
        Some [Collector.mkEntry Collector.relay_rejection sample_relay
                (JStr "Rate limited: rate-limit: slow down")],
        [AWsClose sample_relay]).
Proof.
  split; [reflexivity|].
  exact (proj1 (rejection_classified sample_event []
                  (mkSock sample_relay OPEN 1 None)
                  (JStr "aa11") "rate-limit: slow down" eq_refl)).
Defined.

(** C5, counterexample to the claim as stated: for an empty [msg] the
    recorded reason is not [msg] but the text [Unknown relay error]. *)
Lemma rejection_empty_message_replaced :
  snd (fst (publishToRelays no_ctor_error
              [(0, EvOpen); (0, EvMessage (Some (ok_frame "aa11" false "")))]
              sample_event [sample_relay] (Some [])))
  = Some [Collector.mkEntry Collector.relay_rejection sample_relay
            (JStr "Unknown relay error")]
  /\ JStr "Unknown relay error" <> JStr "".
Proof. split; [reflexivity | discriminate]. Qed.



(** ** The purge loop *)

Lemma concat_split {A : Type} (segments : list (list A)) pre x post :
  List.concat segments = pre ++ x :: post ->
  exists before seg after p q,
    segments = before ++ seg :: after
    /\ seg = p ++ x :: q
    /\ pre = List.concat before ++ p
    /\ post = q ++ List.concat after.
Proof.
  revert pre. induction segments as [|s rest IH]; intros pre H; simpl in H.
  - destruct pre; discriminate.
  - apply app_eq_app in H as [l [[H1 H2]|[H1 H2]]].
    + destruct l as [|y l].
      * simpl in H2. rewrite app_nil_r in H1.
        destruct (IH [] (eq_sym H2))
          as (before & seg & after & p & q & E1 & E2 & E3 & E4).
        exists (s :: before), seg, after, p, q. repeat split; auto.
        -- simpl. now f_equal.
        -- simpl. rewrite <- app_assoc, <- E3, app_nil_r. auto.
      * simpl in H2. inversion H2; subst.
        exists [], (pre ++ y :: l), rest, pre, l. repeat split; auto.
    + destruct (IH l H2) as (before & seg & after & p & q & E1 & E2 & E3 & E4).
      exists (s :: before), seg, after, p, q. repeat split; auto.
      * simpl. now f_equal.
      * simpl. rewrite <- app_assoc, <- E3. auto.
Qed.

Ltac run_cmd :=
  cbv beta iota zeta delta
      [bind now sign tick emit lift ret throw exit try_catch collecting];
  simpl.

Section Purge.

Variable E : env.
Variable signer : Signer.

Lemma publish_spec event relays st :
  exists ws,
    st_trace (snd (publish E event relays st))
    = st_trace st ++ APublish event relays :: ws
    /\ Forall (fun a => is_socket_action a = true) ws
    /\ (fst (publish E event relays st) = Hang
        \/ exists b, fst (publish E event relays st) = Val b).
Proof.
  unfold publish.
  pose proof (publishToRelays_trace (newWebSocket E)
                (socket_schedule E (st_tick st)) event relays
                (Some (st_collector st))) as (rest & Ht & Fr).
  destruct (publishToRelays (newWebSocket E) (socket_schedule E (st_tick st))
              event relays (Some (st_collector st))) as [[r mc] acts].
  simpl in Ht. exists acts. simpl. split; [reflexivity|]. split.
  - subst acts. apply Forall_app. split.
    + clear. induction relays; constructor; auto.
    + eapply Forall_impl; [|exact Fr]. simpl. tauto.
  - destruct r; eauto.
Qed.

Lemma deleteFromServer_spec sha path server st :
  exists seg st',
    deleteFromServer E signer sha path server st = (Val tt, st')
    /\ st_trace st' = st_trace st ++ seg
    /\ delete_segment E signer sha path server seg.
Proof.
  unfold deleteFromServer. run_cmd.
  destruct (signEvent E (S (S (st_tick st))) signer
              (deleteAuthTemplate (Date_now E (st_tick st))
                 (Date_now E (S (st_tick st))) sha path))
    as [deleteAuth|err] eqn:Hsign; simpl.
  - destruct (btoa E (JSON_stringify E deleteAuth)) as [encoded|] eqn:Hb; simpl.
    + repeat match goal with
             | |- context [match ?x with Ok _ => _ | Err _ => _ end] =>
                 destruct x; simpl
             | |- context [if ok ?r then _ else _] => destruct (ok r); simpl
             end;
        (eexists _, _; split; [reflexivity|]; simpl; split;
         [rewrite <- app_assoc; reflexivity | eapply DS_sent; eauto]).
    + eexists _, _. split; [reflexivity|]. simpl. split; [reflexivity|].
      apply DS_unsent.
  - eexists _, _. split; [reflexivity|]. simpl. split; [reflexivity|].
    apply DS_unsent.
Qed.

Lemma deleteFromServers_spec sha path all_servers servers st :
  incl servers all_servers ->
  exists segments st',
    deleteFromServers E signer sha path servers st = (Val tt, st')
    /\ st_trace st' = st_trace st ++ List.concat segments
    /\ Forall (fun seg => exists server,
                   In server all_servers
                   /\ delete_segment E signer sha path server seg) segments.
Proof.
  revert st. induction servers as [|server rest IH]; intros st Hincl; simpl.
  - exists [], st. simpl. rewrite app_nil_r. repeat split; constructor.
  - destruct (deleteFromServer_spec sha path server st) as (seg & st1 & H1 & T1 & D1).
    destruct (IH st1) as (segs & st2 & H2 & T2 & D2).
    { intros x Hx. apply Hincl. now right. }
    exists (seg :: segs), st2. unfold bind. rewrite H1, H2. simpl.
    split; [reflexivity|]. split.
    + rewrite T2, T1, app_assoc. reflexivity.
    + constructor; auto. exists server. split; auto. apply Hincl. now left.
Qed.

Local Opaque publish deleteFromServers.

Lemma purgeFile_spec relays servers file counts st :
  exists seg,
    st_trace (snd (purgeFile E signer relays servers file counts st))
    = st_trace st ++ seg
    /\ purge_segment E signer relays servers file seg.
Proof.
  unfold purgeFile, try_catch.
  destruct (f_event file) as [event|] eqn:Hev;
    [|exists []; simpl; rewrite app_nil_r; split; [reflexivity | constructor]].
  unfold with_truthy.
  destruct (f_sha256 file) as [sha|] eqn:Hsha;
    [|exists []; simpl; rewrite app_nil_r; split; [reflexivity | constructor]].
  destruct (truthy_string sha);
    [|exists []; simpl; rewrite app_nil_r; split; [reflexivity | constructor]].
  run_cmd.
  destruct (signEvent E (S (S (st_tick st))) signer
              (deletionEventTemplate (Date_now E (st_tick st))
                 (Date_now E (S (st_tick st))) (f_path file) (ev_id event)))
    as [deletionEvent|err] eqn:Hsign; simpl.
  - match goal with
    | |- context [publish E deletionEvent relays ?s] =>
        destruct (publish_spec deletionEvent relays s) as (ws & Tw & Fw & Hr);
        destruct (publish E deletionEvent relays s) as [r st1]
    end.
    simpl in Tw, Hr.
    destruct Hr as [->|[b ->]].
    + eexists. simpl. split.
      * rewrite Tw. rewrite <- app_assoc. simpl. reflexivity.
      * rewrite <- (app_nil_r ws).
        apply PS_published with (sha := sha) (segments := []); auto.
    + destruct (deleteFromServers_spec sha (f_path file) servers servers st1)
        as (segs & st2 & H2 & T2 & D2); [apply incl_refl|].
      rewrite H2. simpl. eexists. split.
      * rewrite T2, Tw. rewrite <- !app_assoc. simpl. reflexivity.
      * apply PS_published with (sha := sha); auto.
  - eexists. simpl. split; [reflexivity|].
    now apply PS_unsigned.
Qed.

Local Transparent publish deleteFromServers.

Lemma purgeLoop_spec relays servers files counts st :
  exists segments,
    st_trace (snd (purgeLoop E signer relays servers files counts st))
    = st_trace st ++ List.concat segments
    /\ Forall (fun seg => exists file,
                   In file files
                   /\ purge_segment E signer relays servers file seg) segments.
Proof.
  revert counts st. induction files as [|file rest IH]; intros counts st; simpl.
  - exists []. simpl. rewrite app_nil_r. split; constructor.
  - destruct (purgeFile_spec relays servers file counts st) as (seg & T1 & P1).
    unfold bind.
    destruct (purgeFile E signer relays servers file counts st) as [[c| | |] st1];
      simpl in *;
      try (exists [seg]; simpl; rewrite app_nil_r; split; auto;
           constructor; [exists file; split; [now left | auto] | constructor]).
    destruct (IH c st1) as (segs & T2 & P2).
    exists (seg :: segs). simpl. split.
    + rewrite T2, T1, app_assoc. reflexivity.
    + constructor; [exists file; split; [now left | auto]|].
      eapply Forall_impl; [|exact P2]. simpl. intros a (f & Hf & Hp).
      exists f. split; [now right | auto].
Qed.

End Purge.

Lemma delete_segment_no_publish E signer sha path server seg :
  delete_segment E signer sha path server seg ->
  Forall (fun a => is_publish a = false) seg.
Proof. intros []; repeat constructor. Qed.

Lemma socket_action_not_publish a :
  is_socket_action a = true -> is_publish a = false.
Proof. destruct a; simpl; auto; discriminate. Qed.

(** Where a request found in the trace of the purge loop comes from. *)
Lemma purge_fetch_located E signer relays servers files segments
      pre m url auth post :
  Forall (fun seg => exists file,
              In file files /\ purge_segment E signer relays servers file seg)
         segments ->
  List.concat segments = pre ++ AFetch m url auth :: post ->
  exists file event sha server t deletionEvent u deleteAuth encoded
         before between,
    In file files /\ f_event file = Some event /\ f_sha256 file = Some sha
    /\ In server servers
    /\ m = "DELETE" /\ url = (serverUrl server ++ sha)%string
    /\ auth = Some ("Nostr " ++ encoded)%string
    /\ signEvent E (S (S t)) signer
         (deletionEventTemplate (Date_now E t) (Date_now E (S t))
            (f_path file) (ev_id event)) = Ok deletionEvent
    /\ signEvent E (S (S u)) signer
         (deleteAuthTemplate (Date_now E u) (Date_now E (S u)) sha (f_path file))
       = Ok deleteAuth
    /\ btoa E (JSON_stringify E deleteAuth) = Some encoded
    /\ pre = before
             ++ ASignEvent (deletionEventTemplate (Date_now E t) (Date_now E (S t))
                              (f_path file) (ev_id event))
             :: APublish deletionEvent relays
             :: between
             ++ [ASignEvent (deleteAuthTemplate (Date_now E u) (Date_now E (S u))
                               sha (f_path file))]
    /\ Forall (fun a => is_publish a = false) between.
Proof.
  intros Hsegs Hcat.
  apply concat_split in Hcat
    as (sbefore & seg & safter & p & q & Es & Eseg & Epre & Epost).
  subst segments. apply Forall_app in Hsegs as [_ Hseg].
  inversion Hseg as [|? ? (file & Hfile & Hps) _]; subst.
  inversion Hps as [Hnil | event t Hev Hone
                    | event sha t deletionEvent ws dsegs
                            Hev Hsha Hsign Hws Hd Htwo].
  - destruct p; discriminate.
  - destruct p as [|a [|b p]]; discriminate.
  - destruct p as [|a [|b p]]; try discriminate.
    injection Htwo as Ea Eb Erest. subst a b.
    apply app_eq_app in Erest as [l [[E1 E2]|[E1 E2]]].
    + (* the request would be one of the socket actions *)
      exfalso. destruct l as [|y l].
      * rewrite app_nil_r in E1. subst ws. simpl in E2.
        (* the request starts the server segments: located below *)
        destruct dsegs as [|d dsegs]; [discriminate|].
        inversion Hd as [|? ? (server & _ & Hds) _]; subst.
        simpl in E2. inversion Hds; subst; discriminate.
      * simpl in E2. injection E2 as Ey _. subst y ws.
        apply Forall_app in Hws as [_ Hws]. inversion Hws; subst.
        discriminate.
    + subst p. apply concat_split in E2
        as (dbefore & dseg & dafter & p2 & q2 & Ed & Edseg & El & _).
      subst dsegs l. apply Forall_app in Hd as [Hdb Hdseg].
      inversion Hdseg as [|? ? (server & Hserver & Hds) _]; subst.
      inversion Hds as [u Hu | u deleteAuth encoded Hsa Hb Hu].
      * destruct p2 as [|a [|b p2]]; discriminate.
      * destruct p2 as [|a [|b p2]];
          [discriminate | | exfalso; injection Hu as _ _ Hu;
                            destruct p2; discriminate].
        injection Hu as Ea Em Eu Eauth Eq. subst.
        exists file, event, sha, server, t, deletionEvent,
          u, deleteAuth, encoded, (List.concat sbefore),
          (ws ++ List.concat dbefore).
        repeat split; auto.
        -- simpl. rewrite <- !app_assoc. reflexivity.
        -- apply Forall_app. split.
           ++ eapply Forall_impl; [|exact Hws].
              intros a. apply socket_action_not_publish.
           ++ clear - Hdb. induction Hdb as [|d ds (srv & _ & Hd) _ IH]; simpl.
              ** constructor.
              ** apply Forall_app. split; auto.
                 eapply delete_segment_no_publish; eauto.
Qed.

Lemma purgeLoop_app E signer relays servers before after counts st :
  purgeLoop E signer relays servers (before ++ after) counts st
  = bind (purgeLoop E signer relays servers before counts)
         (fun counts' => purgeLoop E signer relays servers after counts') st.
Proof.
  revert counts st. induction before as [|file rest IH]; intros counts st; simpl.
  - reflexivity.
  - unfold bind.
    destruct (purgeFile E signer relays servers file counts st) as [[c| | |] st1];
      auto.
Qed.

(** ** Claims about the purge *)

(** C10.  An entry of the to-delete list without source record, or whose
    hash is missing or empty, only increments [failed]: the iteration makes
    no external call, performs no action and leaves the collector as it
    was, and the loop goes on with the entries that follow, wherever in the
    list the entry stands. *)
Theorem purge_skips_incomplete_entry E signer relays servers file counts st :
  f_event file = None \/ truthy (f_sha256 file) = false ->
  purgeFile E signer relays servers file counts st
  = (Val (fst counts, S (snd counts)), st)
  /\ (forall rest,
        purgeLoop E signer relays servers (file :: rest) counts st
        = purgeLoop E signer relays servers rest (fst counts, S (snd counts)) st)
  /\ (forall before rest st0 counts0,
        purgeLoop E signer relays servers before counts0 st0 = (Val counts, st) ->
        purgeLoop E signer relays servers (before ++ file :: rest) counts0 st0
        = purgeLoop E signer relays servers rest (fst counts, S (snd counts)) st).
Proof.
  intros H.
  assert (Hfile : purgeFile E signer relays servers file counts st
                  = (Val (fst counts, S (snd counts)), st)).
  { unfold purgeFile, try_catch, with_truthy.
    destruct (f_event file) as [event|]; [|reflexivity].
    destruct H as [H|H]; [discriminate|].
    destruct (f_sha256 file) as [sha|]; [|reflexivity].
    simpl in H. rewrite H. reflexivity. }
  split; [exact Hfile|]. split.
  - intros rest. simpl. unfold bind. rewrite Hfile. reflexivity.
  - intros before rest st0 counts0 Hb.
    rewrite purgeLoop_app. unfold bind at 1. rewrite Hb.
    simpl. unfold bind. rewrite Hfile. reflexivity.
Qed.

Lemma purge_skips_incomplete_entry_witness :
  (f_event (local_file "/old.html" "c0ffee") = None
   \/ truthy (f_sha256 (local_file "/old.html" "c0ffee")) = false)
  /\ purgeFile (sample_env false false false true [] [])
       (PrivateKeySigner "nsec1") [sample_relay] ["https://blossom.example"]
       (local_file "/old.html" "c0ffee") (0, 0) initial_state
     = (Val (0, 1), initial_state).
Proof.
  split; [left; reflexivity|].
  exact (proj1 (purge_skips_incomplete_entry
                  (sample_env false false false true [] [])
                  (PrivateKeySigner "nsec1") [sample_relay]
                  ["https://blossom.example"]
                  (local_file "/old.html" "c0ffee") (0, 0) initial_state
                  (or_introl eq_refl))).
Defined.

(** C3, as the code has it.  Every request the purge loop sends is a
    DELETE issued while one entry of the to-delete list is processed, for
    that entry's hash on one of the servers; before it, in the same
    iteration, the kind-5 record referencing that entry's announcement was
    signed and handed to [publishToRelays], and no other record was handed
    to the relays in between.  (Nothing is said about requests for the
    same hash sent in an earlier iteration for another entry.) *)
Theorem purge_deletion_record_first E signer relays servers files counts st :
  exists added,
    st_trace (snd (purgeLoop E signer relays servers files counts st))
    = st_trace st ++ added
    /\ forall pre m url auth post,
        added = pre ++ AFetch m url auth :: post ->
        exists file event sha server t deletionEvent before between,
          In file files /\ f_event file = Some event
          /\ f_sha256 file = Some sha /\ In server servers
          /\ m = "DELETE" /\ url = (serverUrl server ++ sha)%string
          /\ signEvent E (S (S t)) signer
               (deletionEventTemplate (Date_now E t) (Date_now E (S t))
                  (f_path file) (ev_id event)) = Ok deletionEvent
          /\ pre = before
                   ++ ASignEvent
                        (deletionEventTemplate (Date_now E t) (Date_now E (S t))
                           (f_path file) (ev_id event))
                   :: APublish deletionEvent relays :: between
          /\ Forall (fun a => is_publish a = false) between.
Proof.
  destruct (purgeLoop_spec E signer relays servers files counts st)
    as (segments & Ht & Hs).
  exists (List.concat segments). split; [exact Ht|].
  intros pre m url auth post Heq.
  destruct (purge_fetch_located E signer relays servers files segments
              pre m url auth post Hs Heq)
    as (file & event & sha & server & t & deletionEvent & u & deleteAuth
        & encoded & before & between & H1 & H2 & H3 & H4 & H5 & H6 & H7 & H8
        & H9 & H10 & H11 & H12).
  exists file, event, sha, server, t, deletionEvent, before,
    (between ++ [ASignEvent (deleteAuthTemplate (Date_now E u)
                               (Date_now E (S u)) sha (f_path file))]).
  repeat split; auto.
  apply Forall_app. split; auto.
Qed.

Lemma purge_deletion_record_first_witness :
  exists added,
    st_trace (snd (purgeLoop (sample_env false false false true [] [])
                     (PrivateKeySigner "nsec1") [sample_relay]
                     ["https://blossom.example"]
                     [remote_file "/b.html" "c0ffee" "e2"] (0, 0) initial_state))
    = st_trace initial_state ++ added.
Proof.
  destruct (purge_deletion_record_first
              (sample_env false false false true [] [])
              (PrivateKeySigner "nsec1") [sample_relay]
              ["https://blossom.example"]
              [remote_file "/b.html" "c0ffee" "e2"] (0, 0) initial_state)
    as (added & H & _).
  exists added. exact H.
Defined.

(** C3, counterexample to the claim as stated: two entries of the
    to-delete list have the same content.  The DELETE request for their
    hash sent while the first entry is processed precedes the publication
    of the deletion record that references the second entry's
    announcement. *)
Lemma purge_shared_hash_deleted_early :
  let tr :=
    st_trace (snd (purgeLoop (sample_env false false false true [] [])
                     (PrivateKeySigner "nsec1") [sample_relay]
                     ["https://blossom.example"]
                     [remote_file "/a.html" "c0ffee" "e1";
                      remote_file "/b.html" "c0ffee" "e2"]
                     (0, 0) initial_state)) in
  position (is_delete_request "c0ffee") tr = Some 6
  /\ position (publishes_deletion_of "e2") tr = Some 8.
Proof. vm_compute. split; reflexivity. Qed.

Lemma endsWith_suffix s suffix :
  endsWith s suffix = true -> exists base, s = (base ++ suffix)%string.
Proof.
  induction s as [|c s IH]; cbn [endsWith].
  - rewrite orb_false_r. intros H. apply String.eqb_eq in H. subst.
    exists "". reflexivity.
  - intros H. apply orb_true_iff in H as [H|H].
    + apply String.eqb_eq in H. exists "". simpl. exact H.
    + destruct (IH H) as [base ->]. exists (String c base). reflexivity.
Qed.

Lemma string_app_assoc (a b c : string) :
  ((a ++ b) ++ c = a ++ b ++ c)%string.
Proof. induction a as [|x a IH]; simpl; [|rewrite IH]; reflexivity. Qed.

Lemma serverUrl_slash server sha :
  (serverUrl server ++ sha)%string
  = (if endsWith server "/" then server ++ sha else server ++ "/" ++ sha)%string
  /\ exists base,
      (serverUrl server ++ sha = base ++ "/" ++ sha)%string
      /\ if endsWith server "/" then server = (base ++ "/")%string
         else server = base.
Proof.
  unfold serverUrl. destruct (endsWith server "/") eqn:He.
  - split; [reflexivity|]. destruct (endsWith_suffix _ _ He) as [base ->].
    exists base. split; [apply string_app_assoc | reflexivity].
  - split; [apply string_app_assoc|]. exists server.
    split; [apply string_app_assoc | reflexivity].
Qed.

(** C8, as the code has it.  Every request sent during the purge is a
    DELETE for [base/hash], where the server is configured as [base] or as
    [base/]: the slash is added only when the address does not end with
    one.  Its [Authorization] header is [Nostr ] followed by the base64
    encoding of the JSON text of the record the signer returned, just
    before the request, for a template of kind 24242 with the tags
    [t = delete], [x = hash] and [expiration].  The template reads the
    clock twice: [created_at] is the first reading in seconds, the
    expiration the second reading in seconds plus 120.  With a clock that
    does not go back the expiration is at least 120 seconds after
    [created_at], and exactly 120 seconds after it when both readings fall
    in the same second; the moment the signer signs plays no part. *)
Theorem purge_delete_requests_authorized E signer relays servers files counts st :
  exists added,
    st_trace (snd (purgeLoop E signer relays servers files counts st))
    = st_trace st ++ added
    /\ forall pre m url auth post,
        added = pre ++ AFetch m url auth :: post ->
        exists file sha server u deleteAuth encoded before base,
          In file files /\ f_sha256 file = Some sha /\ In server servers
          /\ m = "DELETE"
          /\ url = (base ++ "/" ++ sha)%string
          /\ (if endsWith server "/" then server = (base ++ "/")%string
              else server = base)
          /\ auth = Some ("Nostr " ++ encoded)%string
          /\ btoa E (JSON_stringify E deleteAuth) = Some encoded
          /\ signEvent E (S (S u)) signer
               (deleteAuthTemplate (Date_now E u) (Date_now E (S u))
                  sha (f_path file)) = Ok deleteAuth
          /\ pre = before
                   ++ [ASignEvent
                         (deleteAuthTemplate (Date_now E u) (Date_now E (S u))
                            sha (f_path file))]
          /\ deleteAuthTemplate (Date_now E u) (Date_now E (S u))
               sha (f_path file)
             = mkTemplate 24242 (Date_now E u / 1000)
                 ("nsyte: delete file: " ++ sha ++ " | " ++ f_path file)
                 [ ["t"; "delete"]; ["x"; sha];
                   ["expiration";
                    string_of_Z (Date_now E (S u) / 1000 + 120)] ]
          /\ ((Date_now E u <= Date_now E (S u))%Z ->
              (Date_now E u / 1000 + 120 <= Date_now E (S u) / 1000 + 120)%Z)
          /\ ((Date_now E u / 1000 = Date_now E (S u) / 1000)%Z ->
              (Date_now E (S u) / 1000 + 120 = Date_now E u / 1000 + 120)%Z).
Proof.
  destruct (purgeLoop_spec E signer relays servers files counts st)
    as (segments & Ht & Hs).
  exists (List.concat segments). split; [exact Ht|].
  intros pre m url auth post Heq.
  destruct (purge_fetch_located E signer relays servers files segments
              pre m url auth post Hs Heq)
    as (file & event & sha & server & t & deletionEvent & u & deleteAuth
        & encoded & before & between & H1 & H2 & H3 & H4 & H5 & H6 & H7 & H8
        & H9 & H10 & H11 & H12).
  destruct (serverUrl_slash server sha) as (_ & base & Hb1 & Hb2).
  exists file, sha, server, u, deleteAuth, encoded,
    (before
       ++ ASignEvent (deletionEventTemplate (Date_now E t) (Date_now E (S t))
                        (f_path file) (ev_id event))
       :: APublish deletionEvent relays :: between), base.
  repeat split; auto.
  - congruence.
  - rewrite H11. rewrite <- app_assoc. reflexivity.
  - intros Hle. apply Z.add_le_mono_r. apply Z.div_le_mono; lia.
  - intros Heq'. now rewrite Heq'.
Qed.

Lemma purge_delete_requests_authorized_witness :
  exists file sha server u deleteAuth encoded before base,
    In file [remote_file "/b.html" "c0ffee" "e2"]
    /\ f_sha256 file = Some sha
    /\ In server ["https://blossom.example"]
    /\ "DELETE" = "DELETE"
    /\ "https://blossom.example/c0ffee" = (base ++ "/" ++ sha)%string
    /\ (if endsWith server "/" then server = (base ++ "/")%string
        else server = base)
    /\ Some "Nostr id6" = Some ("Nostr " ++ encoded)%string
    /\ btoa (sample_env false false false true [] [])
            (JSON_stringify (sample_env false false false true [] [])
                            deleteAuth) = Some encoded
    /\ signEvent (sample_env false false false true [] []) (S (S u))
         (PrivateKeySigner "nsec1")
         (deleteAuthTemplate
            (Date_now (sample_env false false false true [] []) u)
            (Date_now (sample_env false false false true [] []) (S u))
            sha (f_path file)) = Ok deleteAuth
    /\ [ASignEvent
          (deletionEventTemplate 1700000000000 1700000000001 "/b.html" "e2");
        APublish (mkEvent "id2" "pk" 1700000000 5
                          [["e"; "e2"]; ["expiration"; "1700000120"]]
                          "nsyte: delete file event: /b.html" "sig")
                 [sample_relay];
        AWsConnect sample_relay;
        AWsSend sample_relay
                (mkEvent "id2" "pk" 1700000000 5
                         [["e"; "e2"]; ["expiration"; "1700000120"]]
                         "nsyte: delete file event: /b.html" "sig");
        AWsClose sample_relay;
        ASignEvent
          (deleteAuthTemplate 1700000000004 1700000000005 "c0ffee" "/b.html")]
       = before
         ++ [ASignEvent
               (deleteAuthTemplate
                  (Date_now (sample_env false false false true [] []) u)
                  (Date_now (sample_env false false false true [] []) (S u))
                  sha (f_path file))].
Proof.
  destruct (purge_delete_requests_authorized
              (sample_env false false false true [] [])
              (PrivateKeySigner "nsec1") [sample_relay]
              ["https://blossom.example"]
              [remote_file "/b.html" "c0ffee" "e2"] (0, 0) initial_state)
    as (added & Htrace & Hreq).
  vm_compute in Htrace. subst added.
  destruct (Hreq
              [ASignEvent
                 (deletionEventTemplate 1700000000000 1700000000001
                    "/b.html" "e2");
               APublish (mkEvent "id2" "pk" 1700000000 5
                                 [["e"; "e2"]; ["expiration"; "1700000120"]]
                                 "nsyte: delete file event: /b.html" "sig")
                        [sample_relay];
               AWsConnect sample_relay;
               AWsSend sample_relay
                       (mkEvent "id2" "pk" 1700000000 5
                                [["e"; "e2"]; ["expiration"; "1700000120"]]
                                "nsyte: delete file event: /b.html" "sig");
               AWsClose sample_relay;
               ASignEvent
                 (deleteAuthTemplate 1700000000004 1700000000005
                    "c0ffee" "/b.html")]
              "DELETE" "https://blossom.example/c0ffee" (Some "Nostr id6")
              [] eq_refl)
    as (file & sha & server & u & deleteAuth & encoded & before & base
        & H1 & H2 & H3 & H4 & H5 & H6 & H7 & H8 & H9 & H10 & _).
  exists file, sha, server, u, deleteAuth, encoded, before, base.
  repeat split; assumption.
Defined.

(** C8, counterexample to the claim as stated: the clock passes from
    999 ms to 1000 ms between the two readings of the template.  The
    record handed to the signer has [created_at = 0] and expires at 121,
    one second later than 120 seconds after its creation, and the DELETE
    request is sent with that record. *)
Lemma delete_expiration_exceeds_120_seconds :
  let E := with_clock (fun t => 995 + Z.of_nat t)%Z
                      (sample_env false false false true [] []) in
  let tr :=
    st_trace (snd (purgeLoop E (PrivateKeySigner "nsec1") [sample_relay]
                     ["https://blossom.example"]
                     [remote_file "/b.html" "c0ffee" "e2"]
                     (0, 0) initial_state)) in
  nth_error tr 5
  = Some (ASignEvent
            (mkTemplate 24242 0 "nsyte: delete file: c0ffee | /b.html"
               [["t"; "delete"]; ["x"; "c0ffee"]; ["expiration"; "121"]]))
  /\ nth_error tr 6
     = Some (AFetch "DELETE" "https://blossom.example/c0ffee"
                    (Some "Nostr id6"))
  /\ (121 <> 0 + 120)%Z.
Proof. vm_compute. repeat split; discriminate. Qed.

(** ** Actions of the command before it transfers anything *)

Lemma extends_quietly_refl st : extends_quietly st st.
Proof. exists []. rewrite app_nil_r. split; [reflexivity | constructor]. Qed.

Lemma extends_quietly_trans st1 st2 st3 :
  extends_quietly st1 st2 -> extends_quietly st2 st3 -> extends_quietly st1 st3.
Proof.
  intros (a & Ha & Fa) (b & Hb & Fb). exists (a ++ b). split.
  - now rewrite Hb, Ha, app_assoc.
  - apply Forall_app. auto.
Qed.

Lemma quiet_ret {A : Type} (a : A) : quiet (ret a).
Proof. intros st. apply extends_quietly_refl. Qed.

Lemma quiet_exit {A : Type} c : quiet (@exit A c).
Proof. intros st. apply extends_quietly_refl. Qed.

Lemma quiet_throw {A : Type} e : quiet (@throw A e).
Proof. intros st. apply extends_quietly_refl. Qed.

Lemma quiet_lift {A : Type} (r : result A) : quiet (lift r).
Proof. destruct r; [apply quiet_ret | apply quiet_throw]. Qed.

Lemma quiet_tick : quiet tick.
Proof.
  intros st. exists []. simpl. rewrite app_nil_r.
  split; [reflexivity | constructor].
Qed.

Lemma quiet_collecting f : quiet (collecting f).
Proof.
  intros st. exists []. simpl. rewrite app_nil_r.
  split; [reflexivity | constructor].
Qed.

Lemma quiet_emit a : is_transfer a = false -> quiet (emit a).
Proof. intros H st. exists [a]. simpl. split; [reflexivity | now constructor]. Qed.

Lemma quiet_bind {A B : Type} (m : M A) (k : A -> M B) :
  quiet m -> (forall a, quiet (k a)) -> quiet (bind m k).
Proof.
  intros Hm Hk st. unfold bind. specialize (Hm st).
  destruct (m st) as [[a| | |] st1]; simpl in *; auto.
  eapply extends_quietly_trans; [exact Hm | apply Hk].
Qed.

Lemma quiet_try_catch {A : Type} (m : M A) (h : string -> M A) :
  quiet m -> (forall e, quiet (h e)) -> quiet (try_catch m h).
Proof.
  intros Hm Hh st. unfold try_catch. specialize (Hm st).
  destruct (m st) as [[a| | |] st1]; simpl in *; auto.
  eapply extends_quietly_trans; [exact Hm | apply Hh].
Qed.

Lemma quiet_with_truthy {A : Type} o (yes : string -> M A) (no : M A) :
  (forall s, quiet (yes s)) -> quiet no -> quiet (with_truthy o yes no).
Proof.
  intros Hy Hn. unfold with_truthy. destruct o as [s|]; auto.
  destruct (truthy_string s); auto.
Qed.

Create HintDb quiet.
#[local] Hint Resolve quiet_ret quiet_exit quiet_throw quiet_lift quiet_tick
  quiet_collecting : quiet.

Ltac quiet_step :=
  first
    [ apply quiet_bind; [|intros]
    | apply quiet_try_catch; [|intros]
    | apply quiet_with_truthy; [intros|]
    | apply quiet_emit; reflexivity
    | solve [auto with quiet]
    | match goal with
      | |- quiet (match ?x with _ => _ end) => destruct x
      | |- quiet (let (_, _) := ?x in _) => destruct x
      end ].

Section Quiet.

Variable E : env.

Lemma quiet_prepare fileOrFolder options : quiet (prepare E fileOrFolder options).
Proof.
  unfold prepare, getProjectContext, requireProjectData, selectSigner,
    copyFallback, scanLocalFiles, promptForBunker, useNbunk, usePrivateKey,
    useBunkerUrl.
  repeat quiet_step.
Qed.

Lemma quiet_probeServers sha servers : quiet (probeServers E sha servers).
Proof.
  induction servers as [|server rest IH]; simpl.
  - apply quiet_ret.
  - repeat quiet_step; auto.
Qed.

Lemma quiet_headProbe options servers localFiles remoteFiles :
  quiet (headProbe E options servers localFiles remoteFiles).
Proof.
  unfold headProbe.
  destruct remoteFiles; [destruct localFiles|]; try apply quiet_ret.
  apply quiet_with_truthy; [intros sha | apply quiet_ret].
  apply quiet_bind; [apply quiet_probeServers|].
  intros [alreadyExists message]. repeat quiet_step.
Qed.

Lemma quiet_nothing_to_do d : quiet (nothing_to_do E d).
Proof. unfold nothing_to_do. repeat quiet_step. Qed.

Lemma quiet_decide options remoteFiles d message :
  quiet (decide E options remoteFiles d message).
Proof.
  unfold decide. pose proof (quiet_nothing_to_do d). repeat quiet_step; auto.
Qed.

Lemma quiet_checkChanges options remoteFiles d message :
  quiet (checkChanges E options remoteFiles d message).
Proof.
  unfold checkChanges. pose proof (quiet_decide options remoteFiles d message).
  repeat quiet_step; auto.
Qed.

(** The probe never throws and never exits. *)
Lemma probeServers_returns sha servers st :
  exists v, fst (probeServers E sha servers st) = Val v.
Proof.
  revert st. induction servers as [|server rest IH]; intros st; simpl.
  - eexists. reflexivity.
  - run_cmd.
    repeat match goal with
           | |- context [match ?x with Ok _ => _ | Err _ => _ end] =>
               destruct x; simpl
           | |- context [if ok ?r then _ else _] => destruct (ok r); simpl
           | |- context [if isInteractive E then _ else _] =>
               destruct (isInteractive E); simpl
           end; eauto.
Qed.

Lemma headProbe_returns options servers localFiles remoteFiles st :
  exists message, fst (headProbe E options servers localFiles remoteFiles st)
                  = Val message.
Proof.
  unfold headProbe.
  destruct remoteFiles; [destruct localFiles as [|file others]|];
    try (eexists; reflexivity).
  unfold with_truthy. destruct (f_sha256 file) as [sha|];
    [|eexists; reflexivity].
  destruct (truthy_string sha); [|eexists; reflexivity].
  unfold bind. destruct (probeServers_returns sha servers st) as [[ae msg] Hv].
  destruct (probeServers E sha servers st) as [r st1]. simpl in Hv. subst r.
  destruct (ae && negb (force options)); eexists; reflexivity.
Qed.

End Quiet.

(** ** The comparison and the decision to go on *)

Section Changes.

Variable E : env.

Lemma compareFiles_no_remote localFiles :
  compareFiles localFiles [] = mkDiff localFiles [] [].
Proof.
  unfold compareFiles. simpl. f_equal.
  - induction localFiles as [|f rest IH]; simpl; [|rewrite IH]; reflexivity.
  - induction localFiles as [|f rest IH]; simpl; auto.
Qed.

Lemma nothing_to_do_exits d st :
  fst (nothing_to_do E d st) = Exit 0.
Proof. unfold nothing_to_do. destruct (existing d); reflexivity. Qed.

(** When the condition of line 414 holds, neither [--force] nor a
    confirmation is given, the run ends with status 0. *)
Lemma decide_stops options remoteFiles d message st :
  (toTransfer d = [] /\ (purge options = false \/ toDelete d = []))
  \/ (remoteFiles = [] /\ truthy_string message = true) ->
  force options = false ->
  nonInteractive options = true \/ Confirm_prompt E = Ok false ->
  fst (decide E options remoteFiles d message st) = Exit 0.
Proof.
  intros Hcond Hforce Hno. unfold decide. rewrite Hforce.
  match goal with
  | |- context [if ?c then _ else ret (toTransfer d)] =>
      assert (Hc : c = true)
  end.
  { destruct Hcond as [[Ht Hd]|[Hr Hm]].
    - rewrite Ht. destruct Hd as [Hp|Hd].
      + rewrite Hp. reflexivity.
      + rewrite Hd. simpl. now rewrite orb_true_r.
    - rewrite Hr, Hm. simpl. now rewrite orb_true_r. }
  rewrite Hc. unfold bind at 1. simpl.
  destruct (nonInteractive options) eqn:Hni; simpl.
  - apply nothing_to_do_exits.
  - destruct Hno as [Hno|Hno]; [discriminate|].
    rewrite Hno. unfold bind. simpl. apply nothing_to_do_exits.
Qed.

Lemma checkChanges_stops options remoteFiles d message st :
  (toTransfer d = [] /\ (purge options = false \/ toDelete d = []))
  \/ (remoteFiles = [] /\ truthy_string message = true) ->
  force options = false ->
  nonInteractive options = true \/ Confirm_prompt E = Ok false ->
  fst (checkChanges E options remoteFiles d message st) = Exit 0.
Proof.
  intros Hcond Hforce Hno.
  assert (Hall : forall s, fst (decide E options remoteFiles d message s) = Exit 0)
    by (intros s; now apply decide_stops).
  unfold checkChanges, bind.
  destruct (truthy_string message); simpl;
    match goal with
    | |- context [decide E options remoteFiles d message ?s] =>
        pose proof (Hall s) as Hd;
        destruct (decide E options remoteFiles d message s) as [r st']
    end; simpl in Hd; subst r; reflexivity.
Qed.

Lemma checkChanges_reports options remoteFiles d message st :
  truthy_string message = true ->
  In (AConsoleLog message)
     (st_trace (snd (checkChanges E options remoteFiles d message st))).
Proof.
  intros Hm. unfold checkChanges, bind. rewrite Hm. simpl.
  match goal with
  | |- context [decide E options remoteFiles d message ?s] =>
      destruct (quiet_decide E options remoteFiles d message s) as (added & Ha & _);
      destruct (decide E options remoteFiles d message s) as [[v| | |] st']
  end; simpl in *; rewrite Ha; apply in_or_app; left; apply in_or_app; right;
    now left.
Qed.

(** With [--force] and something to transfer the command keeps the computed
    list. *)
Lemma checkChanges_passes options remoteFiles d message st :
  force options = true ->
  toTransfer d <> [] ->
  fst (checkChanges E options remoteFiles d message st) = Val (toTransfer d).
Proof.
  intros Hforce Hne. unfold checkChanges, decide, bind. rewrite Hforce.
  destruct (toTransfer d) as [|f rest] eqn:Ht; [contradiction|].
  simpl. rewrite !andb_false_r. simpl.
  destruct (truthy_string message); reflexivity.
Qed.

(** The probe finds the blob as soon as one server answers the HEAD request
    with a 2xx status. *)
Lemma probeServers_hit sha servers st k server response :
  nth_error servers k = Some server ->
  fetch E (st_tick st + k) "HEAD" (serverUrl server ++ sha) None = Ok response ->
  ok response = true ->
  exists message, fst (probeServers E sha servers st) = Val (true, message).
Proof.
  revert st k. induction servers as [|first rest IH]; intros st k Hk Hf Hok.
  - destruct k; discriminate.
  - simpl. run_cmd.
    destruct (fetch E (st_tick st) "HEAD" (serverUrl first ++ sha) None)
      as [r|err] eqn:Hfirst; simpl.
    + destruct (ok r) eqn:Hr; simpl.
      * destruct (isInteractive E); simpl; eexists; reflexivity.
      * destruct k as [|k].
        -- simpl in Hk. injection Hk as ->. rewrite Nat.add_0_r in Hf.
           rewrite Hf in Hfirst. injection Hfirst as ->. congruence.
        -- simpl in Hk. eapply IH; eauto. simpl.
           now rewrite Nat.add_succ_r in Hf.
    + destruct k as [|k].
      * simpl in Hk. injection Hk as ->. rewrite Nat.add_0_r in Hf. congruence.
      * simpl in Hk. eapply IH; eauto. simpl.
        now rewrite Nat.add_succ_r in Hf.
Qed.

End Changes.

(** ** Claims about the decision to go on *)

(** C6, as the code has it.  When nothing is to be uploaded, nothing is to
    be deleted, [--force] is not given, and the run is non-interactive or
    the user answers no to the prompt, the command ends with
    [Deno.exit(0)]; up to that point it has uploaded nothing, signed
    nothing, published nothing and sent no request other than HEAD. *)
Theorem no_changes_exit E fileOrFolder options st p st1 :
  prepare E fileOrFolder options st = (Val p, st1) ->
  toTransfer (compareFiles (p_localFiles p) (p_remoteFiles p)) = [] ->
  toDelete (compareFiles (p_localFiles p) (p_remoteFiles p)) = [] ->
  force options = false ->
  nonInteractive options = true \/ Confirm_prompt E = Ok false ->
  exists st',
    uploadCommand E fileOrFolder options st = (Exit 0, st')
    /\ extends_quietly st st'.
Proof.
  intros Hprep Ht Hd Hforce Hno.
  pose proof (quiet_prepare E fileOrFolder options st) as Q1.
  unfold uploadCommand, try_catch, bind. rewrite Hprep in *. simpl in Q1.
  unfold reconcile, bind.
  pose proof (quiet_headProbe E options (p_servers p) (p_localFiles p)
                (p_remoteFiles p) st1) as Q2.
  destruct (headProbe_returns E options (p_servers p) (p_localFiles p)
              (p_remoteFiles p) st1) as [message Hm].
  destruct (headProbe E options (p_servers p) (p_localFiles p)
              (p_remoteFiles p) st1) as [r st2].
  simpl in Hm, Q2. subst r.
  pose proof (quiet_checkChanges E options (p_remoteFiles p)
                (compareFiles (p_localFiles p) (p_remoteFiles p)) message st2)
    as Q3.
  pose proof (checkChanges_stops E options (p_remoteFiles p)
                (compareFiles (p_localFiles p) (p_remoteFiles p)) message st2
                (or_introl (conj Ht (or_intror Hd))) Hforce Hno) as Hg.
  destruct (checkChanges E options (p_remoteFiles p)
              (compareFiles (p_localFiles p) (p_remoteFiles p)) message st2)
    as [r st3].
  simpl in Hg, Q3. subst r.
  exists st3. split; [reflexivity|].
  eapply extends_quietly_trans; [exact Q1|].
  eapply extends_quietly_trans; eauto.
Qed.

Lemma no_changes_exit_witness :
  prepare (sample_env false false false true [index_page] [index_announced])
          "dist" (sample_options false false true) initial_state
  = (Val (sample_prepared [index_announced]), initial_state)
  /\ exists st',
      uploadCommand (sample_env false false false true
                       [index_page] [index_announced])
                    "dist" (sample_options false false true) initial_state
      = (Exit 0, st')
      /\ extends_quietly initial_state st'.
Proof.
  split; [reflexivity|].
  exact (no_changes_exit
           (sample_env false false false true [index_page] [index_announced])
           "dist" (sample_options false false true) initial_state
           (sample_prepared [index_announced]) initial_state
           eq_refl eq_refl eq_refl eq_refl (or_introl eq_refl)).
Defined.

(** C6, counterexample to the claim as stated: nothing changed and
    [--force] is not given, but the run is interactive and the user answers
    yes to the prompt; the files that were up to date are uploaded again. *)
Lemma no_changes_confirmed_uploads :
  let E := sample_env true true false true [index_page] [index_announced] in
  let options := sample_options false false false in
  toTransfer (compareFiles [index_page] [index_announced]) = []
  /\ toDelete (compareFiles [index_page] [index_announced]) = []
  /\ force options = false
  /\ In (AProcessUploads ["/index.html"] ["https://blossom.example"]
                         [sample_relay])
        (st_trace (snd (uploadCommand E "dist" options initial_state)))
  /\ fst (uploadCommand E "dist" options initial_state) = Val tt.
Proof. vm_compute. repeat split; auto 12. Qed.

(** C2, as the code has it.  The relays returned no record, the first
    local file has a hash, and some server, the [k]-th of the list, answers
    the HEAD request for that hash with a 2xx status (the request to the
    [k]-th server is the [k]-th external call of the probe).  Without [--force], when the run is
    non-interactive or the user answers no to the prompt, the command
    prints the message that the files may already exist and ends with
    [Deno.exit(0)] having uploaded, signed, published and deleted nothing.
    With [--force] the command goes on to upload every local file, with
    nothing to delete. *)
Theorem ambiguous_remote_state E fileOrFolder options st p st1
        file others sha k server response :
  prepare E fileOrFolder options st = (Val p, st1) ->
  p_remoteFiles p = [] ->
  p_localFiles p = file :: others ->
  f_sha256 file = Some sha ->
  sha <> "" ->
  nth_error (p_servers p) k = Some server ->
  fetch E (st_tick st1 + k) "HEAD" (serverUrl server ++ sha) None = Ok response ->
  ok response = true ->
  (force options = false ->
   nonInteractive options = true \/ Confirm_prompt E = Ok false ->
   exists st',
     uploadCommand E fileOrFolder options st = (Exit 0, st')
     /\ extends_quietly st st'
     /\ In (AConsoleLog ambiguity_message) (st_trace st'))
  /\ (force options = true ->
      exists st2,
        extends_quietly st st2
        /\ uploadCommand E fileOrFolder options st
           = try_catch (carry_out E fileOrFolder options p (p_localFiles p) [])
                       report_failure st2).
Proof.
  intros Hprep Hremote Hlocal Hsha Hne Hk Hfetch Hok.
  pose proof (quiet_prepare E fileOrFolder options st) as Q1.
  rewrite Hprep in Q1. simpl in Q1.
  assert (Htruthy : truthy_string sha = true).
  { unfold truthy_string. destruct (String.eqb_spec sha ""); [contradiction|auto]. }
  destruct (probeServers_hit E sha (p_servers p) st1 k server response
              Hk Hfetch Hok) as [inner Hprobe].
  pose proof (quiet_headProbe E options (p_servers p) (p_localFiles p)
                (p_remoteFiles p) st1) as Q2.
  assert (Hhead : exists message st2,
             headProbe E options (p_servers p) (p_localFiles p)
                       (p_remoteFiles p) st1 = (Val message, st2)
             /\ (force options = false -> message = ambiguity_message)).
  { unfold headProbe. rewrite Hremote, Hlocal. unfold with_truthy.
    rewrite Hsha, Htruthy. unfold bind.
    destruct (probeServers E sha (p_servers p) st1) as [r st2].
    simpl in Hprobe. subst r.
    destruct (force options); simpl; eexists _, _; split; try reflexivity;
      intros; congruence. }
  destruct Hhead as (message & st2 & Hhead & Hmsg).
  rewrite Hhead in Q2. simpl in Q2.
  remember (compareFiles (p_localFiles p) (p_remoteFiles p)) as d eqn:Ed.
  pose proof (quiet_checkChanges E options (p_remoteFiles p) d message st2) as Q3.
  split.
  - intros Hforce Hno. specialize (Hmsg Hforce). subst message.
    pose proof (checkChanges_stops E options (p_remoteFiles p) d ambiguity_message st2
                  (or_intror (conj Hremote eq_refl)) Hforce Hno) as Hg.
    pose proof (checkChanges_reports E options (p_remoteFiles p) d ambiguity_message st2
                  eq_refl) as Hr.
    unfold uploadCommand, try_catch, bind. rewrite Hprep.
    unfold reconcile, bind. rewrite Hhead, <- Ed.
    destruct (checkChanges E options (p_remoteFiles p) d ambiguity_message st2)
      as [r st3].
    simpl in Hg, Hr, Q3. subst r.
    exists st3. split; [reflexivity|]. split; auto.
    eapply extends_quietly_trans; [exact Q1|].
    eapply extends_quietly_trans; eauto.
  - intros Hforce.
    assert (Hd : d = mkDiff (p_localFiles p) [] []).
    { rewrite Ed, Hremote. apply compareFiles_no_remote. }
    pose proof (checkChanges_passes E options (p_remoteFiles p) d message st2 Hforce)
      as Hg.
    unfold uploadCommand, try_catch, bind. rewrite Hprep.
    unfold reconcile, bind. rewrite Hhead, <- Ed.
    destruct (checkChanges E options (p_remoteFiles p) d message st2) as [r st3].
    simpl in Hg, Q3. rewrite Hd in Hg |- *. simpl in Hg |- *.
    rewrite Hg by (rewrite Hlocal; discriminate).
    exists st3. split.
    + eapply extends_quietly_trans; [exact Q1|].
      eapply extends_quietly_trans; eauto.
    + reflexivity.
Qed.

Lemma ambiguous_remote_state_witness :
  prepare (sample_env false false true true [index_page] [])
          "dist" (sample_options false false true) initial_state
  = (Val (sample_prepared []), initial_state)
  /\ fetch (sample_env false false true true [index_page] [])
           (st_tick initial_state + 0) "HEAD"
           (serverUrl "https://blossom.example" ++ "c0ffee") None
     = Ok (mkResponse true 200)
  /\ exists st',
      uploadCommand (sample_env false false true true [index_page] [])
                    "dist" (sample_options false false true) initial_state
      = (Exit 0, st')
      /\ extends_quietly initial_state st'
      /\ In (AConsoleLog ambiguity_message) (st_trace st').
Proof.
  split; [reflexivity|]. split; [reflexivity|].
  refine (proj1 (ambiguous_remote_state
                   (sample_env false false true true [index_page] [])
                   "dist" (sample_options false false true) initial_state
                   (sample_prepared []) initial_state
                   index_page [] "c0ffee" 0 "https://blossom.example"
                   (mkResponse true 200)
                   eq_refl eq_refl eq_refl eq_refl _ eq_refl eq_refl eq_refl)
                eq_refl (or_introl eq_refl)).
  discriminate.
Defined.

(** C2, counterexample to the claim as stated: the relays returned nothing,
    the server has the first file, and [--force] is not given; the run is
    interactive and the user answers yes to the prompt, so the files are
    uploaded. *)
Lemma ambiguous_state_confirmed_uploads :
  let E := sample_env true true true true [index_page] [] in
  let options := sample_options false false false in
  listRemoteFiles E [sample_relay] "pk" = Ok []
  /\ fetch E 0 "HEAD" (serverUrl "https://blossom.example" ++ "c0ffee") None
     = Ok (mkResponse true 200)
  /\ force options = false
  /\ In (AProcessUploads ["/index.html"] ["https://blossom.example"]
                         [sample_relay])
        (st_trace (snd (uploadCommand E "dist" options initial_state)))
  /\ fst (uploadCommand E "dist" options initial_state) = Val tt.
Proof. vm_compute. repeat split; auto 12. Qed.

(** ** Exit statuses *)

Lemma exits_ret {A : Type} (a : A) : exits_0_or_1 (ret a).
Proof. intros st. exact I. Qed.

Lemma exits_throw {A : Type} e : exits_0_or_1 (@throw A e).
Proof. intros st. exact I. Qed.

Lemma exits_lift {A : Type} (r : result A) : exits_0_or_1 (lift r).
Proof. destruct r; intros st; exact I. Qed.

Lemma exits_emit a : exits_0_or_1 (emit a).
Proof. intros st. exact I. Qed.

Lemma exits_tick : exits_0_or_1 tick.
Proof. intros st. exact I. Qed.

Lemma exits_collecting f : exits_0_or_1 (collecting f).
Proof. intros st. exact I. Qed.

Lemma exits_exit_0 {A : Type} : exits_0_or_1 (@exit A 0).
Proof. intros st. now left. Qed.

Lemma exits_exit_1 {A : Type} : exits_0_or_1 (@exit A 1).
Proof. intros st. now right. Qed.

Lemma exits_bind {A B : Type} (m : M A) (k : A -> M B) :
  exits_0_or_1 m -> (forall a, exits_0_or_1 (k a)) -> exits_0_or_1 (bind m k).
Proof.
  intros Hm Hk st. unfold bind. specialize (Hm st).
  destruct (m st) as [[a| | |] st1]; simpl in *; auto. apply Hk.
Qed.

Lemma exits_try_catch {A : Type} (m : M A) (h : string -> M A) :
  exits_0_or_1 m -> (forall e, exits_0_or_1 (h e)) ->
  exits_0_or_1 (try_catch m h).
Proof.
  intros Hm Hh st. unfold try_catch. specialize (Hm st).
  destruct (m st) as [[a| | |] st1]; simpl in *; auto. apply Hh.
Qed.

Lemma exits_with_truthy {A : Type} o (yes : string -> M A) (no : M A) :
  (forall s, exits_0_or_1 (yes s)) -> exits_0_or_1 no ->
  exits_0_or_1 (with_truthy o yes no).
Proof.
  intros Hy Hn. unfold with_truthy. destruct o as [s|]; auto.
  destruct (truthy_string s); auto.
Qed.

Create HintDb exits.
#[local] Hint Resolve exits_ret exits_throw exits_lift exits_emit exits_tick
  exits_collecting exits_exit_0 exits_exit_1 : exits.

Ltac exits_step :=
  first
    [ solve [auto with exits]
    | apply exits_bind; [|intros]
    | apply exits_try_catch; [|intros]
    | apply exits_with_truthy; [intros|]
    | match goal with
      | |- exits_0_or_1 (match ?x with _ => _ end) => destruct x
      | |- exits_0_or_1 (let (_, _) := ?x in _) => destruct x
      end ].

Section Exits.

Variable E : env.

Lemma exits_publish event relays : exits_0_or_1 (publish E event relays).
Proof.
  intros st. destruct (publish_spec E event relays st) as (_ & _ & _ & [H|[b H]]);
    rewrite H; exact I.
Qed.

Lemma exits_sign signer template : exits_0_or_1 (sign E signer template).
Proof. unfold sign. repeat exits_step. Qed.

Lemma exits_now : exits_0_or_1 (now E).
Proof. unfold now. repeat exits_step. Qed.

Lemma exits_prepare fileOrFolder options :
  exits_0_or_1 (prepare E fileOrFolder options).
Proof.
  unfold prepare, getProjectContext, requireProjectData, selectSigner,
    copyFallback, scanLocalFiles, promptForBunker, useNbunk, usePrivateKey,
    useBunkerUrl.
  repeat exits_step.
Qed.

Lemma exits_headProbe options servers localFiles remoteFiles :
  exits_0_or_1 (headProbe E options servers localFiles remoteFiles).
Proof.
  intros st.
  destruct (headProbe_returns E options servers localFiles remoteFiles st)
    as [message H].
  rewrite H. exact I.
Qed.

Lemma exits_checkChanges options remoteFiles d message :
  exits_0_or_1 (checkChanges E options remoteFiles d message).
Proof. unfold checkChanges, decide, nothing_to_do. repeat exits_step. Qed.

Lemma exits_loadFiles fileOrFolder files :
  exits_0_or_1 (loadFiles E fileOrFolder files).
Proof.
  induction files as [|file rest IH]; simpl; repeat exits_step; auto.
Qed.

Lemma exits_uploadFiles fileOrFolder options p toTransfer :
  exits_0_or_1 (uploadFiles E fileOrFolder options p toTransfer).
Proof.
  unfold uploadFiles, uploadLoaded. pose proof (exits_loadFiles fileOrFolder).
  repeat exits_step; auto.
Qed.

Lemma exits_deleteFromServers signer sha path servers :
  exits_0_or_1 (deleteFromServers E signer sha path servers).
Proof.
  intros st.
  destruct (deleteFromServers_spec E signer sha path servers servers st
              (incl_refl _)) as (segs & st' & H & _).
  rewrite H. exact I.
Qed.

Lemma exits_purgeLoop signer relays servers files counts :
  exits_0_or_1 (purgeLoop E signer relays servers files counts).
Proof.
  revert counts. induction files as [|file rest IH]; intros counts; simpl.
  - apply exits_ret.
  - apply exits_bind; [|intros; apply IH].
    unfold purgeFile.
    pose proof exits_publish. pose proof exits_sign. pose proof exits_now.
    pose proof exits_deleteFromServers.
    repeat exits_step; auto.
Qed.

Lemma exits_purgeFiles options p toDelete :
  exits_0_or_1 (purgeFiles E options p toDelete).
Proof.
  unfold purgeFiles. pose proof exits_purgeLoop. repeat exits_step; auto.
Qed.

Lemma exits_publishExtra p label template :
  exits_0_or_1 (publishExtra E p label template).
Proof.
  unfold publishExtra.
  pose proof exits_publish. pose proof exits_sign. pose proof exits_now.
  repeat exits_step; auto.
Qed.

Lemma exits_publishExtras options p :
  exits_0_or_1 (publishExtras E options p).
Proof.
  unfold publishExtras. pose proof exits_publishExtra.
  repeat exits_step; auto.
Qed.

Lemma exits_reconcile fileOrFolder options p :
  exits_0_or_1 (reconcile E fileOrFolder options p).
Proof.
  unfold reconcile, carry_out.
  pose proof exits_headProbe. pose proof exits_checkChanges.
  pose proof exits_uploadFiles. pose proof exits_purgeFiles.
  pose proof exits_publishExtras.
  repeat exits_step; auto.
Qed.

End Exits.

Lemma with_truthy_false {A : Type} o (yes : string -> M A) (no : M A) :
  truthy o = false -> with_truthy o yes no = no.
Proof.
  unfold truthy, with_truthy. destruct o as [s|]; auto. now intros ->.
Qed.

(* ================================================================== *)
(** * Further properties *)

(** ** More about [publishToRelays] *)

Lemma run_schedule_settled event schedule ps :
  all_settled (p_socks ps) = true -> run_schedule event schedule ps = ps.
Proof. intros H. destruct schedule as [|[j e] rest]; simpl; [|rewrite H]; auto. Qed.

Lemma run_schedule_app event first second ps :
  run_schedule event (first ++ second) ps
  = run_schedule event second (run_schedule event first ps).
Proof.
  revert ps. induction first as [|[j e] rest IH]; intros ps; simpl; auto.
  destruct (all_settled (p_socks ps)) eqn:Hs; auto.
  now rewrite run_schedule_settled.
Qed.

Lemma publish_state_app ctor first second event relays mc :
  publish_state ctor (first ++ second) event relays mc
  = run_schedule event second (publish_state ctor first event relays mc).
Proof.
  unfold publish_state. destruct (connect_all ctor relays mc) as [socks mc0].
  apply run_schedule_app.
Qed.

Section Afterwards.

Variable event : NostrEvent.

Lemma deliver_keeps (P : sock -> Prop) j e ps :
  (forall mc s, P s -> P (fst (fst (on_event event mc s e)))) ->
  all_sockets P ps -> all_sockets P (deliver event j e ps).
Proof.
  intros Hstep Hall i s Hi. rewrite deliver_at in Hi.
  destruct (nth_error (p_socks ps) i) as [[s0|]|] eqn:H0; try discriminate.
  destruct (Nat.eqb j i); injection Hi as <-; eauto.
Qed.

Lemma run_keeps (P : sock -> Prop) schedule ps :
  (forall mc s e, P s -> P (fst (fst (on_event event mc s e)))) ->
  all_sockets P ps -> all_sockets P (run_schedule event schedule ps).
Proof.
  intros Hstep. revert ps.
  induction schedule as [|[j e] rest IH]; intros ps Hall; simpl; auto.
  destruct (all_settled (p_socks ps)); auto.
  apply IH, deliver_keeps; auto.
Qed.

Lemma run_relay_at schedule ps i :
  relay_at i (run_schedule event schedule ps) = relay_at i ps.
Proof.
  revert ps. induction schedule as [|[j e] rest IH]; intros ps; simpl; auto.
  destruct (all_settled (p_socks ps)); auto.
  now rewrite IH, deliver_relay_at.
Qed.

Lemma settled_sockets_done ps :
  all_sockets pending_while_open ps ->
  all_settled (p_socks ps) = true ->
  all_sockets is_done ps.
Proof.
  intros Hp Hall i s Hi. specialize (Hp i s Hi).
  assert (Hs : s_resolved s <> None).
  { intros Hn. now rewrite (pending_not_all_settled _ _ _ Hi Hn) in Hall. }
  split; [exact Hs|].
  unfold pending_while_open in Hp.
  destruct (s_ready s); auto; contradiction.
Qed.

(** What an event does to a socket whose promise is settled. *)
Lemma on_event_done mc s e :
  is_done s ->
  is_done (fst (fst (on_event event mc s e)))
  /\ s_resolved (fst (fst (on_event event mc s e))) = s_resolved s
  /\ (exists extra,
        snd (fst (on_event event mc s e)) = option_map (fun c => c ++ extra) mc
        /\ Forall (fun en => Collector.e_category en = Collector.connection_error
                             /\ Collector.e_target en = s_relay s) extra)
  /\ Forall (fun a => a = AWsClose (s_relay s)) (snd (on_event event mc s e)).
Proof.
  destruct s as [rl rd tm rs]. unfold is_done. simpl.
  intros [Hrs Hrd].
  destruct rs as [b|]; [clear Hrs | now elim Hrs].
  assert (Hnil : exists extra : list Collector.entry,
             mc = option_map (fun c => c ++ extra) mc
             /\ Forall (fun en => Collector.e_category en
                                  = Collector.connection_error
                                  /\ Collector.e_target en = rl) extra).
  { exists []. split; [now rewrite option_map_app_nil | constructor]. }
  destruct e as [|parsed| |detail|]; simpl.
  - destruct Hrd as [-> | ->]; simpl; repeat split; auto; discriminate.
  - destruct Hrd as [-> | ->]; simpl; repeat split; auto; discriminate.
  - destruct tm as [|n]; simpl.
    + repeat split; auto; discriminate.
    + split; [split; [discriminate | destruct Hrd as [-> | ->]; auto]|].
      split; [reflexivity|]. split; [|repeat constructor].
      eexists [_]. split; [destruct mc; reflexivity | repeat constructor].
  - split; [split; [discriminate | auto]|].
    split; [reflexivity|]. split; [|constructor].
    eexists [_]. split; [destruct mc; reflexivity | repeat constructor].
  - split; [split; [discriminate | auto]|].
    split; [reflexivity|]. split; [|constructor]. exact Hnil.
Qed.

Lemma deliver_done j e ps :
  all_sockets is_done ps ->
  all_sockets is_done (deliver event j e ps)
  /\ (exists extra,
        p_coll (deliver event j e ps)
        = option_map (fun c => c ++ extra) (p_coll ps)
        /\ Forall (fun en =>
                     Collector.e_category en = Collector.connection_error
                     /\ exists i, relay_at i ps = Some (Collector.e_target en))
                  extra)
  /\ (exists acts,
        p_trace (deliver event j e ps) = p_trace ps ++ acts
        /\ Forall (fun a => exists i relay,
                       relay_at i ps = Some relay /\ a = AWsClose relay) acts).
Proof.
  intros Hd. split.
  { intros i s Hi. rewrite deliver_at in Hi.
    destruct (nth_error (p_socks ps) i) as [[s0|]|] eqn:H0; try discriminate.
    destruct (Nat.eqb j i); injection Hi as <-.
    - apply on_event_done. eauto.
    - eauto. }
  unfold deliver.
  destruct (nth_error (p_socks ps) j) as [[s|]|] eqn:Hj.
  - destruct (on_event_done (p_coll ps) s e (Hd j s Hj))
      as (_ & _ & (x1 & Hx1 & Fx1) & Fa1).
    destruct (on_event event (p_coll ps) s e) as [[s' mc'] acts].
    simpl in *. split.
    + exists x1. split; [exact Hx1|].
      eapply Forall_impl; [|exact Fx1]. simpl. intros en [H1 H2].
      split; [exact H1|]. exists j. unfold relay_at. now rewrite Hj, H2.
    + exists acts. split; [reflexivity|].
      eapply Forall_impl; [|exact Fa1]. simpl. intros a ->.
      exists j, (s_relay s). split; auto. unfold relay_at. now rewrite Hj.
  - split.
    + exists []. split; [now rewrite option_map_app_nil | constructor].
    + exists []. split; [now rewrite app_nil_r | constructor].
  - split.
    + exists []. split; [now rewrite option_map_app_nil | constructor].
    + exists []. split; [now rewrite app_nil_r | constructor].
Qed.

Lemma deliver_all_done later ps :
  all_sockets is_done ps ->
  (forall i s,
      nth_error (p_socks ps) i = Some (Some s) ->
      exists s',
        nth_error (p_socks (deliver_all event later ps)) i = Some (Some s')
        /\ s_resolved s' = s_resolved s)
  /\ (exists extra,
        p_coll (deliver_all event later ps)
        = option_map (fun c => c ++ extra) (p_coll ps)
        /\ Forall (fun en =>
                     Collector.e_category en = Collector.connection_error
                     /\ exists i, relay_at i ps = Some (Collector.e_target en))
                  extra)
  /\ (exists acts,
        p_trace (deliver_all event later ps) = p_trace ps ++ acts
        /\ Forall (fun a => exists i relay,
                       relay_at i ps = Some relay /\ a = AWsClose relay) acts).
Proof.
  revert ps. induction later as [|[j e] rest IH]; intros ps Hd.
  - simpl. split; [eauto|]. split.
    + exists []. split; [now rewrite option_map_app_nil | constructor].
    + exists []. split; [now rewrite app_nil_r | constructor].
  - change (deliver_all event ((j, e) :: rest) ps)
      with (deliver_all event rest (deliver event j e ps)).
    destruct (deliver_done j e ps Hd)
      as (Hd1 & (x1 & Hx1 & Fx1) & (a1 & Ha1 & Fa1)).
    destruct (IH _ Hd1) as (I2 & (x2 & Hx2 & Fx2) & (a2 & Ha2 & Fa2)).
    split; [|split].
    + intros i s Hi.
      pose proof (deliver_at event j e ps i) as Hat. rewrite Hi in Hat.
      destruct (Nat.eqb j i).
      * destruct (I2 _ _ Hat) as (s' & H1 & H2).
        exists s'. split; [exact H1|].
        destruct (on_event_done (p_coll ps) s e (Hd i s Hi)) as (_ & Hr & _).
        now rewrite H2, Hr.
      * exact (I2 _ _ Hat).
    + exists (x1 ++ x2). split.
      * rewrite Hx2, Hx1. destruct (p_coll ps); simpl;
          [rewrite app_assoc|]; reflexivity.
      * apply Forall_app. split; [exact Fx1|].
        eapply Forall_impl; [|exact Fx2]. simpl.
        intros en [H1 [i H2]]. split; [exact H1|]. exists i.
        now rewrite deliver_relay_at in H2.
    + exists (a1 ++ a2). split.
      * now rewrite Ha2, Ha1, app_assoc.
      * apply Forall_app. split; [exact Fa1|].
        eapply Forall_impl; [|exact Fa2]. simpl.
        intros a (i & relay & H1 & H2). exists i, relay.
        split; auto. now rewrite deliver_relay_at in H1.
Qed.

End Afterwards.

Lemma initial_sockets_pending ctor relays mc tr :
  all_sockets pending_while_open (mkP (map (socket_for ctor) relays) mc tr).
Proof.
  intros i s Hi. rewrite initial_socket in Hi.
  destruct (nth_error relays i) as [relay|]; simpl in Hi; try discriminate.
  unfold socket_for in Hi. destruct (ctor relay); try discriminate.
  injection Hi as <-. apply new_socket_pending.
Qed.

(** X1.  When [publishToRelays] returns, its handlers stay installed and
    its timers armed.  Whatever the runtime delivers to the sockets of the
    call afterwards changes the outcome of no relay, opens no socket and
    sends nothing: it can only close a socket again and add connection
    errors, under the address of a relay of the list, to the collector of
    the caller.  In particular the timer of a socket that had opened still
    files [Timeout waiting for response] when it fires. *)
Theorem publishToRelays_after_return ctor schedule later event relays mc b :
  fst (fst (publishToRelays ctor schedule event relays mc)) = Some b ->
  (forall i s,
      nth_error (p_socks (publish_state ctor schedule event relays mc)) i
      = Some (Some s) ->
      exists s',
        nth_error (p_socks (deliver_all event later
                              (publish_state ctor schedule event relays mc))) i
        = Some (Some s')
        /\ s_resolved s' = s_resolved s)
  /\ (exists extra,
        p_coll (deliver_all event later
                  (publish_state ctor schedule event relays mc))
        = option_map (fun c => c ++ extra)
            (snd (fst (publishToRelays ctor schedule event relays mc)))
        /\ Forall (fun en =>
                     Collector.e_category en = Collector.connection_error
                     /\ In (Collector.e_target en) relays) extra)
  /\ (exists acts,
        p_trace (deliver_all event later
                   (publish_state ctor schedule event relays mc))
        = snd (publishToRelays ctor schedule event relays mc) ++ acts
        /\ Forall (fun a => exists relay, In relay relays /\ a = AWsClose relay)
                  acts)
  /\ (forall i s,
        nth_error (p_socks (publish_state ctor schedule event relays mc)) i
        = Some (Some s) ->
        s_timers s <> 0 ->
        p_coll (deliver event i EvTimeout
                  (publish_state ctor schedule event relays mc))
        = option_map (fun c => c ++ [timeout_entry (s_relay s)])
            (snd (fst (publishToRelays ctor schedule event relays mc)))).
Proof.
  unfold publishToRelays. simpl.
  set (ps := publish_state ctor schedule event relays mc).
  destruct (all_settled (p_socks ps)) eqn:Hall; [|discriminate]. intros _.
  assert (Hrel : forall i relay, relay_at i ps = Some relay -> In relay relays).
  { unfold ps, publish_state. intros i relay.
    pose proof (connect_all_socks ctor relays mc) as Hs.
    destruct (connect_all ctor relays mc) as [socks mc0]. simpl in Hs.
    subst socks. rewrite run_relay_at. intros H.
    apply initial_relay_at in H as [H _]. eapply nth_error_In; eauto. }
  assert (Hdone : all_sockets is_done ps).
  { apply settled_sockets_done; [|exact Hall].
    unfold ps, publish_state.
    pose proof (connect_all_socks ctor relays mc) as Hs.
    destruct (connect_all ctor relays mc) as [socks mc0]. simpl in Hs.
    subst socks. apply run_keeps; [|apply initial_sockets_pending].
    intros mc1 s e. apply on_event_pending. }
  destruct (deliver_all_done event later ps Hdone)
    as (H1 & (x & Hx & Fx) & (acts & Ha & Fa)).
  split; [exact H1|]. split; [|split].
  - exists x. split; [exact Hx|].
    eapply Forall_impl; [|exact Fx]. simpl. intros en [Hc [i Hi]].
    split; [exact Hc | eauto].
  - exists acts. split; [exact Ha|].
    eapply Forall_impl; [|exact Fa]. simpl. intros a (i & relay & Hi & ->).
    eauto.
  - intros i s Hi Ht. rewrite (deliver_coll event _ _ _ _ Hi). simpl.
    destruct (s_timers s); [contradiction|].
    destruct (p_coll ps); reflexivity.
Qed.

Lemma publishToRelays_after_return_witness :
  fst (fst (publishToRelays no_ctor_error
              [(0, EvOpen); (0, EvMessage (Some (ok_frame "aa11" true "")))]
              sample_event [sample_relay] (Some [])))
  = Some true
  /\ p_coll (deliver sample_event 0 EvTimeout
               (publish_state no_ctor_error
                  [(0, EvOpen); (0, EvMessage (Some (ok_frame "aa11" true "")))]
                  sample_event [sample_relay] (Some [])))
     = Some [timeout_entry sample_relay].
Proof.
  split; [reflexivity|].
  exact (proj2 (proj2 (proj2
           (publishToRelays_after_return no_ctor_error
              [(0, EvOpen); (0, EvMessage (Some (ok_frame "aa11" true "")))]
              [(0, EvTimeout)] sample_event [sample_relay] (Some []) true
              eq_refl)))
           0 (mkSock sample_relay CLOSING 1 (Some true)) eq_refl
           (fun H => match H with eq_refl => I end)).
Defined.

Lemma run_coll_some event schedule ps c :
  p_coll ps = Some c ->
  exists extra, p_coll (run_schedule event schedule ps) = Some (c ++ extra).
Proof.
  intros H. destruct (run_collects event schedule ps) as (x & Hx & _).
  rewrite H in Hx. simpl in Hx. eauto.
Qed.

Lemma publish_state_coll_some ctor schedule event relays c :
  exists c', p_coll (publish_state ctor schedule event relays (Some c)) = Some c'.
Proof.
  unfold publish_state.
  destruct (connect_all_collects ctor relays (Some c)) as (x & Hx & _).
  destruct (connect_all ctor relays (Some c)) as [socks mc0]. simpl in Hx.
  subst mc0.
  destruct (run_coll_some event schedule
              (mkP socks (Some (c ++ x)) (map AWsConnect relays)) (c ++ x)
              eq_refl) as [extra H].
  eauto.
Qed.

(** X2.  The five-second timer is never cleared.  When the timer of a relay
    whose promise is already settled (for instance by an accepting frame)
    fires while the call still waits for another relay, a connection error
    [Timeout waiting for response] is recorded under that relay's address,
    and the relay's outcome stays what it was. *)
Theorem timer_fires_after_settlement ctor before_timer after_timer event relays
        c i s b :
  all_settled (p_socks (publish_state ctor before_timer event relays (Some c)))
  = false ->
  nth_error (p_socks (publish_state ctor before_timer event relays (Some c))) i
  = Some (Some s) ->
  s_timers s <> 0 ->
  s_resolved s = Some b ->
  (exists earlier later,
      snd (fst (publishToRelays ctor
                  (before_timer ++ (i, EvTimeout) :: after_timer)
                  event relays (Some c)))
      = Some (earlier ++ timeout_entry (s_relay s) :: later))
  /\ exists s',
      nth_error (p_socks (publish_state ctor
                            (before_timer ++ (i, EvTimeout) :: after_timer)
                            event relays (Some c))) i
      = Some (Some s')
      /\ s_resolved s' = Some b.
Proof.
  intros Hpending Hi Htimer Hb.
  unfold publishToRelays. simpl. rewrite publish_state_app.
  set (ps1 := publish_state ctor before_timer event relays (Some c)) in *.
  simpl. rewrite Hpending.
  destruct (publish_state_coll_some ctor before_timer event relays c)
    as [c1 Hc1]. fold ps1 in Hc1.
  assert (Hs : nth_error (p_socks (deliver event i EvTimeout ps1)) i
               = Some (Some (fst (fst (on_event event (p_coll ps1) s EvTimeout)))))
    by now apply deliver_sock.
  assert (Hc : p_coll (deliver event i EvTimeout ps1)
               = Some (c1 ++ [timeout_entry (s_relay s)])).
  { rewrite (deliver_coll event _ _ _ _ Hi), Hc1. simpl.
    destruct (s_timers s); [contradiction | reflexivity]. }
  split.
  - destruct (run_coll_some event after_timer _ _ Hc) as [extra He].
    exists c1, extra. rewrite He, <- app_assoc. reflexivity.
  - destruct (run_resolved_stays event after_timer _ i _ b Hs
                (on_event_monotone event _ _ _ _ Hb)) as (s' & H1 & H2 & _).
    eauto.
Qed.

Lemma timer_fires_after_settlement_witness :
  exists earlier later,
    snd (fst (publishToRelays no_ctor_error
                ([(0, EvOpen); (1, EvOpen);
                  (0, EvMessage (Some (ok_frame "aa11" true "")))]
                   ++ (0, EvTimeout) :: [(1, EvTimeout)])
                sample_event [sample_relay; "wss://slow.example"] (Some [])))
    = Some (earlier ++ timeout_entry sample_relay :: later).
Proof.
  refine (proj1 (timer_fires_after_settlement no_ctor_error
                   [(0, EvOpen); (1, EvOpen);
                    (0, EvMessage (Some (ok_frame "aa11" true "")))]
                   [(1, EvTimeout)] sample_event
                   [sample_relay; "wss://slow.example"] [] 0
                   (mkSock sample_relay CLOSING 1 (Some true)) true
                   eq_refl eq_refl _ eq_refl)).
  discriminate.
Defined.

Ltac handler_split :=
  unfold on_event, onmessage;
  repeat match goal with
         | |- context [match ?e with EvOpen => _ | _ => _ end] => destruct e
         | |- context [match s_ready ?s with CONNECTING => _ | _ => _ end] =>
             destruct (s_ready s)
         | |- context [match s_timers ?s with O => _ | S _ => _ end] =>
             destruct (s_timers s)
         | |- context [match ?p with Some _ => _ | None => _ end] =>
             destruct p
         | |- context [if ?b then _ else _] => destruct b
         end.

Lemma on_event_socket_alone event event' mc mc' s e :
  fst (fst (on_event event mc s e)) = fst (fst (on_event event' mc' s e)).
Proof. handler_split; reflexivity. Qed.

Lemma on_event_actions_alone event mc mc' s e :
  snd (on_event event mc s e) = snd (on_event event mc' s e).
Proof. handler_split; reflexivity. Qed.

Lemma on_event_collector_alone event event' mc s e :
  snd (fst (on_event event mc s e)) = snd (fst (on_event event' mc s e)).
Proof. handler_split; reflexivity. Qed.

Lemma deliver_same_sockets event j e ps ps' :
  same_sockets ps ps' ->
  same_sockets (deliver event j e ps) (deliver event j e ps').
Proof.
  intros [Hs Ht]. unfold same_sockets, deliver. rewrite <- Hs.
  destruct (nth_error (p_socks ps) j) as [[s|]|]; auto.
  pose proof (on_event_socket_alone event event (p_coll ps) (p_coll ps') s e) as H1.
  pose proof (on_event_actions_alone event (p_coll ps) (p_coll ps') s e) as H2.
  destruct (on_event event (p_coll ps) s e) as [[s1 m1] a1].
  destruct (on_event event (p_coll ps') s e) as [[s2 m2] a2].
  simpl in *. subst. split; congruence.
Qed.

Lemma run_same_sockets event schedule ps ps' :
  same_sockets ps ps' ->
  same_sockets (run_schedule event schedule ps) (run_schedule event schedule ps').
Proof.
  revert ps ps'. induction schedule as [|[j e] rest IH]; intros ps ps' H; simpl;
    auto.
  destruct H as [Hs Ht]. rewrite <- Hs.
  destruct (all_settled (p_socks ps)); [split; auto|].
  apply IH. apply deliver_same_sockets. split; auto.
Qed.

(** X3.  The optional collector has no influence on what
    [publishToRelays] does: with any collector, or with none, the value
    returned and the sockets opened, frames sent and sockets closed are the
    same; without a collector nothing is collected. *)
Theorem publishToRelays_collector_is_passive ctor schedule event relays mc mc' :
  fst (fst (publishToRelays ctor schedule event relays mc))
  = fst (fst (publishToRelays ctor schedule event relays mc'))
  /\ snd (publishToRelays ctor schedule event relays mc)
     = snd (publishToRelays ctor schedule event relays mc')
  /\ snd (fst (publishToRelays ctor schedule event relays None)) = None.
Proof.
  assert (Hsame : forall m m',
             same_sockets (publish_state ctor schedule event relays m)
                          (publish_state ctor schedule event relays m')).
  { intros m m'. unfold publish_state.
    pose proof (connect_all_socks ctor relays m) as H1.
    pose proof (connect_all_socks ctor relays m') as H2.
    destruct (connect_all ctor relays m) as [socks1 c1].
    destruct (connect_all ctor relays m') as [socks2 c2].
    simpl in *. apply run_same_sockets. split; simpl; congruence. }
  unfold publishToRelays. destruct (Hsame mc mc') as [Hs Ht]. simpl.
  rewrite Hs, Ht. repeat split.
  unfold publish_state.
  destruct (connect_all_collects ctor relays None) as (x & Hx & _).
  destruct (connect_all ctor relays None) as [socks c0]. simpl in Hx. subst c0.
  destruct (run_collects event schedule (mkP socks None (map AWsConnect relays)))
    as (y & Hy & _).
  exact Hy.
Qed.

Lemma deliver_same_outcome event event' j e ps ps' :
  p_socks ps = p_socks ps' -> p_coll ps = p_coll ps' ->
  p_socks (deliver event j e ps) = p_socks (deliver event' j e ps')
  /\ p_coll (deliver event j e ps) = p_coll (deliver event' j e ps').
Proof.
  intros Hs Hc. unfold deliver. rewrite <- Hs, <- Hc.
  destruct (nth_error (p_socks ps) j) as [[s|]|]; auto.
  pose proof (on_event_socket_alone event event' (p_coll ps) (p_coll ps) s e) as H1.
  pose proof (on_event_collector_alone event event' (p_coll ps) s e) as H2.
  destruct (on_event event (p_coll ps) s e) as [[s1 m1] a1].
  destruct (on_event event' (p_coll ps) s e) as [[s2 m2] a2].
  simpl in *. subst. auto.
Qed.

Lemma run_same_outcome event event' schedule ps ps' :
  p_socks ps = p_socks ps' -> p_coll ps = p_coll ps' ->
  p_socks (run_schedule event schedule ps)
  = p_socks (run_schedule event' schedule ps')
  /\ p_coll (run_schedule event schedule ps)
     = p_coll (run_schedule event' schedule ps').
Proof.
  revert ps ps'. induction schedule as [|[j e] rest IH]; intros ps ps' Hs Hc;
    simpl; auto.
  rewrite <- Hs. destruct (all_settled (p_socks ps)); auto.
  destruct (deliver_same_outcome event event' j e ps ps' Hs Hc). auto.
Qed.

(** X4.  The value returned and the entries recorded depend on how the
    relays behave, not on the record that is published: under the same
    relay behaviour two records get the same answer and leave the same
    entries. *)
Theorem publishToRelays_outcome_ignores_record ctor schedule event event'
        relays mc :
  fst (publishToRelays ctor schedule event relays mc)
  = fst (publishToRelays ctor schedule event' relays mc).
Proof.
  unfold publishToRelays, publish_state.
  destruct (connect_all ctor relays mc) as [socks c0].
  destruct (run_same_outcome event event' schedule
              (mkP socks c0 (map AWsConnect relays))
              (mkP socks c0 (map AWsConnect relays)) eq_refl eq_refl)
    as [Hs Hc].
  simpl. rewrite Hs, Hc. reflexivity.
Qed.

Lemma on_event_addressed event mc s e :
  Forall (fun a => a = AWsSend (s_relay s) event \/ a = AWsClose (s_relay s))
         (snd (on_event event mc s e)).
Proof.
  unfold on_event, onmessage. destruct s as [rl rd tm rs]; simpl.
  destruct e as [|[data|]| | |]; destruct rd; simpl; auto;
    try (destruct tm; simpl; auto);
    try (destruct (is_ok_frame 3 true data); simpl; auto;
         destruct (is_ok_frame 4 false data); simpl; auto;
         destruct (rate_limited _) as [[|]|]; simpl; auto).
Qed.

Lemma deliver_addressed event j e ps :
  exists acts,
    p_trace (deliver event j e ps) = p_trace ps ++ acts
    /\ Forall (fun a => exists relay,
                   relay_at j ps = Some relay
                   /\ (a = AWsSend relay event \/ a = AWsClose relay)) acts.
Proof.
  unfold deliver, relay_at.
  destruct (nth_error (p_socks ps) j) as [[s|]|];
    try (exists []; split; [now rewrite app_nil_r | constructor]).
  pose proof (on_event_addressed event (p_coll ps) s e) as Ha.
  destruct (on_event event (p_coll ps) s e) as [[s' mc'] acts]. simpl in *.
  exists acts. split; auto.
  eapply Forall_impl; [|exact Ha]. simpl. eauto.
Qed.

Lemma run_addressed event schedule ps :
  exists acts,
    p_trace (run_schedule event schedule ps) = p_trace ps ++ acts
    /\ Forall (fun a => exists j relay,
                   relay_at j ps = Some relay
                   /\ (a = AWsSend relay event \/ a = AWsClose relay)) acts.
Proof.
  revert ps. induction schedule as [|[j e] rest IH]; intros ps; simpl.
  - exists []. split; [now rewrite app_nil_r | constructor].
  - destruct (all_settled (p_socks ps)).
    + exists []. split; [now rewrite app_nil_r | constructor].
    + destruct (IH (deliver event j e ps)) as (a2 & H2 & F2).
      destruct (deliver_addressed event j e ps) as (a1 & H1 & F1).
      exists (a1 ++ a2). split; [now rewrite H2, H1, app_assoc|].
      apply Forall_app. split.
      * eapply Forall_impl; [|exact F1]. simpl. intros a (r & Hr & Ha). eauto.
      * eapply Forall_impl; [|exact F2]. simpl. intros a (k & r & Hr & Ha).
        rewrite deliver_relay_at in Hr. eauto.
Qed.

(** X5.  Everything [publishToRelays] does on the network concerns a relay
    of the list it was given, and the only record it ever sends is the one
    it was given. *)
Theorem publishToRelays_stays_on_its_relays ctor schedule event relays mc :
  Forall (addressed_to relays event)
         (snd (publishToRelays ctor schedule event relays mc)).
Proof.
  unfold publishToRelays, publish_state.
  pose proof (connect_all_socks ctor relays mc) as Hsocks.
  destruct (connect_all ctor relays mc) as [socks c0]. simpl in *. subst socks.
  destruct (run_addressed event schedule
              (mkP (map (socket_for ctor) relays) c0 (map AWsConnect relays)))
    as (acts & Ht & Fa).
  rewrite Ht. simpl. apply Forall_app. split.
  - apply Forall_forall. intros a Ha. apply in_map_iff in Ha as (r & <- & Hr).
    exact Hr.
  - eapply Forall_impl; [|exact Fa]. simpl. intros a (j & r & Hr & Ha).
    apply initial_relay_at in Hr as [Hr _]. apply nth_error_In in Hr.
    destruct Ha as [->| ->]; simpl; auto.
Qed.

(** ** More about the purge *)

Section PurgeAccounts.

Variable E : env.
Variable signer : Signer.

Lemma delete_segment_requests sha path server seg :
  delete_segment E signer sha path server seg ->
  count is_request seg <= 1.
Proof. intros []; unfold count; simpl; lia. Qed.

Lemma deleteFromServers_requests sha path servers st :
  exists dels st',
    deleteFromServers E signer sha path servers st = (Val tt, st')
    /\ st_trace st' = st_trace st ++ dels
    /\ count is_request dels <= List.length servers.
Proof.
  revert st. induction servers as [|server rest IH]; intros st; simpl.
  - exists [], st. rewrite app_nil_r. repeat split. unfold count. simpl. lia.
  - destruct (deleteFromServer_spec E signer sha path server st)
      as (seg & st1 & H1 & T1 & D1).
    destruct (IH st1) as (dels & st2 & H2 & T2 & C2).
    exists (seg ++ dels), st2. unfold bind. rewrite H1, H2.
    split; [reflexivity|]. split.
    + now rewrite T2, T1, app_assoc.
    + rewrite count_app. apply delete_segment_requests in D1. lia.
Qed.

Local Opaque publish deleteFromServers.

(** The ways one iteration of the purge loop can go. *)
Lemma purgeFile_cases relays servers file counts st :
  (purgeFile E signer relays servers file counts st
   = (Val (fst counts, S (snd counts)), st)
   /\ (f_event file = None \/ truthy (f_sha256 file) = false))
  \/ exists event sha,
      f_event file = Some event /\ f_sha256 file = Some sha
      /\ truthy_string sha = true
      /\ ((exists err,
              signEvent E (S (S (st_tick st))) signer
                (deletionEventTemplate (Date_now E (st_tick st))
                   (Date_now E (S (st_tick st))) (f_path file) (ev_id event))
              = Err err
              /\ purgeFile E signer relays servers file counts st
                 = (Val (fst counts, S (snd counts)),
                    mkState (S (S (S (st_tick st))))
                            (st_trace st
                               ++ [ASignEvent
                                     (deletionEventTemplate
                                        (Date_now E (st_tick st))
                                        (Date_now E (S (st_tick st)))
                                        (f_path file) (ev_id event))])
                            (st_collector st)))
          \/ (exists deletionEvent ws dels,
                 signEvent E (S (S (st_tick st))) signer
                   (deletionEventTemplate (Date_now E (st_tick st))
                      (Date_now E (S (st_tick st))) (f_path file) (ev_id event))
                 = Ok deletionEvent
                 /\ (fst (purgeFile E signer relays servers file counts st) = Hang
                     \/ fst (purgeFile E signer relays servers file counts st)
                        = Val (S (fst counts), snd counts))
                 /\ st_trace (snd (purgeFile E signer relays servers file counts st))
                    = st_trace st
                        ++ ASignEvent
                             (deletionEventTemplate (Date_now E (st_tick st))
                                (Date_now E (S (st_tick st)))
                                (f_path file) (ev_id event))
                        :: APublish deletionEvent relays :: ws ++ dels
                 /\ Forall (fun a => is_socket_action a = true) ws
                 /\ count is_request dels <= List.length servers)).
Proof.
  unfold purgeFile, try_catch.
  destruct (f_event file) as [event|] eqn:Hev; [|left; split; auto].
  unfold with_truthy.
  destruct (f_sha256 file) as [sha|] eqn:Hsha; [|left; split; auto].
  destruct (truthy_string sha) eqn:Ht; [|left; split; auto].
  right. exists event, sha. repeat split; auto. run_cmd.
  destruct (signEvent E (S (S (st_tick st))) signer
              (deletionEventTemplate (Date_now E (st_tick st))
                 (Date_now E (S (st_tick st))) (f_path file) (ev_id event)))
    as [deletionEvent|err] eqn:Hsign; simpl.
  - right.
    match goal with
    | |- context [publish E deletionEvent relays ?s] =>
        destruct (publish_spec E deletionEvent relays s) as (ws & Tw & Fw & Hr);
        destruct (publish E deletionEvent relays s) as [r st1]
    end.
    simpl in Tw, Hr. exists deletionEvent, ws.
    destruct Hr as [->|[b ->]].
    + exists []. simpl. repeat split; auto.
      * rewrite Tw, <- app_assoc, app_nil_r. reflexivity.
      * unfold count. simpl. lia.
    + destruct (deleteFromServers_requests sha (f_path file) servers st1)
        as (dels & st2 & H2 & T2 & C2).
      exists dels. rewrite H2. simpl. repeat split; auto.
      rewrite T2, Tw, <- !app_assoc. reflexivity.
  - left. exists err. split; reflexivity.
Qed.

Local Transparent publish deleteFromServers.

Lemma purgeFile_counts relays servers file counts st :
  match fst (purgeFile E signer relays servers file counts st) with
  | Val counts' => fst counts' + snd counts' = S (fst counts + snd counts)
  | Hang => True
  | _ => False
  end.
Proof.
  destruct (purgeFile_cases relays servers file counts st)
    as [[H _]|(event & sha & _ & _ & _ & [(err & _ & H)
                                          |(d & ws & dels & _ & [H|H] & _)])];
    rewrite H; simpl; auto; lia.
Qed.

Lemma purgeFile_requests relays servers file counts st :
  exists added,
    st_trace (snd (purgeFile E signer relays servers file counts st))
    = st_trace st ++ added
    /\ count is_request added <= List.length servers.
Proof.
  destruct (purgeFile_cases relays servers file counts st)
    as [[H _]|(event & sha & _ & _ & _ & [(err & _ & H)
                                          |(d & ws & dels & _ & _ & T & Fw & C)])].
  - rewrite H. exists []. simpl. rewrite app_nil_r. split; auto.
    unfold count. simpl. lia.
  - rewrite H. eexists. simpl. split; [reflexivity|]. unfold count. simpl. lia.
  - eexists. split; [exact T|].
    change (count is_request
              ([ASignEvent
                  (deletionEventTemplate (Date_now E (st_tick st))
                     (Date_now E (S (st_tick st))) (f_path file) (ev_id event));
                APublish d relays] ++ ws ++ dels) <= List.length servers).
    rewrite !count_app.
    assert (Hw : count is_request ws = 0).
    { clear - Fw. unfold count. induction Fw as [|a l Ha _ IH]; simpl; auto.
      destruct a; simpl in *; auto; discriminate. }
    rewrite Hw. unfold count at 1. simpl. lia.
Qed.

(** X6.  In the purge loop an entry with a record and a hash is counted as
    failed when its deletion record cannot be signed, and then nothing is
    published or deleted for it; once the record is signed the entry is
    counted as completed whatever follows: neither the value returned by
    [publishToRelays] nor the answers to the DELETE requests are looked
    at. *)
Theorem purge_entry_outcome relays servers file event sha counts st :
  f_event file = Some event ->
  f_sha256 file = Some sha ->
  sha <> "" ->
  (forall err,
      signEvent E (S (S (st_tick st))) signer
        (deletionEventTemplate (Date_now E (st_tick st))
           (Date_now E (S (st_tick st))) (f_path file) (ev_id event))
      = Err err ->
      purgeFile E signer relays servers file counts st
      = (Val (fst counts, S (snd counts)),
         mkState (S (S (S (st_tick st))))
                 (st_trace st
                    ++ [ASignEvent
                          (deletionEventTemplate (Date_now E (st_tick st))
                             (Date_now E (S (st_tick st)))
                             (f_path file) (ev_id event))])
                 (st_collector st)))
  /\ (forall deletionEvent,
        signEvent E (S (S (st_tick st))) signer
          (deletionEventTemplate (Date_now E (st_tick st))
             (Date_now E (S (st_tick st))) (f_path file) (ev_id event))
        = Ok deletionEvent ->
        fst (purgeFile E signer relays servers file counts st) = Hang
        \/ fst (purgeFile E signer relays servers file counts st)
           = Val (S (fst counts), snd counts)).
Proof.
  intros Hev Hsha Hne.
  assert (Ht : truthy (f_sha256 file) = true).
  { rewrite Hsha. simpl. unfold truthy_string.
    destruct (String.eqb_spec sha ""); [contradiction | reflexivity]. }
  destruct (purgeFile_cases relays servers file counts st)
    as [[_ [H|H]]|(event' & sha' & Hev' & Hsha' & _ & Hcase)];
    try congruence.
  rewrite Hev in Hev'. injection Hev' as <-.
  split.
  - intros err Hsign.
    destruct Hcase as [(err' & _ & H)|(d & ws & dels & Hs & _)];
      [exact H | congruence].
  - intros deletionEvent Hsign.
    destruct Hcase as [(err' & Hs & _)|(d & ws & dels & _ & H & _)];
      [congruence | exact H].
Qed.

(** X7.  The purge loop neither throws nor exits, and when it returns its
    two counters add up: [completed + failed] has grown by the number of
    entries of the to-delete list. *)
Theorem purge_counters_add_up relays servers files counts st :
  match fst (purgeLoop E signer relays servers files counts st) with
  | Val counts' =>
      fst counts' + snd counts' = fst counts + snd counts + List.length files
  | Hang => True
  | Exit _ | Throw _ => False
  end.
Proof.
  revert counts st. induction files as [|file rest IH]; intros counts st; simpl.
  - lia.
  - unfold bind.
    pose proof (purgeFile_counts relays servers file counts st) as Hf.
    destruct (purgeFile E signer relays servers file counts st)
      as [[c| | |] st1]; simpl in *; auto.
    specialize (IH c st1).
    destruct (fst (purgeLoop E signer relays servers rest c st1)); auto. lia.
Qed.

(** X8.  The purge loop sends at most one request per to-delete entry and
    server. *)
Theorem purge_requests_bounded relays servers files counts st :
  exists added,
    st_trace (snd (purgeLoop E signer relays servers files counts st))
    = st_trace st ++ added
    /\ count is_request added <= List.length files * List.length servers.
Proof.
  revert counts st. induction files as [|file rest IH]; intros counts st; simpl.
  - exists []. rewrite app_nil_r. split; auto.
  - unfold bind.
    destruct (purgeFile_requests relays servers file counts st)
      as (a1 & T1 & C1).
    destruct (purgeFile E signer relays servers file counts st)
      as [[c| | |] st1]; simpl in *;
      try (exists a1; split; [exact T1 | lia]).
    destruct (IH c st1) as (a2 & T2 & C2).
    exists (a1 ++ a2). split.
    + now rewrite T2, T1, app_assoc.
    + rewrite count_app. lia.
Qed.

End PurgeAccounts.

Lemma purge_entry_outcome_witness :
  f_event (remote_file "/b.html" "c0ffee" "e2")
  = Some (mkEvent "e2" "pk" 1690000000 34128
                  [["d"; "/b.html"]; ["x"; "c0ffee"]] "" "sig")
  /\ (fst (purgeFile (sample_env false false false true [] [])
             (PrivateKeySigner "nsec1") [sample_relay]
             ["https://blossom.example"]
             (remote_file "/b.html" "c0ffee" "e2") (0, 0) initial_state) = Hang
      \/ fst (purgeFile (sample_env false false false true [] [])
                (PrivateKeySigner "nsec1") [sample_relay]
                ["https://blossom.example"]
                (remote_file "/b.html" "c0ffee" "e2") (0, 0) initial_state)
         = Val (1, 0)).
Proof.
  split; [reflexivity|].
  refine (proj2 (purge_entry_outcome (sample_env false false false true [] [])
                   (PrivateKeySigner "nsec1") [sample_relay]
                   ["https://blossom.example"]
                   (remote_file "/b.html" "c0ffee" "e2") _ "c0ffee" (0, 0)
                   initial_state eq_refl eq_refl _) _ eq_refl).
  discriminate.
Defined.

(** ** What the command does on the network by itself *)

Lemma only_ret {A : Type} P (a : A) : only P (ret a).
Proof. intros st. exists []. simpl. rewrite app_nil_r. split; auto. Qed.

Lemma only_exit {A : Type} P c : only P (@exit A c).
Proof. intros st. exists []. simpl. rewrite app_nil_r. split; auto. Qed.

Lemma only_throw {A : Type} P e : only P (@throw A e).
Proof. intros st. exists []. simpl. rewrite app_nil_r. split; auto. Qed.

Lemma only_lift {A : Type} P (r : result A) : only P (lift r).
Proof. destruct r; [apply only_ret | apply only_throw]. Qed.

Lemma only_tick P : only P tick.
Proof. intros st. exists []. simpl. rewrite app_nil_r. split; auto. Qed.

Lemma only_collecting P f : only P (collecting f).
Proof. intros st. exists []. simpl. rewrite app_nil_r. split; auto. Qed.

Lemma only_emit (P : action -> bool) a : P a = true -> only P (emit a).
Proof. intros H st. exists [a]. simpl. split; auto. Qed.

Lemma only_bind {A B : Type} P (m : M A) (k : A -> M B) :
  only P m -> (forall a, only P (k a)) -> only P (bind m k).
Proof.
  intros Hm Hk st. unfold bind. destruct (Hm st) as (a1 & T1 & F1).
  destruct (m st) as [[a| | |] st1]; simpl in *; eauto.
  destruct (Hk a st1) as (a2 & T2 & F2).
  exists (a1 ++ a2). split; [now rewrite T2, T1, app_assoc|].
  apply Forall_app. auto.
Qed.

Lemma only_try_catch {A : Type} P (m : M A) (h : string -> M A) :
  only P m -> (forall e, only P (h e)) -> only P (try_catch m h).
Proof.
  intros Hm Hh st. unfold try_catch. destruct (Hm st) as (a1 & T1 & F1).
  destruct (m st) as [[a| |e|] st1]; simpl in *; eauto.
  destruct (Hh e st1) as (a2 & T2 & F2).
  exists (a1 ++ a2). split; [now rewrite T2, T1, app_assoc|].
  apply Forall_app. auto.
Qed.

Lemma only_with_truthy {A : Type} P o (yes : string -> M A) (no : M A) :
  (forall s, only P (yes s)) -> only P no -> only P (with_truthy o yes no).
Proof.
  intros Hy Hn. unfold with_truthy. destruct o as [s|]; auto.
  destruct (truthy_string s); auto.
Qed.

Lemma only_of_quiet {A : Type} (P : action -> bool) (m : M A) :
  (forall a, is_transfer a = false -> P a = true) -> quiet m -> only P m.
Proof.
  intros HP Hq st. destruct (Hq st) as (added & T & F).
  exists added. split; auto. eapply Forall_impl; [|exact F]. auto.
Qed.

Create HintDb only.
#[local] Hint Resolve only_ret only_exit only_throw only_lift only_tick
  only_collecting : only.

Ltac only_step :=
  first
    [ solve [auto with only]
    | apply only_emit; reflexivity
    | apply only_bind; [|intros]
    | apply only_try_catch; [|intros]
    | apply only_with_truthy; [intros|]
    | match goal with
      | |- only _ (match ?x with _ => _ end) => destruct x
      | |- only _ (let (_, _) := ?x in _) => destruct x
      end ].

Section OwnTraffic.

Variable E : env.

(** A predicate on actions that lets through everything the command does
    before and while it uploads. *)
Variable P : action -> bool.
Hypothesis P_quiet : forall a, is_transfer a = false -> P a = true.
Hypothesis P_uploads :
  forall paths servers relays, P (AProcessUploads paths servers relays) = true.

Lemma only_loadFiles fileOrFolder files : only P (loadFiles E fileOrFolder files).
Proof.
  induction files as [|file rest IH]; simpl; [apply only_ret|].
  apply only_bind; [apply only_emit, P_quiet; reflexivity|]. intros _.
  destruct (loadFileData E fileOrFolder file).
  - apply only_bind; auto. intros. apply only_ret.
  - apply only_bind; [apply only_emit, P_quiet; reflexivity|]. intros _.
    apply only_bind; [apply only_collecting | auto].
Qed.

Lemma only_uploadFiles fileOrFolder options p toTransfer :
  only P (uploadFiles E fileOrFolder options p toTransfer).
Proof.
  unfold uploadFiles, uploadLoaded. destruct toTransfer; [apply only_ret|].
  apply only_bind; [apply only_loadFiles|]. intros [|loaded rest].
  - apply only_bind; [apply only_emit, P_quiet; reflexivity | intros; apply only_exit].
  - apply only_bind; [apply only_emit, P_uploads|]. intros _.
    apply only_bind; [apply only_lift|]. intros results.
    apply only_bind; [apply only_emit, P_quiet; reflexivity|]. intros _.
    apply only_collecting.
Qed.

Lemma only_report_failure e : only P (report_failure e).
Proof.
  unfold report_failure.
  apply only_bind; [apply only_emit, P_quiet; reflexivity | intros; apply only_exit].
Qed.

(** The command up to and including the upload, followed by [rest]. *)
Lemma only_uploadCommand_with fileOrFolder options :
  (forall p, only P (purgeFiles E options p
                       (toDelete (compareFiles (p_localFiles p)
                                               (p_remoteFiles p))))) ->
  (forall p, only P (publishExtras E options p)) ->
  only P (uploadCommand E fileOrFolder options).
Proof.
  intros Hpurge Hextras. unfold uploadCommand.
  apply only_try_catch; [|apply only_report_failure].
  apply only_bind; [apply only_of_quiet; auto; apply quiet_prepare|].
  intros p. unfold reconcile.
  apply only_bind; [apply only_of_quiet; auto; apply quiet_headProbe|].
  intros message.
  apply only_bind; [apply only_of_quiet; auto; apply quiet_checkChanges|].
  intros toTransfer. unfold carry_out.
  apply only_bind; [apply only_uploadFiles|]. intros _.
  apply only_bind; [apply Hpurge|]. intros _.
  apply only_bind; [apply Hextras|]. intros _.
  apply only_emit, P_quiet. reflexivity.
Qed.

End OwnTraffic.

Lemma only_purgeFiles_off E P options p toDelete :
  purge options = false -> only P (purgeFiles E options p toDelete).
Proof.
  intros H. unfold purgeFiles. rewrite H. destruct toDelete; apply only_ret.
Qed.

Lemma only_publish E (P : action -> bool) event relays :
  (forall a, is_socket_action a = true -> P a = true) ->
  P (APublish event relays) = true ->
  only P (publish E event relays).
Proof.
  intros Hs Hp st. destruct (publish_spec E event relays st) as (ws & T & F & _).
  exists (APublish event relays :: ws). split; auto.
  constructor; auto. eapply Forall_impl; [|exact F]. auto.
Qed.

Lemma only_publishExtras E (P : action -> bool) options p :
  (forall a, is_delete a = false -> P a = true) ->
  only P (publishExtras E options p).
Proof.
  intros HP.
  assert (Hemit : forall a, is_delete a = false -> only P (emit a))
    by (intros a Ha; apply only_emit; auto).
  assert (Hextra : forall label template, only P (publishExtra E p label template)).
  { intros label template. unfold publishExtra, now, sign.
    apply only_try_catch; [|intros; apply Hemit; reflexivity].
    apply only_bind; [repeat only_step|]. intros ms.
    apply only_bind.
    { apply only_bind; [apply only_tick|]. intros t.
      apply only_bind; [apply Hemit; reflexivity | intros; apply only_lift]. }
    intros event.
    apply only_bind.
    { apply only_publish; [|apply HP; reflexivity].
      intros a Ha. apply HP. destruct a; simpl in *; auto; discriminate. }
    intros published. apply Hemit. reflexivity. }
  unfold publishExtras.
  destruct (publishRelayList options || publishServerList options
            || publishProfile options); [|apply only_ret].
  apply only_bind; [apply Hemit; reflexivity|]. intros _.
  apply only_bind.
  { destruct (publishRelayList options); [apply Hextra | apply only_ret]. }
  intros _. apply only_bind.
  { destruct (publishServerList options); [apply Hextra | apply only_ret]. }
  intros _. destruct (publishProfile options); [|apply only_ret].
  destruct (pd_profile (p_project p)); [apply Hextra | apply only_ret].
Qed.

(** X9.  Without [--purge] the command never sends a DELETE request,
    whatever else it is asked to do. *)
Theorem no_delete_without_purge E fileOrFolder options st :
  purge options = false ->
  exists added,
    st_trace (snd (uploadCommand E fileOrFolder options st))
    = st_trace st ++ added
    /\ Forall (fun a => is_delete a = false) added.
Proof.
  intros Hpurge.
  destruct (only_uploadCommand_with E (fun a => negb (is_delete a))
              ltac:(intros a; destruct a; simpl; auto; intros H;
                    apply negb_false_iff in H; apply String.eqb_eq in H;
                    subst; reflexivity)
              ltac:(reflexivity) fileOrFolder options
              ltac:(intros p; now apply only_purgeFiles_off)
              ltac:(intros p; apply only_publishExtras;
                    intros a Ha; now rewrite Ha) st)
    as (added & T & F).
  exists added. split; auto.
  eapply Forall_impl; [|exact F]. simpl. intros a Ha.
  now apply negb_true_iff in Ha.
Qed.

Lemma no_delete_without_purge_witness :
  purge (sample_options true false true) = false
  /\ exists added,
      st_trace (snd (uploadCommand
                       (sample_env false false false true
                                   [index_page]
                                   [remote_file "/old.html" "dead" "e9"])
                       "dist" (sample_options true false true) initial_state))
      = st_trace initial_state ++ added
      /\ Forall (fun a => is_delete a = false) added.
Proof.
  split; [reflexivity|].
  exact (no_delete_without_purge
           (sample_env false false false true [index_page]
                       [remote_file "/old.html" "dead" "e9"])
           "dist" (sample_options true false true) initial_state eq_refl).
Defined.

(** X10.  When none of [--purge], [--publish-relay-list],
    [--publish-server-list] and [--publish-profile] is given, the command
    itself signs nothing, opens no relay connection and sends no request
    other than the HEAD probes: all signing and publishing is left to
    [processUploads]. *)
Theorem plain_upload_delegates E fileOrFolder options st :
  purge options = false ->
  publishRelayList options = false ->
  publishServerList options = false ->
  publishProfile options = false ->
  exists added,
    st_trace (snd (uploadCommand E fileOrFolder options st))
    = st_trace st ++ added
    /\ Forall (fun a => is_own_traffic a = false) added.
Proof.
  intros Hpurge H1 H2 H3.
  destruct (only_uploadCommand_with E (fun a => negb (is_own_traffic a))
              ltac:(intros a; destruct a; simpl; auto; try discriminate;
                    intros H; now rewrite H)
              ltac:(reflexivity) fileOrFolder options
              ltac:(intros p; now apply only_purgeFiles_off)
              ltac:(intros p; unfold publishExtras; rewrite H1, H2, H3;
                    apply only_ret) st)
    as (added & T & F).
  exists added. split; auto.
  eapply Forall_impl; [|exact F]. simpl. intros a Ha.
  now apply negb_true_iff in Ha.
Qed.

Lemma plain_upload_delegates_witness :
  purge (sample_options false false true) = false
  /\ exists added,
      st_trace (snd (uploadCommand
                       (sample_env false false false true [index_page] [])
                       "dist" (sample_options false false true) initial_state))
      = st_trace initial_state ++ added
      /\ Forall (fun a => is_own_traffic a = false) added.
Proof.
  split; [reflexivity|].
  exact (plain_upload_delegates
           (sample_env false false false true [index_page] [])
           "dist" (sample_options false false true) initial_state
           eq_refl eq_refl eq_refl eq_refl).
Defined.

(** ** After the upload *)

Lemma never_exits_ret {A : Type} (a : A) : never_exits (ret a).
Proof. intros st. exact I. Qed.

Lemma never_exits_throw {A : Type} e : never_exits (@throw A e).
Proof. intros st. exact I. Qed.

Lemma never_exits_lift {A : Type} (r : result A) : never_exits (lift r).
Proof. destruct r; intros st; exact I. Qed.

Lemma never_exits_emit a : never_exits (emit a).
Proof. intros st. exact I. Qed.

Lemma never_exits_tick : never_exits tick.
Proof. intros st. exact I. Qed.

Lemma never_exits_bind {A B : Type} (m : M A) (k : A -> M B) :
  never_exits m -> (forall a, never_exits (k a)) -> never_exits (bind m k).
Proof.
  intros Hm Hk st. unfold bind. specialize (Hm st).
  destruct (m st) as [[a| | |] st1]; simpl in *; auto. apply Hk.
Qed.

Lemma never_exits_of_completes {A : Type} (m : M A) :
  completes m -> never_exits m.
Proof. intros H st. specialize (H st). destruct (fst (m st)); auto. Qed.

Lemma completes_ret {A : Type} (a : A) : completes (ret a).
Proof. intros st. exact I. Qed.

Lemma completes_emit a : completes (emit a).
Proof. intros st. exact I. Qed.

Lemma completes_bind {A B : Type} (m : M A) (k : A -> M B) :
  completes m -> (forall a, completes (k a)) -> completes (bind m k).
Proof.
  intros Hm Hk st. unfold bind. specialize (Hm st).
  destruct (m st) as [[a| | |] st1]; simpl in *; auto. apply Hk.
Qed.

Lemma completes_try_catch {A : Type} (m : M A) (h : string -> M A) :
  never_exits m -> (forall e, completes (h e)) -> completes (try_catch m h).
Proof.
  intros Hm Hh st. unfold try_catch. specialize (Hm st).
  destruct (m st) as [[a| |e|] st1]; simpl in *; auto. apply Hh.
Qed.

Section AfterUpload.

Variable E : env.

Lemma completes_publish event relays : completes (publish E event relays).
Proof.
  intros st. destruct (publish_spec E event relays st) as (_ & _ & _ & [H|[b H]]);
    rewrite H; exact I.
Qed.

Lemma never_exits_sign signer template : never_exits (sign E signer template).
Proof.
  unfold sign. apply never_exits_bind; [apply never_exits_tick|]. intros t.
  apply never_exits_bind; [apply never_exits_emit|]. intros _.
  apply never_exits_lift.
Qed.

Lemma never_exits_now : never_exits (now E).
Proof.
  unfold now. apply never_exits_bind; [apply never_exits_tick|]. intros t.
  apply never_exits_ret.
Qed.

Lemma completes_purgeLoop signer relays servers files counts :
  completes (purgeLoop E signer relays servers files counts).
Proof.
  revert counts. induction files as [|file rest IH]; intros counts; simpl.
  - apply completes_ret.
  - apply completes_bind; auto.
    intros st. pose proof (purgeFile_counts E signer relays servers file counts st).
    destruct (fst (purgeFile E signer relays servers file counts st)); auto.
Qed.

Lemma completes_purgeFiles options p toDelete :
  completes (purgeFiles E options p toDelete).
Proof.
  unfold purgeFiles. destruct toDelete; [apply completes_ret|].
  destruct (purge options); [|apply completes_ret].
  apply completes_bind; [apply completes_emit|]. intros _.
  apply completes_bind; [apply completes_purgeLoop|]. intros counts.
  apply completes_emit.
Qed.

Lemma completes_publishExtra p label template :
  completes (publishExtra E p label template).
Proof.
  unfold publishExtra.
  apply completes_try_catch; [|intros; apply completes_emit].
  apply never_exits_bind; [apply never_exits_now|]. intros ms.
  apply never_exits_bind; [apply never_exits_sign|]. intros event.
  apply never_exits_bind;
    [apply never_exits_of_completes, completes_publish|].
  intros published. apply never_exits_emit.
Qed.

Lemma completes_publishExtras options p :
  completes (publishExtras E options p).
Proof.
  unfold publishExtras.
  destruct (publishRelayList options || publishServerList options
            || publishProfile options); [|apply completes_ret].
  apply completes_bind; [apply completes_emit|]. intros _.
  apply completes_bind.
  { destruct (publishRelayList options);
      [apply completes_publishExtra | apply completes_ret]. }
  intros _. apply completes_bind.
  { destruct (publishServerList options);
      [apply completes_publishExtra | apply completes_ret]. }
  intros _. destruct (publishProfile options); [|apply completes_ret].
  destruct (pd_profile (p_project p));
    [apply completes_publishExtra | apply completes_ret].
Qed.

(** X11.  Once the upload step has returned, nothing can make the command
    fail any more: an error while signing, publishing or deleting during
    the purge or while publishing the relay list, the server list or the
    profile is caught where it happens, and the command returns (or waits
    for a relay for ever); [Deno.exit] is not called and no exception
    escapes. *)
Theorem after_upload_no_failure fileOrFolder options p toTransfer toDelete
        st st1 :
  uploadFiles E fileOrFolder options p toTransfer st = (Val tt, st1) ->
  fst (carry_out E fileOrFolder options p toTransfer toDelete st) = Val tt
  \/ fst (carry_out E fileOrFolder options p toTransfer toDelete st) = Hang.
Proof.
  intros Hup.
  set (rest := bind (purgeFiles E options p toDelete)
                    (fun _ => bind (publishExtras E options p)
                                   (fun _ => emit (AConsoleLog
                                      "The website is now available on any nsite gateway")))).
  assert (Heq : carry_out E fileOrFolder options p toTransfer toDelete st
                = rest st1).
  { unfold carry_out, rest, bind at 1. rewrite Hup. reflexivity. }
  assert (Hc : completes rest).
  { apply completes_bind; [apply completes_purgeFiles|]. intros _.
    apply completes_bind; [apply completes_publishExtras|]. intros _.
    apply completes_emit. }
  rewrite Heq. specialize (Hc st1).
  destruct (fst (rest st1)) as [[]| | |]; simpl in Hc; auto; contradiction.
Qed.

End AfterUpload.

Lemma after_upload_no_failure_witness :
  uploadFiles (sample_env false false false false [index_page] [])
              "dist" (sample_options false true true) (sample_prepared [])
              [index_page] initial_state
  = (Val tt,
     mkState 0
       [ALoadFileData "/index.html";
        AProcessUploads ["/index.html"] ["https://blossom.example"]
                        [sample_relay];
        AConsoleLog "Uploaded 0/1 files"]
       [Collector.mkEntry Collector.file_error "/index.html"
                          (JStr "Failed to upload to any server")])
  /\ (fst (carry_out (sample_env false false false false [index_page] [])
             "dist" (sample_options false true true) (sample_prepared [])
             [index_page] [remote_file "/old.html" "dead" "e9"] initial_state)
      = Val tt
      \/ fst (carry_out (sample_env false false false false [index_page] [])
                "dist" (sample_options false true true) (sample_prepared [])
                [index_page] [remote_file "/old.html" "dead" "e9"]
                initial_state)
         = Hang).
Proof.
  split; [reflexivity|].
  exact (after_upload_no_failure
           (sample_env false false false false [index_page] [])
           "dist" (sample_options false true true) (sample_prepared [])
           [index_page] [remote_file "/old.html" "dead" "e9"]
           initial_state _ eq_refl).
Defined.

(** ** Loading and uploading *)

Section Loading.

Variable E : env.

Lemma loadFiles_run fileOrFolder files st :
  loadFiles E fileOrFolder files st
  = (Val (flat_map (loaded_of E fileOrFolder) files),
     mkState (st_tick st)
             (st_trace st ++ flat_map (load_actions_of E fileOrFolder) files)
             (st_collector st ++ flat_map (load_error_of E fileOrFolder) files)).
Proof.
  revert st. induction files as [|file rest IH]; intros st; simpl.
  - rewrite !app_nil_r. destruct st; reflexivity.
  - unfold loaded_of, load_error_of, load_actions_of at 1.
    destruct (loadFileData E fileOrFolder file) as [loaded|err]; run_cmd.
    + rewrite IH. simpl. rewrite <- app_assoc. reflexivity.
    + rewrite IH. simpl. unfold Collector.addFileError.
      rewrite <- !app_assoc. reflexivity.
Qed.

(** X12.  Loading the files to transfer never aborts the run: a file that
    cannot be read does not stop the loop.  The files that could be read
    are returned in their order, each file that could not be read gets one
    error entry under its path, and the two numbers add up to the number
    of files to transfer. *)
Theorem loadFiles_accounts fileOrFolder files st :
  loadFiles E fileOrFolder files st
  = (Val (flat_map (loaded_of E fileOrFolder) files),
     mkState (st_tick st)
             (st_trace st ++ flat_map (load_actions_of E fileOrFolder) files)
             (st_collector st ++ flat_map (load_error_of E fileOrFolder) files))
  /\ List.length (flat_map (loaded_of E fileOrFolder) files)
     + List.length (flat_map (load_error_of E fileOrFolder) files)
     = List.length files.
Proof.
  split; [apply loadFiles_run|].
  induction files as [|file rest IH]; simpl; auto.
  rewrite !length_app. unfold loaded_of at 1, load_error_of at 1.
  destruct (loadFileData E fileOrFolder file); simpl; lia.
Qed.

Lemma load_actions_no_upload fileOrFolder files :
  Forall (fun a => is_processUploads a = false)
         (flat_map (load_actions_of E fileOrFolder) files).
Proof.
  induction files as [|file rest IH]; simpl; [constructor|].
  constructor; [reflexivity|]. apply Forall_app. split; auto.
  destruct (loadFileData E fileOrFolder file); repeat constructor.
Qed.

Lemma count_none {A : Type} (f : A -> bool) l :
  Forall (fun a => f a = false) l -> count f l = 0.
Proof.
  unfold count. induction 1 as [|a l Ha _ IH]; simpl; auto. now rewrite Ha.
Qed.

Lemma uploadFiles_run fileOrFolder options p toTransfer st :
  toTransfer <> [] ->
  uploadFiles E fileOrFolder options p toTransfer st
  = uploadLoaded E fileOrFolder options p
      (flat_map (loaded_of E fileOrFolder) toTransfer)
      (mkState (st_tick st)
         (st_trace st ++ flat_map (load_actions_of E fileOrFolder) toTransfer)
         (st_collector st
            ++ flat_map (load_error_of E fileOrFolder) toTransfer)).
Proof.
  intros Hne. unfold uploadFiles.
  destruct toTransfer as [|file rest]; [contradiction|].
  unfold bind. now rewrite (loadFiles_run fileOrFolder (file :: rest) st).
Qed.

(** X13.  [processUploads] is called at most once per run, never with an
    empty list, and exactly with the files that could be loaded, in their
    order, the configured servers and relays; when files are to be
    transferred and none can be loaded, the command exits with status 1
    without calling it. *)
Theorem uploadFiles_calls_processUploads fileOrFolder options p toTransfer st :
  (exists added,
      st_trace (snd (uploadFiles E fileOrFolder options p toTransfer st))
      = st_trace st ++ added
      /\ count is_processUploads added <= 1
      /\ forall paths servers relays,
          In (AProcessUploads paths servers relays) added ->
          paths = map f_path (flat_map (loaded_of E fileOrFolder) toTransfer)
          /\ paths <> []
          /\ servers = p_servers p /\ relays = p_relays p)
  /\ (toTransfer <> [] ->
      flat_map (loaded_of E fileOrFolder) toTransfer = [] ->
      fst (uploadFiles E fileOrFolder options p toTransfer st) = Exit 1
      /\ count is_processUploads
           (st_trace (snd (uploadFiles E fileOrFolder options p toTransfer st)))
         = count is_processUploads (st_trace st)).
Proof.
  unfold uploadFiles.
  destruct toTransfer as [|file rest].
  { split; [|intros H; now elim H].
    exists []. simpl. rewrite app_nil_r. split; [reflexivity|]. split.
    - unfold count. simpl. lia.
    - intros ? ? ? []. }
  pose proof (load_actions_no_upload fileOrFolder (file :: rest)) as Hno.
  fold (uploadFiles E fileOrFolder options p (file :: rest)).
  rewrite (uploadFiles_run fileOrFolder options p (file :: rest) st)
    by discriminate.
  unfold uploadLoaded.
  set (acts := flat_map (load_actions_of E fileOrFolder) (file :: rest)) in *.
  destruct (flat_map (loaded_of E fileOrFolder) (file :: rest))
    as [|loaded more] eqn:Hloaded.
  - split.
    + eexists. run_cmd. split; [rewrite <- app_assoc; reflexivity|]. split.
      * rewrite count_app, (count_none _ _ Hno). unfold count. simpl. lia.
      * intros paths servers relays Hin. exfalso.
        apply in_app_or in Hin as [Hin|[Hin|[]]]; [|discriminate].
        rewrite Forall_forall in Hno. specialize (Hno _ Hin). discriminate.
    + intros _ _. run_cmd. split; [reflexivity|].
      rewrite !count_app, (count_none _ _ Hno). unfold count. simpl. lia.
  - split; [|intros _ H; discriminate].
    run_cmd.
    destruct (processUploads E (loaded :: more) fileOrFolder (p_servers p)
                (p_signer p) (p_relays p) (concurrency options))
      as [results|err]; simpl.
    + eexists. split; [rewrite <- !app_assoc; reflexivity|]. split.
      * rewrite count_app, (count_none _ _ Hno). unfold count. simpl. lia.
      * intros paths servers relays Hin.
        apply in_app_or in Hin as [Hin|[Hin|[Hin|[]]]]; try discriminate.
        -- rewrite Forall_forall in Hno. specialize (Hno _ Hin). discriminate.
        -- injection Hin as <- <- <-. repeat split; auto. discriminate.
    + eexists. split; [rewrite <- !app_assoc; reflexivity|]. split.
      * rewrite count_app, (count_none _ _ Hno). unfold count. simpl. lia.
      * intros paths servers relays Hin.
        apply in_app_or in Hin as [Hin|[Hin|[]]].
        -- rewrite Forall_forall in Hno. specialize (Hno _ Hin). discriminate.
        -- injection Hin as <- <- <-. repeat split; auto. discriminate.
Qed.

End Loading.

Lemma uploadFiles_calls_processUploads_witness :
  [index_page] <> []
  /\ flat_map (loaded_of unreadable_env "dist") [index_page] = []
  /\ fst (uploadFiles unreadable_env "dist" (sample_options false false true)
                      (sample_prepared []) [index_page] initial_state)
     = Exit 1.
Proof.
  split; [discriminate|]. split; [reflexivity|].
  refine (proj1 (proj2 (uploadFiles_calls_processUploads unreadable_env "dist"
                          (sample_options false false true)
                          (sample_prepared []) [index_page] initial_state)
                       _ eq_refl)).
  discriminate.
Defined.

(** ** The exit status *)

Section ExitStatus.

Variable E : env.

(** After the files are loaded: [processUploads] decides. *)
Lemma uploadLoaded_ends fileOrFolder options p loaded st :
  loaded <> [] ->
  match processUploads E loaded fileOrFolder (p_servers p) (p_signer p)
          (p_relays p) (concurrency options) with
  | Ok results =>
      fst (uploadLoaded E fileOrFolder options p loaded st) = Val tt
  | Err e =>
      fst (uploadLoaded E fileOrFolder options p loaded st) = Throw e
  end.
Proof.
  intros Hne. unfold uploadLoaded.
  destruct loaded as [|file rest]; [contradiction|]. run_cmd.
  destruct (processUploads E (file :: rest) fileOrFolder (p_servers p)
              (p_signer p) (p_relays p) (concurrency options)); reflexivity.
Qed.

Lemma carry_out_ends fileOrFolder options p toTransfer toDelete st :
  flat_map (loaded_of E fileOrFolder) toTransfer <> [] ->
  match processUploads E (flat_map (loaded_of E fileOrFolder) toTransfer)
          fileOrFolder (p_servers p) (p_signer p) (p_relays p)
          (concurrency options) with
  | Ok results =>
      fst (carry_out E fileOrFolder options p toTransfer toDelete st) = Val tt
      \/ fst (carry_out E fileOrFolder options p toTransfer toDelete st) = Hang
  | Err e =>
      fst (carry_out E fileOrFolder options p toTransfer toDelete st) = Throw e
  end.
Proof.
  intros Hne.
  assert (Ht : toTransfer <> []) by (intros ->; now apply Hne).
  set (rest := bind (purgeFiles E options p toDelete)
                    (fun _ => bind (publishExtras E options p)
                                   (fun _ => emit (AConsoleLog
                                      "The website is now available on any nsite gateway")))).
  assert (Hc : completes rest).
  { apply completes_bind; [apply completes_purgeFiles|]. intros _.
    apply completes_bind; [apply completes_publishExtras|]. intros _.
    apply completes_emit. }
  assert (Heq : carry_out E fileOrFolder options p toTransfer toDelete st
                = bind (uploadFiles E fileOrFolder options p toTransfer)
                       (fun _ => rest) st) by reflexivity.
  rewrite Heq. unfold bind at 1. unfold bind at 1. unfold bind at 1.
  rewrite (uploadFiles_run E fileOrFolder options p toTransfer st Ht).
  match goal with
  | |- context [uploadLoaded E fileOrFolder options p ?l ?s] =>
      pose proof (uploadLoaded_ends fileOrFolder options p l s Hne) as Hu;
      destruct (uploadLoaded E fileOrFolder options p l s) as [r st1]
  end.
  destruct (processUploads E (flat_map (loaded_of E fileOrFolder) toTransfer)
              fileOrFolder (p_servers p) (p_signer p) (p_relays p)
              (concurrency options)) as [results|e];
    simpl in Hu; subst r; [|reflexivity].
  specialize (Hc st1).
  destruct (fst (rest st1)) as [[]| | |]; simpl in Hc; auto; contradiction.
Qed.

(** The command from the comparison on, once the preparation has
    returned [p]. *)
Lemma uploadCommand_prepared fileOrFolder options st p st1 :
  prepare E fileOrFolder options st = (Val p, st1) ->
  uploadCommand E fileOrFolder options st
  = try_catch (reconcile E fileOrFolder options p) report_failure st1.
Proof.
  intros Hp. unfold uploadCommand, try_catch, bind. now rewrite Hp.
Qed.

Lemma reconcile_transfers fileOrFolder options p st1 message st2 toTransfer st3 :
  headProbe E options (p_servers p) (p_localFiles p) (p_remoteFiles p) st1
  = (Val message, st2) ->
  checkChanges E options (p_remoteFiles p)
    (compareFiles (p_localFiles p) (p_remoteFiles p)) message st2
  = (Val toTransfer, st3) ->
  reconcile E fileOrFolder options p st1
  = carry_out E fileOrFolder options p toTransfer
      (toDelete (compareFiles (p_localFiles p) (p_remoteFiles p))) st3.
Proof.
  intros Hh Hc. unfold reconcile, bind. now rewrite Hh, Hc.
Qed.

Lemma uploadCommand_outcomes fileOrFolder options st :
  match fst (uploadCommand E fileOrFolder options st) with
  | Exit c => c = 0%Z \/ c = 1%Z
  | Throw _ => False
  | Val _ | Hang => True
  end.
Proof.
  unfold uploadCommand, try_catch.
  assert (Hb : exits_0_or_1 (bind (prepare E fileOrFolder options)
                                  (reconcile E fileOrFolder options))).
  { apply exits_bind; [apply exits_prepare|].
    intros p. apply exits_reconcile. }
  specialize (Hb st).
  destruct (bind (prepare E fileOrFolder options)
                 (reconcile E fileOrFolder options) st) as [[v|c|e|] st1];
    simpl in *; auto.
Qed.

(** C7, as the code has it.  A run started interactively calls
    [Deno.exit(1)] when the setup yields no project data; a
    non-interactive run never does, because a missing project file is
    replaced by an empty default configuration.  The command calls
    [Deno.exit(1)] when neither an option nor the project supplies a
    private key or a bunker, and when an error reaches its outermost
    [catch], as happens when the setup or [processUploads] throws.
    [Deno.exit] is never called with a status other than 0 and 1 and no
    exception escapes the command.  When [processUploads] returns results,
    whatever they report, the command does not exit: it returns, so that
    the process ends with status 0, or it waits for a relay for ever.  When
    nothing is to be uploaded or deleted, [--force] is not given, and the
    run is non-interactive or the prompt is declined, the command calls
    [Deno.exit(0)]. *)
Theorem exit_status fileOrFolder options st :
  (forall ctx,
      nonInteractive options = false ->
      setupProject E = Ok ctx ->
      projectData ctx = None ->
      fst (uploadCommand E fileOrFolder options st) = Exit 1)
  /\ (nonInteractive options = true ->
      bind (getProjectContext E options) requireProjectData st
      = (Val (match readProjectFile E with
              | Some pd => pd
              | None => default_project
              end), st))
  /\ (forall ctx st1 pd,
        getProjectContext E options st = (Val ctx, st1) ->
        projectData ctx = Some pd ->
        truthy (privatekey options) = false ->
        truthy (nbunksec options) = false ->
        truthy (bunker options) = false ->
        truthy (privateKey ctx) = false ->
        truthy (pd_bunkerPubkey pd) = false ->
        fst (uploadCommand E fileOrFolder options st) = Exit 1)
  /\ (forall e,
        nonInteractive options = false ->
        setupProject E = Err e ->
        fst (uploadCommand E fileOrFolder options st) = Exit 1)
  /\ (forall p st1 message st2 toTransfer st3 e,
        prepare E fileOrFolder options st = (Val p, st1) ->
        headProbe E options (p_servers p) (p_localFiles p) (p_remoteFiles p) st1
        = (Val message, st2) ->
        checkChanges E options (p_remoteFiles p)
          (compareFiles (p_localFiles p) (p_remoteFiles p)) message st2
        = (Val toTransfer, st3) ->
        flat_map (loaded_of E fileOrFolder) toTransfer <> [] ->
        processUploads E (flat_map (loaded_of E fileOrFolder) toTransfer)
          fileOrFolder (p_servers p) (p_signer p) (p_relays p)
          (concurrency options) = Err e ->
        fst (uploadCommand E fileOrFolder options st) = Exit 1)
  /\ match fst (uploadCommand E fileOrFolder options st) with
     | Exit c => c = 0%Z \/ c = 1%Z
     | Throw _ => False
     | Val _ | Hang => True
     end
  /\ (forall p st1 message st2 toTransfer st3 results,
        prepare E fileOrFolder options st = (Val p, st1) ->
        headProbe E options (p_servers p) (p_localFiles p) (p_remoteFiles p) st1
        = (Val message, st2) ->
        checkChanges E options (p_remoteFiles p)
          (compareFiles (p_localFiles p) (p_remoteFiles p)) message st2
        = (Val toTransfer, st3) ->
        flat_map (loaded_of E fileOrFolder) toTransfer <> [] ->
        processUploads E (flat_map (loaded_of E fileOrFolder) toTransfer)
          fileOrFolder (p_servers p) (p_signer p) (p_relays p)
          (concurrency options) = Ok results ->
        fst (uploadCommand E fileOrFolder options st) = Val tt
        \/ fst (uploadCommand E fileOrFolder options st) = Hang)
  /\ (forall p st1,
        prepare E fileOrFolder options st = (Val p, st1) ->
        toTransfer (compareFiles (p_localFiles p) (p_remoteFiles p)) = [] ->
        toDelete (compareFiles (p_localFiles p) (p_remoteFiles p)) = [] ->
        force options = false ->
        nonInteractive options = true \/ Confirm_prompt E = Ok false ->
        fst (uploadCommand E fileOrFolder options st) = Exit 0).
Proof.
  split; [|split; [|split; [|split; [|split; [|split; [|split]]]]]].
  - intros ctx Hni Hsetup Hnone.
    unfold uploadCommand, try_catch, prepare, getProjectContext,
      requireProjectData, bind.
    rewrite Hni, Hsetup. simpl. rewrite Hnone. reflexivity.
  - intros Hni. unfold getProjectContext, requireProjectData, bind.
    rewrite Hni. reflexivity.
  - intros ctx st1 pd Hctx Hsome H1 H2 H3 H4 H5.
    unfold uploadCommand, try_catch, prepare, requireProjectData, bind.
    rewrite Hctx, Hsome. unfold ret at 1. unfold selectSigner.
    rewrite !with_truthy_false by assumption. reflexivity.
  - intros e Hni Hsetup.
    unfold uploadCommand, try_catch, prepare, getProjectContext, bind.
    rewrite Hni, Hsetup. reflexivity.
  - intros p st1 message st2 toTransfer st3 e Hp Hh Hc Hl Hu.
    rewrite (uploadCommand_prepared _ _ _ _ _ Hp). unfold try_catch.
    rewrite (reconcile_transfers _ _ _ _ _ _ _ _ Hh Hc).
    pose proof (carry_out_ends fileOrFolder options p toTransfer
                  (toDelete (compareFiles (p_localFiles p) (p_remoteFiles p)))
                  st3 Hl) as Hends.
    rewrite Hu in Hends.
    destruct (carry_out E fileOrFolder options p toTransfer _ st3) as [r st4].
    simpl in Hends. subst r. reflexivity.
  - apply uploadCommand_outcomes.
  - intros p st1 message st2 toTransfer st3 results Hp Hh Hc Hl Hu.
    rewrite (uploadCommand_prepared _ _ _ _ _ Hp). unfold try_catch.
    rewrite (reconcile_transfers _ _ _ _ _ _ _ _ Hh Hc).
    pose proof (carry_out_ends fileOrFolder options p toTransfer
                  (toDelete (compareFiles (p_localFiles p) (p_remoteFiles p)))
                  st3 Hl) as Hends.
    rewrite Hu in Hends.
    destruct (carry_out E fileOrFolder options p toTransfer _ st3) as [r st4].
    simpl in Hends. destruct Hends as [->| ->]; auto.
  - intros p st1 Hp Ht Hd Hforce Hno.
    rewrite (uploadCommand_prepared _ _ _ _ _ Hp).
    unfold try_catch, reconcile, bind.
    destruct (headProbe_returns E options (p_servers p) (p_localFiles p)
                (p_remoteFiles p) st1) as [message Hm].
    destruct (headProbe E options (p_servers p) (p_localFiles p)
                (p_remoteFiles p) st1) as [r st2].
    simpl in Hm. subst r.
    pose proof (checkChanges_stops E options (p_remoteFiles p)
                  (compareFiles (p_localFiles p) (p_remoteFiles p)) message st2
                  (or_introl (conj Ht (or_intror Hd))) Hforce Hno) as Hg.
    destruct (checkChanges E options (p_remoteFiles p)
                (compareFiles (p_localFiles p) (p_remoteFiles p)) message st2)
      as [r st3].
    simpl in Hg. subst r. reflexivity.
Qed.

End ExitStatus.

Lemma exit_status_witness :
  prepare (sample_env false false false false [index_page] [])
          "dist" (sample_options false false true) initial_state
  = (Val (sample_prepared []), initial_state)
  /\ processUploads (sample_env false false false false [index_page] [])
       [index_page] "dist" ["https://blossom.example"]
       (PrivateKeySigner "nsec1") [sample_relay] 4
     = Ok [mkResult index_page false false None
                    (Some "Failed to upload to any server")]
  /\ (fst (uploadCommand (sample_env false false false false [index_page] [])
             "dist" (sample_options false false true) initial_state)
      = Val tt
      \/ fst (uploadCommand (sample_env false false false false [index_page] [])
                "dist" (sample_options false false true) initial_state)
         = Hang).
Proof.
  split; [reflexivity|]. split; [reflexivity|].
  refine (proj1 (proj2 (proj2 (proj2 (proj2 (proj2 (proj2
            (exit_status (sample_env false false false false [index_page] [])
               "dist" (sample_options false false true) initial_state)))))))
            (sample_prepared []) initial_state "" _ [index_page] _
            [mkResult index_page false false None
                      (Some "Failed to upload to any server")]
            eq_refl eq_refl eq_refl _ eq_refl).
  discriminate.
Defined.

(** C7, counterexamples to the claim as stated.  The only file could not
    be stored on any server, and the command returns all the same, so the
    process ends with status 0.  And a non-interactive run that finds no
    project file, started with a key on the command line, goes on with
    the default configuration and ends with status 0 too. *)
Lemma failed_uploads_exit_0 :
  let E := sample_env false false false false [index_page] [] in
  let options := sample_options false false true in
  let U := without_project_file
             (sample_env false false false true [index_page] []) in
  (processUploads E [index_page] "dist" ["https://blossom.example"]
                  (PrivateKeySigner "nsec1") [sample_relay] 4
   = Ok [mkResult index_page false false None
                  (Some "Failed to upload to any server")]
   /\ In (AProcessUploads ["/index.html"] ["https://blossom.example"]
                          [sample_relay])
         (st_trace (snd (uploadCommand E "dist" options initial_state)))
   /\ exit_code (fst (uploadCommand E "dist" options initial_state)) = Some 0%Z)
  /\ (nonInteractive options = true
      /\ readProjectFile U = None
      /\ exit_code (fst (uploadCommand U "dist" options initial_state))
         = Some 0%Z).
Proof. vm_compute. repeat split; auto 12. Qed.

(** ** The HEAD probe and the server address *)

Lemma endsWith_app s suffix : endsWith (s ++ suffix) suffix = true.
Proof.
  induction s as [|c s IH]; simpl.
  - destruct suffix; simpl; [reflexivity|].
    now rewrite Ascii.eqb_refl, String.eqb_refl.
  - rewrite IH. apply orb_true_r.
Qed.

(** X14.  The address requests are sent to always ends with a slash: an
    address that has one is used as it is, the others get one, and
    normalising twice changes nothing. *)
Theorem serverUrl_normalises server :
  endsWith (serverUrl server) "/" = true
  /\ serverUrl (serverUrl server) = serverUrl server
  /\ (endsWith server "/" = true -> serverUrl server = server)
  /\ (endsWith server "/" = false -> serverUrl server = (server ++ "/")%string).
Proof.
  assert (H : endsWith (serverUrl server) "/" = true).
  { unfold serverUrl. destruct (endsWith server "/") eqn:He; auto.
    apply endsWith_app. }
  split; [exact H|]. split; [|split].
  - unfold serverUrl at 1. now rewrite H.
  - intros He. unfold serverUrl. now rewrite He.
  - intros He. unfold serverUrl. now rewrite He.
Qed.

Lemma serverUrl_normalises_witness :
  endsWith "https://blossom.example/" "/" = true
  /\ serverUrl "https://blossom.example/" = "https://blossom.example/".
Proof.
  split; [reflexivity|].
  exact (proj1 (proj2 (proj2 (serverUrl_normalises "https://blossom.example/")))
               eq_refl).
Defined.

Section Probe.

Variable E : env.

(** X15.  The probe asks the servers in the order of the list, one HEAD
    request each for the first file's hash, and stops at the first server
    that answers with a 2xx status: the requests sent are those for an
    initial part of the list; of the servers asked only the last one can
    have answered with a 2xx status, and it has exactly when the probe
    reports that the blob exists; when it reports that it does not, every
    server of the list was asked.  A server that cannot be reached or
    answers otherwise does not end the probe. *)
Theorem probe_asks_in_order sha servers st :
  exists found message st' asked skipped added,
    probeServers E sha servers st = (Val (found, message), st')
    /\ servers = asked ++ skipped
    /\ st_trace st' = st_trace st ++ added
    /\ filter is_request added = map (head_request sha) asked
    /\ st_tick st' = st_tick st + List.length asked
    /\ (forall k server,
          nth_error asked k = Some server ->
          answers_2xx (fetch E (st_tick st + k) "HEAD"
                             (serverUrl server ++ sha) None)
          = found && Nat.eqb (S k) (List.length asked))
    /\ (found = false -> skipped = [])
    /\ (found = true -> asked <> []).
Proof.
  revert st. induction servers as [|server rest IH]; intros st.
  - exists false, "", st, [], [], []. simpl. rewrite app_nil_r.
    repeat split; auto; try lia; try discriminate.
    intros [|k] server; discriminate.
  - simpl. run_cmd.
    set (st1 := mkState (S (st_tick st))
                        (st_trace st ++ [head_request sha server])
                        (st_collector st)).
    assert (Hmiss :
              answers_2xx (fetch E (st_tick st) "HEAD"
                                 (serverUrl server ++ sha) None) = false ->
              exists found message st' asked skipped added,
                probeServers E sha rest st1 = (Val (found, message), st')
                /\ server :: rest = asked ++ skipped
                /\ st_trace st' = st_trace st ++ added
                /\ filter is_request added = map (head_request sha) asked
                /\ st_tick st' = st_tick st + List.length asked
                /\ (forall k srv,
                      nth_error asked k = Some srv ->
                      answers_2xx (fetch E (st_tick st + k) "HEAD"
                                         (serverUrl srv ++ sha) None)
                      = found && Nat.eqb (S k) (List.length asked))
                /\ (found = false -> skipped = [])
                /\ (found = true -> asked <> [])).
    { intros Hno.
      destruct (IH st1)
        as (found & message & st' & asked & skipped & added
            & H1 & H2 & H3 & H4 & H5 & Hans & H6 & H7).
      exists found, message, st', (server :: asked), skipped,
        (head_request sha server :: added).
      subst rest. simpl in *. repeat split; auto.
      - rewrite H3, <- app_assoc. reflexivity.
      - now rewrite H4.
      - lia.
      - intros [|k] srv Hk; simpl in Hk.
        + injection Hk as <-. rewrite Nat.add_0_r, Hno.
          destruct found; simpl; [|reflexivity].
          destruct asked; [now elim H7 | reflexivity].
        + replace (st_tick st + S k) with (S (st_tick st + k)) by lia.
          exact (Hans k srv Hk).
      - discriminate. }
    unfold head_request in *. fold st1.
    destruct (fetch E (st_tick st) "HEAD" (serverUrl server ++ sha) None)
      as [response|err] eqn:Hfetch; simpl; [|apply Hmiss; reflexivity].
    destruct (ok response) eqn:Hok; simpl; [|apply Hmiss; exact Hok].
    assert (Hhit : forall k srv,
               nth_error [server] k = Some srv ->
               answers_2xx (fetch E (st_tick st + k) "HEAD"
                                  (serverUrl srv ++ sha) None)
               = true && Nat.eqb (S k) 1).
    { intros [|[|k]] srv Hk; simpl in Hk; try discriminate.
      injection Hk as <-. rewrite Nat.add_0_r, Hfetch. exact Hok. }
    destruct (isInteractive E); simpl.
    + eexists true, _, _, [server], rest, _.
      split; [reflexivity|]. simpl.
      repeat split; auto; try lia; discriminate.
    + eexists true, _, _, [server], rest, _.
      split; [reflexivity|]. simpl. rewrite <- !app_assoc. simpl.
      repeat split; auto; try lia; discriminate.
Qed.

End Probe.

(** ** With [--force] *)

Section Forcing.

Variable E : env.

(** X16.  In a non-interactive run [--force] never ends the run at the
    comparison: when some files are new or changed exactly those are
    transferred, and only when none is are the unchanged files transferred
    again (provided no deletion is pending under [--purge]). *)
Theorem force_non_interactive options remoteFiles d message st :
  force options = true ->
  nonInteractive options = true ->
  (toTransfer d <> [] ->
   fst (checkChanges E options remoteFiles d message st) = Val (toTransfer d))
  /\ (toTransfer d = [] ->
      purge options = false \/ toDelete d = [] ->
      fst (checkChanges E options remoteFiles d message st) = Val (existing d))
  /\ (toTransfer d = [] ->
      purge options = true ->
      toDelete d <> [] ->
      fst (checkChanges E options remoteFiles d message st) = Val []).
Proof.
  intros Hforce Hni. unfold checkChanges, decide, bind.
  rewrite Hforce, Hni. simpl. rewrite !andb_false_r, !orb_false_r.
  split; [|split].
  - intros Hne. destruct (toTransfer d) as [|f l]; [contradiction|].
    simpl. destruct (truthy_string message); reflexivity.
  - intros Ht Hd. rewrite Ht.
    assert (Hc : negb (purge options)
                 || match toDelete d with [] => true | _ :: _ => false end
                 = true).
    { destruct Hd as [->| ->]; simpl; auto. apply orb_true_r. }
    rewrite Hc. simpl. destruct (truthy_string message); reflexivity.
  - intros Ht Hp Hd. rewrite Ht, Hp.
    destruct (toDelete d) as [|f l]; [contradiction|].
    simpl. destruct (truthy_string message); reflexivity.
Qed.

(** X17.  In an interactive run [--force] does not replace the prompt: when
    nothing is new or changed (and no deletion is pending under
    [--purge]) the user is asked, and a negative answer ends the run with
    status 0 although [--force] is given. *)
Theorem force_interactive_still_asks options remoteFiles d message st :
  force options = true ->
  nonInteractive options = false ->
  toTransfer d = [] ->
  purge options = false \/ toDelete d = [] ->
  (Confirm_prompt E = Ok false ->
   fst (checkChanges E options remoteFiles d message st) = Exit 0)
  /\ (Confirm_prompt E = Ok true ->
      fst (checkChanges E options remoteFiles d message st) = Val (existing d))
  /\ (forall err,
        Confirm_prompt E = Err err ->
        fst (checkChanges E options remoteFiles d message st) = Throw err).
Proof.
  intros Hforce Hni Ht Hd. unfold checkChanges, decide, bind.
  rewrite Hforce, Hni, Ht. simpl. rewrite !andb_false_r, !orb_false_r.
  assert (Hc : negb (purge options)
               || match toDelete d with [] => true | _ :: _ => false end
               = true).
  { destruct Hd as [->| ->]; simpl; auto. apply orb_true_r. }
  rewrite Hc. simpl.
  split; [|split].
  - intros ->. unfold nothing_to_do, bind.
    destruct (truthy_string message); destruct (existing d); reflexivity.
  - intros ->. destruct (truthy_string message); reflexivity.
  - intros err ->. destruct (truthy_string message); reflexivity.
Qed.

End Forcing.

Lemma force_non_interactive_witness :
  force (sample_options true false true) = true
  /\ fst (checkChanges (sample_env false false false true [] [])
            (sample_options true false true) [index_announced]
            (compareFiles [index_page] [index_announced]) "" initial_state)
     = Val [index_page].
Proof.
  split; [reflexivity|].
  exact (proj1 (proj2 (force_non_interactive
                         (sample_env false false false true [] [])
                         (sample_options true false true) [index_announced]
                         (compareFiles [index_page] [index_announced]) ""
                         initial_state eq_refl eq_refl))
               eq_refl (or_introl eq_refl)).
Defined.

Lemma force_interactive_still_asks_witness :
  force (sample_options true false false) = true
  /\ fst (checkChanges (sample_env true false false true [] [])
            (sample_options true false false) [index_announced]
            (compareFiles [index_page] [index_announced]) "" initial_state)
     = Exit 0.
Proof.
  split; [reflexivity|].
  exact (proj1 (force_interactive_still_asks
                  (sample_env true false false true [] [])
                  (sample_options true false false) [index_announced]
                  (compareFiles [index_page] [index_announced]) ""
                  initial_state eq_refl eq_refl eq_refl (or_introl eq_refl))
               eq_refl).
Defined.

(** ** The per-server statistics *)

Lemma map_get_set {V : Type} key key' (value : V) m :
  map_get key' (map_set key value m)
  = if String.eqb key key' then Some value else map_get key' m.
Proof.
  induction m as [|[k0 v0] m IH]; simpl.
  - destruct (String.eqb key key'); reflexivity.
  - destruct (String.eqb k0 key) eqn:E0; simpl.
    + apply String.eqb_eq in E0. subst k0.
      destruct (String.eqb key key'); reflexivity.
    + destruct (String.eqb k0 key') eqn:E1.
      * apply String.eqb_eq in E1. subst k0.
        rewrite String.eqb_sym, E0. reflexivity.
      * exact IH.
Qed.

Lemma map_set_present {V : Type} key (value : V) m :
  map_get key m <> None -> map fst (map_set key value m) = map fst m.
Proof.
  induction m as [|[k0 v0] m IH]; simpl; intros H.
  - contradiction.
  - destruct (String.eqb k0 key) eqn:E0; simpl.
    + reflexivity.
    + f_equal. apply IH. exact H.
Qed.

Lemma map_set_keys {V : Type} key (value : V) m key' :
  In key' (map fst (map_set key value m))
  <-> key' = key \/ In key' (map fst m).
Proof.
  induction m as [|[k0 v0] m IH]; simpl.
  - intuition.
  - destruct (String.eqb k0 key) eqn:E0; simpl.
    + apply String.eqb_eq in E0. subst k0. intuition.
    + rewrite IH. intuition.
Qed.

Lemma map_set_NoDup {V : Type} key (value : V) m :
  NoDup (map fst m) -> NoDup (map fst (map_set key value m)).
Proof.
  induction m as [|[k0 v0] m IH]; simpl; intros H.
  - constructor; [intros []|constructor].
  - destruct (String.eqb k0 key) eqn:E0; simpl.
    + exact H.
    + inversion H as [|x l Hx Hl]; subst. constructor.
      * rewrite map_set_keys. intros [->|Hin]; [|contradiction].
        now rewrite String.eqb_refl in E0.
      * apply IH. exact Hl.
Qed.

Lemma map_get_In {V : Type} key (value : V) m :
  NoDup (map fst m) -> In (key, value) m -> map_get key m = Some value.
Proof.
  induction m as [|[k0 v0] m IH]; simpl; intros Hnd Hin.
  - contradiction.
  - inversion Hnd as [|x l Hx Hl]; subst.
    destruct Hin as [Heq|Hin].
    + inversion Heq; subst. now rewrite String.eqb_refl.
    + destruct (String.eqb k0 key) eqn:E0.
      * apply String.eqb_eq in E0. subst k0. exfalso. apply Hx.
        change key with (fst (key, value)). now apply in_map.
      * now apply IH.
Qed.

Lemma filter_length_le {A : Type} (p q : A -> bool) l :
  (forall x, p x = true -> q x = true) ->
  List.length (filter p l) <= List.length (filter q l).
Proof.
  intros Hpq. induction l as [|x l IH]; simpl; [lia|].
  destruct (p x) eqn:Hp.
  - rewrite (Hpq x Hp). simpl. lia.
  - destruct (q x); simpl; lia.
Qed.

Section ServerStatistics.

Variable serverResults : UploadResult -> list (string * bool).

Lemma initServerStats_get servers server :
  map_get server (initServerStats servers)
  = if existsb (String.eqb server) servers then Some (mkStats 0 0) else None.
Proof.
  unfold initServerStats.
  assert (H : forall m,
             map_get server
               (fold_left (fun m s => map_set s (mkStats 0 0) m) servers m)
             = if existsb (String.eqb server) servers
               then Some (mkStats 0 0) else map_get server m).
  { induction servers as [|s rest IH]; intros m; simpl; [reflexivity|].
    rewrite IH, map_get_set, (String.eqb_sym s server).
    destruct (existsb (String.eqb server) rest); [now rewrite orb_true_r|].
    rewrite orb_false_r. reflexivity. }
  apply H.
Qed.

Lemma initServerStats_keys servers :
  NoDup (map fst (initServerStats servers))
  /\ forall server,
       In server (map fst (initServerStats servers)) <-> In server servers.
Proof.
  unfold initServerStats.
  assert (H : forall m : list (string * ServerStats),
             NoDup (map fst m) ->
             NoDup (map fst (fold_left
                               (fun m s => map_set s (mkStats 0 0) m)
                               servers m))
             /\ forall server,
                  In server (map fst (fold_left
                                        (fun m s => map_set s (mkStats 0 0) m)
                                        servers m))
                  <-> In server servers \/ In server (map fst m)).
  { induction servers as [|s rest IH]; intros m Hm; simpl.
    - split; [exact Hm|]. intuition.
    - destruct (IH (map_set s (mkStats 0 0) m) (map_set_NoDup _ _ _ Hm))
        as [Hnd Hin].
      split; [exact Hnd|]. intros server. rewrite Hin, map_set_keys.
      intuition. }
  destruct (H [] (NoDup_nil _)) as [Hnd Hin]. split; [exact Hnd|].
  intros server. rewrite Hin. simpl. intuition.
Qed.

Lemma tallyEntry_get m entry server :
  map_get server (tallyEntry m entry)
  = option_map (bump server entry) (map_get server m).
Proof.
  unfold tallyEntry, bump.
  destruct (map_get (fst entry) m) as [stats|] eqn:G.
  - rewrite map_get_set. destruct (String.eqb (fst entry) server) eqn:Es.
    + apply String.eqb_eq in Es. rewrite <- Es, G. simpl.
      destruct (snd entry); simpl; f_equal; f_equal; lia.
    + simpl. destruct (map_get server m) as [[a b]|]; simpl;
        [rewrite !Nat.add_0_r|]; reflexivity.
  - destruct (String.eqb (fst entry) server) eqn:Es.
    + apply String.eqb_eq in Es. rewrite <- Es, G. reflexivity.
    + simpl. destruct (map_get server m) as [[a b]|]; simpl;
        [rewrite !Nat.add_0_r|]; reflexivity.
Qed.

Lemma tallyEntry_keys m entry :
  map fst (tallyEntry m entry) = map fst m.
Proof.
  unfold tallyEntry. destruct (map_get (fst entry) m) eqn:G; [|reflexivity].
  apply map_set_present. congruence.
Qed.

Lemma tallyEntries_get entries m server :
  map_get server (fold_left tallyEntry entries m)
  = option_map
      (fun stats =>
         mkStats (success stats
                  + List.length
                      (filter (fun entry => String.eqb (fst entry) server
                                            && snd entry) entries))
                 (total stats
                  + List.length
                      (filter (fun entry => String.eqb (fst entry) server)
                              entries)))
      (map_get server m).
Proof.
  revert m. induction entries as [|entry rest IH]; intros m; simpl.
  - destruct (map_get server m) as [[a b]|]; simpl;
      [rewrite !Nat.add_0_r|]; reflexivity.
  - rewrite IH, tallyEntry_get. unfold bump.
    destruct (map_get server m) as [[a b]|]; simpl; [|reflexivity].
    destruct (String.eqb (fst entry) server); simpl;
      [destruct (snd entry); simpl|]; f_equal; f_equal; lia.
Qed.

Lemma tallyEntries_keys entries m :
  map fst (fold_left tallyEntry entries m) = map fst m.
Proof.
  revert m. induction entries as [|entry rest IH]; intros m; simpl.
  - reflexivity.
  - rewrite IH. apply tallyEntry_keys.
Qed.

Lemma tallyResults_get results m server :
  map_get server (fold_left (tallyResult serverResults) results m)
  = option_map
      (fun stats =>
         mkStats (success stats
                  + sum_over (successes_on serverResults server) results)
                 (total stats
                  + sum_over (attempts_on serverResults server) results))
      (map_get server m).
Proof.
  revert m. induction results as [|result rest IH]; intros m; simpl.
  - destruct (map_get server m) as [[a b]|]; simpl;
      [rewrite !Nat.add_0_r|]; reflexivity.
  - rewrite IH. unfold tallyResult, successes_on at 2, attempts_on at 2.
    destruct (r_success result); simpl.
    + rewrite tallyEntries_get.
      destruct (map_get server m) as [[a b]|]; simpl; [|reflexivity].
      f_equal. f_equal; lia.
    + reflexivity.
Qed.

Lemma tallyResults_keys results m :
  map fst (fold_left (tallyResult serverResults) results m) = map fst m.
Proof.
  revert m. induction results as [|result rest IH]; intros m; simpl.
  - reflexivity.
  - rewrite IH. unfold tallyResult.
    destruct (r_success result); [apply tallyEntries_keys|reflexivity].
Qed.

Lemma successes_le_attempts server results :
  sum_over (successes_on serverResults server) results
  <= sum_over (attempts_on serverResults server) results.
Proof.
  induction results as [|result rest IH]; simpl; [lia|].
  assert (H : successes_on serverResults server result
              <= attempts_on serverResults server result).
  { unfold successes_on, attempts_on. destruct (r_success result); [|lia].
    apply filter_length_le. intros x Hx.
    now apply andb_true_iff in Hx. }
  lia.
Qed.

Lemma serverStats_get servers results server :
  map_get server (serverStats serverResults servers results)
  = if existsb (String.eqb server) servers
    then Some (mkStats (sum_over (successes_on serverResults server) results)
                       (sum_over (attempts_on serverResults server) results))
    else None.
Proof.
  unfold serverStats. rewrite tallyResults_get, initServerStats_get.
  destruct (existsb (String.eqb server) servers); reflexivity.
Qed.

(** X18.  The statistics of a configured server count the entries for it in
    the [serverResults] of the results that succeeded: [total] the entries
    under its address, [success] those among them that report a success.
    Results that failed and entries for a server that is not configured are
    not counted, and a server that is not configured has no statistics. *)
Theorem serverStats_counts servers results server :
  map_get server (serverStats serverResults servers results)
  = if existsb (String.eqb server) servers
    then Some (mkStats (sum_over (successes_on serverResults server) results)
                       (sum_over (attempts_on serverResults server) results))
    else None.
Proof.
  unfold serverStats. rewrite tallyResults_get, initServerStats_get.
  destruct (existsb (String.eqb server) servers); reflexivity.
Qed.

Lemma map_set_keys_list {V : Type} key (value : V) m :
  map fst (map_set key value m)
  = if existsb (String.eqb key) (map fst m) then map fst m
    else map fst m ++ [key].
Proof.
  induction m as [|[k0 v0] m IH]; simpl; [reflexivity|].
  rewrite (String.eqb_sym key k0).
  destruct (String.eqb k0 key) eqn:E0; simpl; [reflexivity|].
  rewrite IH. destruct (existsb (String.eqb key) (map fst m)); reflexivity.
Qed.

Lemma filter_filter {A : Type} (f g : A -> bool) l :
  filter f (filter g l) = filter (fun x => g x && f x) l.
Proof.
  induction l as [|x l IH]; simpl; [reflexivity|].
  destruct (g x); simpl; [destruct (f x); simpl; now rewrite IH | exact IH].
Qed.

Lemma initServerStats_order servers :
  map fst (initServerStats servers) = first_occurrences servers.
Proof.
  unfold initServerStats.
  assert (H : forall m : list (string * ServerStats),
             map fst (fold_left (fun m s => map_set s (mkStats 0 0) m)
                                servers m)
             = map fst m
               ++ filter (fun y => negb (existsb (String.eqb y) (map fst m)))
                         (first_occurrences servers)).
  { induction servers as [|x rest IH]; intros m; simpl.
    - now rewrite app_nil_r.
    - rewrite IH, map_set_keys_list.
      destruct (existsb (String.eqb x) (map fst m)) eqn:Hx; simpl.
      + f_equal. rewrite filter_filter. apply filter_ext. intros y.
        destruct (String.eqb_spec y x) as [->|Hne]; simpl.
        * now rewrite Hx.
        * reflexivity.
      + rewrite <- app_assoc. simpl. f_equal. f_equal.
        rewrite filter_filter. apply filter_ext. intros y.
        rewrite existsb_app. simpl. rewrite orb_false_r, negb_orb.
        apply andb_comm. }
  rewrite (H []). simpl. clear H.
  induction (first_occurrences servers) as [|y l IH]; simpl; congruence.
Qed.

(** X19.  The statistics have one line per configured server, a server that
    is configured twice included, in the order in which the servers are
    listed first in the configuration, whatever the results are, and no
    line reports more successes than attempts. *)
Theorem serverStats_lines servers results :
  map fst (serverStats serverResults servers results)
  = first_occurrences servers
  /\ NoDup (map fst (serverStats serverResults servers results))
  /\ (forall server,
        In server (map fst (serverStats serverResults servers results))
        <-> In server servers)
  /\ (forall server stats,
        In (server, stats) (serverStats serverResults servers results) ->
        success stats <= total stats).
Proof.
  assert (Hk : map fst (serverStats serverResults servers results)
               = map fst (initServerStats servers)).
  { unfold serverStats. apply tallyResults_keys. }
  destruct (initServerStats_keys servers) as [Hnd Hin].
  split; [rewrite Hk; apply initServerStats_order|].
  rewrite Hk. split; [exact Hnd|]. split; [exact Hin|].
  intros server stats Hs.
  assert (Hg : map_get server (serverStats serverResults servers results)
               = Some stats).
  { apply map_get_In; [now rewrite Hk|exact Hs]. }
  rewrite serverStats_get in Hg.
  destruct (existsb (String.eqb server) servers); [|discriminate].
  inversion Hg; subst. simpl. apply successes_le_attempts.
Qed.

End ServerStatistics.

(** ** The additional records *)

Lemma socket_actions_no_record ws :
  Forall (fun a => is_socket_action a = true) ws ->
  filter is_record_action ws = [].
Proof.
  induction 1 as [|a ws Ha _ IH]; [reflexivity|].
  destruct a; simpl in *; try discriminate; auto.
Qed.

Section Extras.

Variable E : env.
Variable signer : Signer.
Variable relays : list string.

Lemma signs_in_order_ret : signs_in_order E signer relays [] (ret tt).
Proof.
  intros st. exists [], []. simpl. rewrite app_nil_r.
  split; [reflexivity|]. split; [reflexivity|].
  left. split; [reflexivity | constructor].
Qed.

Lemma signs_in_order_log s :
  signs_in_order E signer relays [] (emit (AConsoleLog s)).
Proof.
  intros st. exists [AConsoleLog s], []. simpl.
  split; [reflexivity|]. split; [reflexivity|].
  left. split; [reflexivity | constructor].
Qed.

Lemma signs_in_order_bind shapes1 shapes2 (m1 : M unit) (m2 : M unit) :
  signs_in_order E signer relays shapes1 m1 ->
  signs_in_order E signer relays shapes2 m2 ->
  signs_in_order E signer relays (shapes1 ++ shapes2) (bind m1 (fun _ => m2)).
Proof.
  intros H1 H2 st. unfold bind.
  destruct (H1 st) as (a1 & g1 & T1 & R1 & O1).
  destruct (m1 st) as [r1 st1]. simpl in *.
  destruct O1 as [[-> S1]|[-> [k S1]]].
  - destruct (H2 st1) as (a2 & g2 & T2 & R2 & O2).
    exists (a1 ++ a2), (g1 ++ g2).
    split; [rewrite T2, T1; symmetry; apply app_assoc|].
    split; [now rewrite filter_app, concat_app, R1, R2|].
    destruct O2 as [[-> S2]|[-> [k2 S2]]].
    + left. split; [reflexivity | now apply Forall2_app].
    + right. split; [reflexivity|]. exists (List.length shapes1 + k2).
      rewrite firstn_app_2. now apply Forall2_app.
  - exists a1, g1. simpl. split; [exact T1|]. split; [exact R1|].
    right. split; [reflexivity|].
    destruct (Nat.le_gt_cases k (List.length shapes1)) as [Hk|Hk].
    + exists k. rewrite firstn_app.
      replace (k - List.length shapes1) with 0 by lia.
      simpl. now rewrite app_nil_r.
    + exists (List.length shapes1 + 0).
      rewrite firstn_app_2. simpl. rewrite app_nil_r.
      rewrite firstn_all2 in S1 by lia. exact S1.
Qed.

End Extras.

Section ExtraRecords.

Variable E : env.

Local Opaque publish.

Lemma publishExtra_signs p label template shape :
  (forall created,
      template_shape (template created) = shape
      /\ t_created_at (template created) = created) ->
  signs_in_order E (p_signer p) (p_relays p) [shape]
                 (publishExtra E p label template).
Proof.
  intros Hshape st. unfold publishExtra. run_cmd.
  destruct (Hshape (seconds (Date_now E (st_tick st)))) as [Hs Hc].
  destruct (signEvent E (S (st_tick st)) (p_signer p)
              (template (seconds (Date_now E (st_tick st)))))
    as [record|err] eqn:Hsign; simpl.
  - match goal with
    | |- context [publish E record (p_relays p) ?s] => set (st1 := s)
    end.
    destruct (publish_spec E record (p_relays p) st1) as (ws & T & F & O).
    pose proof (socket_actions_no_record ws F) as Fw.
    destruct (publish E record (p_relays p) st1) as [r st2]. simpl in *.
    destruct O as [->|[b ->]]; simpl.
    + eexists _, [[ASignEvent (template (seconds (Date_now E (st_tick st))));
                      APublish record (p_relays p)]]. split; [rewrite T; subst st1; simpl;
                              rewrite <- app_assoc; reflexivity|].
      simpl. rewrite Fw. split; [reflexivity|].
      right. split; [reflexivity|]. exists 1. simpl.
      constructor; [|constructor]. eapply ES_published; eauto.
    + eexists _, [[ASignEvent (template (seconds (Date_now E (st_tick st))));
                      APublish record (p_relays p)]]. split; [rewrite T; subst st1; simpl;
                              rewrite <- !app_assoc; reflexivity|].
      simpl. rewrite filter_app, Fw. simpl. split; [reflexivity|].
      left. split; [reflexivity|].
      constructor; [|constructor]. eapply ES_published; eauto.
  - eexists _, [[ASignEvent (template (seconds (Date_now E (st_tick st))))]]. split; [rewrite <- app_assoc; reflexivity|].
    simpl. split; [reflexivity|].
    left. split; [reflexivity|].
    constructor; [|constructor]. eapply ES_unsigned; eauto.
Qed.

(** X20.  The additional records are signed in a fixed order: the relay
    list (kind 10002, one [r] tag per relay), the server list (kind 10063,
    one [server] tag per server), the profile (kind 0, when the project has
    one), each only when its option is set and each once, all with the
    [client] tag and stamped with the clock reading taken just before.
    What is handed to [publishToRelays], for the relays of the run, is the
    record the signer returned for the template, right after it was
    signed: a record that cannot be signed is not published, nothing else
    is, and the records that follow are signed all the same.  Only a call
    of [publishToRelays] that does not return stops the sequence. *)
Theorem extras_signed_in_order options p st :
  exists added segments,
    st_trace (snd (publishExtras E options p st)) = st_trace st ++ added
    /\ filter is_record_action added = List.concat segments
    /\ (fst (publishExtras E options p st) = Val tt
        /\ Forall2 (extra_segment E (p_signer p) (p_relays p))
                   (requested_extras E options p) segments
        \/ fst (publishExtras E options p st) = Hang
           /\ exists k,
                Forall2 (extra_segment E (p_signer p) (p_relays p))
                        (firstn k (requested_extras E options p)) segments).
Proof.
  revert st.
  change (signs_in_order E (p_signer p) (p_relays p)
            (requested_extras E options p) (publishExtras E options p)).
  unfold publishExtras, requested_extras.
  destruct (publishRelayList options || publishServerList options
            || publishProfile options) eqn:Hany.
  - apply (signs_in_order_bind E (p_signer p) (p_relays p) []);
      [apply signs_in_order_log|].
    apply signs_in_order_bind.
    { destruct (publishRelayList options);
        [apply publishExtra_signs; intros; split; reflexivity
        | apply signs_in_order_ret]. }
    apply signs_in_order_bind.
    { destruct (publishServerList options);
        [apply publishExtra_signs; intros; split; reflexivity
        | apply signs_in_order_ret]. }
    destruct (publishProfile options); [|apply signs_in_order_ret].
    destruct (pd_profile (p_project p));
      [apply publishExtra_signs; intros; split; reflexivity
      | apply signs_in_order_ret].
  - apply orb_false_iff in Hany. destruct Hany as [Hany ->].
    apply orb_false_iff in Hany. destruct Hany as [-> ->].
    apply signs_in_order_ret.
Qed.

End ExtraRecords.
